(** * Context acquisition, attachment resolution and branch reconciliation

    A shallow embedding of the TypeScript sources

    - [src/github/api/config.ts]           ([getServerUrl], [isGiteaInstance]),
    - [src/github/validation/actor.ts]     ([checkAndCommitOrDeleteBranch]),
    - the image downloader                 ([createImageRegex],
      [downloadCommentImages], [getImageExtension]),
    - the data fetcher                     ([fetchGitHubData],
      [fetchUserDisplayName]),

    together with the properties the specification states about them.

    Conventions.  A JavaScript string is a [string]: a sequence of code
    units, of which this development covers those below 256.  Integers the
    platform hands out (ids, counters, epoch milliseconds) are [Z] or [N].
    Everything the code asks of the outside (REST calls, shell commands, file
    system, clock) is answered by a [World]; the answer may depend on every
    call made before it, which the run records in a trace. *)

From Stdlib Require Import String Ascii List ZArith NArith Lia Bool.
From stdpp Require Import base option list gmap strings pretty.
Import ListNotations.
Local Open Scope string_scope.

(** ** JavaScript values and string primitives *)

Module Js.

(** What a [throw] carries: a request error with its HTTP status, or an
    [Error] with a message. *)
Inductive exn : Type :=
| HttpError (status : Z) (message : string)
| JsError (message : string).

(** The completion of an expression: a value or a thrown exception. *)
Inductive outcome (A : Type) : Type :=
| Ret (a : A)
| Throw (e : exn).
Arguments Ret {A} a.
Arguments Throw {A} e.

(** A value of type [string | null] that may also be missing at run
    time. *)
Inductive nullable : Type :=
| Undefined
| Null
| Text (s : string).

(** [!!s] for a string: the empty string is the only falsy one. *)
Definition truthy (s : string) : bool :=
  match s with EmptyString => false | String _ _ => true end.

(** [!!x] for [x : string | undefined | null]. *)
Definition truthy_opt (o : option string) : bool :=
  match o with Some s => truthy s | None => false end.

(** [x || d] for [x : string | undefined | null]. *)
Definition or_default (o : option string) (d : string) : string :=
  match o with
  | Some s => if truthy s then s else d
  | None => d
  end.

(** [x || 0] for [x : number | undefined]. *)
Definition or_zero (o : option Z) : Z :=
  match o with Some z => z | None => 0%Z end.

(** White space and line terminators among the code units below 256:
    TAB, LF, VT, FF, CR, SP and NBSP. *)
Definition is_white (c : ascii) : bool :=
  match c with
  | "009" | "010" | "011" | "012" | "013" | " " | "160" => true
  | _ => false
  end%char.

Fixpoint trimStart (s : string) : string :=
  match s with
  | String c s' => if is_white c then trimStart s' else s
  | EmptyString => EmptyString
  end.

Fixpoint all_white (s : string) : bool :=
  match s with
  | String c s' => is_white c && all_white s'
  | EmptyString => true
  end.

Fixpoint trimEnd (s : string) : string :=
  match s with
  | String c s' => if all_white s then EmptyString else String c (trimEnd s')
  | EmptyString => EmptyString
  end.

(** [s.trim()] *)
Definition trim (s : string) : string := trimEnd (trimStart s).

(** [s.split(sep)] for a one-character separator; the result is never
    empty. *)
Fixpoint split (sep : ascii) (s : string) : list string :=
  match s with
  | EmptyString => [EmptyString]
  | String c s' =>
      if Ascii.eqb c sep then EmptyString :: split sep s'
      else match split sep s' with
           | hd :: tl => String c hd :: tl
           | [] => [String c EmptyString]
           end
  end.

(** Case folding of the letters A-Z, as the [i] flag compares them. *)
Definition fold_case (c : ascii) : ascii :=
  let n := nat_of_ascii c in
  if (65 <=? n)%nat && (n <=? 90)%nat then ascii_of_nat (n + 32) else c.

Fixpoint fold_case_str (s : string) : string :=
  match s with
  | String c s' => String (fold_case c) (fold_case_str s')
  | EmptyString => EmptyString
  end.

(** [s.startsWith(p)], returning what follows the prefix. *)
Fixpoint strip_prefix (p s : string) : option string :=
  match p, s with
  | EmptyString, _ => Some s
  | String a p', String b s' =>
      if Ascii.eqb a b then strip_prefix p' s' else None
  | String _ _, EmptyString => None
  end.

(** The longest prefix of code units satisfying [f], and the rest. *)
Fixpoint span (f : ascii -> bool) (s : string) : string * string :=
  match s with
  | String c s' =>
      if f c then let '(a, b) := span f s' in (String c a, b)
      else (EmptyString, s)
  | EmptyString => (EmptyString, EmptyString)
  end.

(** [`${n}`] for a non-negative integer and for an integer. *)
Definition show_N (n : N) : string := pretty n.
Definition show_Z (z : Z) : string := pretty z.

(** [Number.isSafeInteger] on an integer. *)
Definition safe_integer (z : Z) : bool :=
  (Z.abs z <=? 9007199254740991)%Z.

(** [n.toString()] for an integer number: the decimal digits of a safe
    integer.  Beyond the safe integers the digits are those of the
    shortest decimal that reads back as the same double, in exponent form
    from 1e21 on; [beyond] stands for that printing, which is the
    language's. *)
Definition number_toString (beyond : Z -> string) (z : Z) : string :=
  if safe_integer z then show_Z z else beyond z.

(** Digits of [parseInt]. *)
Definition digit_of (radix : Z) (c : ascii) : option Z :=
  let n := Z.of_nat (nat_of_ascii c) in
  let d :=
    if (48 <=? n)%Z && (n <=? 57)%Z then Some (n - 48)%Z
    else if (97 <=? n)%Z && (n <=? 122)%Z then Some (n - 87)%Z
    else if (65 <=? n)%Z && (n <=? 90)%Z then Some (n - 55)%Z
    else None in
  match d with
  | Some v => if (v <? radix)%Z then Some v else None
  | None => None
  end.

Fixpoint digits_go (radix : Z) (acc : option Z) (s : string) : option Z :=
  match s with
  | String c s' =>
      match digit_of radix c with
      | Some v =>
          digits_go radix
            (Some (match acc with Some a => a * radix + v | None => v end)%Z) s'
      | None => acc
      end
  | EmptyString => acc
  end.

(** [parseInt(s)] without a radix; [None] is NaN.  The value is the exact
    integer, which is what the source computes below 2^53. *)
Definition parseInt (s : string) : option Z :=
  let s1 := trimStart s in
  let '(neg, s2) :=
    match s1 with
    | String "-" r => (true, r)
    | String "+" r => (false, r)
    | _ => (false, s1)
    end in
  let '(radix, s3) :=
    match s2 with
    | String "0" (String "x" r) | String "0" (String "X" r) => (16%Z, r)
    | _ => (10%Z, s2)
    end in
  match digits_go radix None s3 with
  | Some v => Some (if neg then (- v)%Z else v)
  | None => None
  end.

End Js.
Import Js.

(** ** The outside world *)

(** Payloads of the REST responses, with the fields the code reads. *)
Module Payload.

Record Branch : Type := { commit_sha : string }.

(** A [fetch] response. *)
Record Response : Type := {
  ok : bool;
  status : Z;
  statusText : string;
  arrayBuffer : outcome string
}.

Record Pull : Type := {
  pr_title : string;
  pr_body : option string;
  pr_user_login : option string;
  pr_base_ref : string;
  pr_head_ref : string;
  pr_head_sha : string;
  pr_created_at : string;
  pr_additions : option Z;
  pr_deletions : option Z;
  pr_state : string
}.

Record Issue : Type := {
  is_title : string;
  is_body : option string;
  is_user_login : option string;
  is_created_at : string;
  is_state : string
}.

Record Comment : Type := {
  cm_id : Z;
  cm_body : option string;
  cm_user_login : option string;
  cm_created_at : string
}.

Record File : Type := {
  fl_filename : string;
  fl_additions : option Z;
  fl_deletions : option Z;
  fl_status : option string
}.

End Payload.

(** One entry per request the code sends out, with its arguments.  The five
    [..Html] and review calls are the ones made with media type
    [full+json]. *)
Inductive event : Type :=
| EReposGetBranch (owner repo branch : string)
| EGitStatus
| EGitAdd
| EGitCommit (message : string)
| EGitPush (branch : string)
| EFetchDelete (url authorization : string)
| EGitDeleteRef (owner repo ref : string)
| EFsMkdir (dir : string)
| EIssuesGetCommentHtml (owner repo : string) (comment_id : option Z)
| EPullsGetReviewCommentHtml (owner repo : string) (comment_id : option Z)
| EPullsGetReviewHtml (owner repo : string) (pull_number review_id : option Z)
| EIssuesGetHtml (owner repo : string) (issue_number : option Z)
| EPullsGetHtml (owner repo : string) (pull_number : option Z)
| EDateNow
| EFetch (url : string)
| EFsWriteFile (path data : string)
| EPullsGet (owner repo : string) (pull_number : option Z)
| EIssuesGet (owner repo : string) (issue_number : option Z)
| EIssuesListComments (owner repo : string) (issue_number : option Z)
| EPullsListFiles (owner repo : string) (pull_number : option Z)
| EGitHashObject (path : string)
| EUsersGetByUsername (username : string).

(** The history of a run, newest request first. *)
Definition trace : Type := list event.

(** The environment variables read by [config.ts] and the reconciler, and
    the answer to every request given the history before it. *)
Record World : Type := {
  GITEA_API_URL : option string;
  GITEA_SERVER_URL : option string;
  GITHUB_SERVER_URL : option string;
  GITHUB_RUN_NUMBER : option string;
  GITHUB_TOKEN : option string;
  repos_getBranch : trace -> string -> string -> string -> outcome Payload.Branch;
  git_status : trace -> outcome string;
  git_add : trace -> outcome unit;
  git_commit : trace -> string -> outcome unit;
  git_push : trace -> string -> outcome unit;
  fetch_delete : trace -> string -> string -> outcome Payload.Response;
  git_deleteRef : trace -> string -> string -> string -> outcome unit;
  fs_mkdir : trace -> string -> outcome unit;
  issues_getComment_html : trace -> string -> string -> option Z -> outcome (option string);
  pulls_getReviewComment_html : trace -> string -> string -> option Z -> outcome (option string);
  pulls_getReview_html : trace -> string -> string -> option Z -> option Z -> outcome (option string);
  issues_get_html : trace -> string -> string -> option Z -> outcome (option string);
  pulls_get_html : trace -> string -> string -> option Z -> outcome (option string);
  date_now : trace -> N;
  fetch : trace -> string -> outcome Payload.Response;
  fs_writeFile : trace -> string -> string -> outcome unit;
  pulls_get : trace -> string -> string -> option Z -> outcome Payload.Pull;
  issues_get : trace -> string -> string -> option Z -> outcome Payload.Issue;
  issues_listComments : trace -> string -> string -> option Z -> outcome (list Payload.Comment);
  pulls_listFiles : trace -> string -> string -> option Z -> outcome (list Payload.File);
  git_hash_object : trace -> string -> outcome string;
  users_getByUsername : trace -> string -> outcome nullable
}.

(** ** Computations: a trace, the mutable locals of the function, and
    exceptions that leave both as they were when thrown *)

Module Eff.
Section WithLocals.
Context {L : Type}.

Definition M (A : Type) : Type := trace -> L -> trace * L * outcome A.

Definition ret {A} (a : A) : M A := fun t l => (t, l, Ret a).

Definition throw {A} (e : exn) : M A := fun t l => (t, l, Throw e).

Definition bind {A B} (m : M A) (k : A -> M B) : M B :=
  fun t l =>
    match m t l with
    | (t', l', Ret a) => k a t' l'
    | (t', l', Throw e) => (t', l', Throw e)
    end.

(** Run [m] and hand back how it completed. *)
Definition attempt {A} (m : M A) : M (outcome A) :=
  fun t l => let '(t', l', o) := m t l in (t', l', Ret o).

(** [try { m } catch (e) { h e }] *)
Definition try_catch {A} (m : M A) (h : exn -> M A) : M A :=
  bind (attempt m) (fun o => match o with Ret a => ret a | Throw e => h e end).

(** [await Promise.all([m1, m2])]: both requests are issued, in order;
    the await throws when either rejects (with the rejection of the
    first in the list when both do; the code only logs it). *)
Definition promise_all2 {A B} (m1 : M A) (m2 : M B) : M (A * B) :=
  bind (attempt m1) (fun o1 =>
  bind (attempt m2) (fun o2 =>
    match o1, o2 with
    | Ret a, Ret b => ret (a, b)
    | Throw e, _ => throw e
    | Ret _, Throw e => throw e
    end)).

(** Send request [e]; the world answers from the history before it. *)
Definition request {A} (e : event) (answer : trace -> outcome A) : M A :=
  fun t l => (e :: t, l, answer t).

Definition get_locals : M L := fun t l => (t, l, Ret l).

Definition modify_locals (f : L -> L) : M unit :=
  fun t l => (t, f l, Ret tt).

(** [for (const x of xs) { body x }] *)
Fixpoint for_each {A} (xs : list A) (body : A -> M unit) : M unit :=
  match xs with
  | [] => ret tt
  | x :: xs' => bind (body x) (fun _ => for_each xs' body)
  end.

(** [xs.map(f)] for an [f] that sends requests. *)
Fixpoint map_each {A B} (xs : list A) (f : A -> M B) : M (list B) :=
  match xs with
  | [] => ret []
  | x :: xs' =>
      bind (f x) (fun y => bind (map_each xs' f) (fun ys => ret (y :: ys)))
  end.

End WithLocals.
Arguments M : clear implicits.

(** Call a function that has locals [L'] of its own, started at [init]. *)
Definition call {L L' A} (init : L') (m : M L' A) : M L A :=
  fun t l => let '(t', _, o) := m t init in (t', l, o).

End Eff.
Import Eff.

Notation "'let*' x ':=' c1 'in' c2" := (bind c1 (fun x => c2))
  (at level 10, x binder, c1 at level 100, c2 at level 200).
Notation "c1 ';;;' c2" := (bind c1 (fun _ => c2))
  (at level 100, c2 at level 200, right associativity).

(** Run a computation that has no locals, from history [t]. *)
Definition run {A} (m : M unit A) (t : trace) : trace * outcome A :=
  let '(t', _, o) := m t tt in (t', o).

(** A line feed, for the template literals that contain one. *)
Definition LF : string := String "010" EmptyString.

(** ** [src/github/api/config.ts] *)

Module Config.

(** [process.env.GITEA_SERVER_URL || process.env.GITHUB_SERVER_URL ||
    "https://github.com"] *)
Definition SERVER_URL (w : World) : string :=
  or_default (GITEA_SERVER_URL w)
    (or_default (GITHUB_SERVER_URL w) "https://github.com").

Definition getServerUrl (w : World) : string := SERVER_URL w.

(** [!!process.env.GITEA_API_URL] *)
Definition isGiteaInstance (w : World) : bool := truthy_opt (GITEA_API_URL w).

(** [`${process.env.X}`] *)
Definition show_env (o : option string) : string :=
  match o with Some s => s | None => "undefined" end.

End Config.
Import Config.

(** [encodeURIComponent] on code units below 256: the unreserved marks and
    alphanumerics stay, every other unit becomes the percent-escaped bytes of
    its UTF-8 encoding. *)
Module Uri.

Definition unreserved (c : ascii) : bool :=
  let n := nat_of_ascii c in
  ((48 <=? n) && (n <=? 57) || (65 <=? n) && (n <=? 90)
   || (97 <=? n) && (n <=? 122))%nat
  || match c with
     | "-" | "_" | "." | "!" | "~" | "*" | "'" | "(" | ")" => true
     | _ => false
     end%char.

Definition hex_digit (n : nat) : ascii :=
  if (n <? 10)%nat then ascii_of_nat (48 + n) else ascii_of_nat (55 + n).

Definition percent (n : nat) : string :=
  String "%" (String (hex_digit (n / 16)) (String (hex_digit (n mod 16)) "")).

Definition escape (c : ascii) : string :=
  let n := nat_of_ascii c in
  if unreserved c then String c ""
  else if (n <? 128)%nat then percent n
  else percent (192 + n / 64) ++ percent (128 + n mod 64).

Fixpoint encodeURIComponent (s : string) : string :=
  match s with
  | String c s' => escape c ++ encodeURIComponent s'
  | EmptyString => EmptyString
  end.

End Uri.

(** ** [src/github/validation/actor.ts]: [checkAndCommitOrDeleteBranch] *)

Module BranchReconciler.

(** The two [let] variables of the function, which are also its result. *)
Record Disposition : Type := {
  shouldDeleteBranch : bool;
  branchLink : string
}.

(** [let branchLink = ""; let shouldDeleteBranch = false;] *)
Definition initial : Disposition :=
  {| shouldDeleteBranch := false; branchLink := "" |}.

Definition set_branchLink (s : string) (l : Disposition) : Disposition :=
  {| shouldDeleteBranch := shouldDeleteBranch l; branchLink := s |}.

Definition set_shouldDeleteBranch (b : bool) (l : Disposition) : Disposition :=
  {| shouldDeleteBranch := b; branchLink := branchLink l |}.

Section Reconcile.
Variable w : World.
Variables owner repo : string.

Definition getBranch (branch : string) : M Disposition Payload.Branch :=
  request (EReposGetBranch owner repo branch)
          (fun t => repos_getBranch w t owner repo branch).

(** [branchLink = `\n[View branch](${branchUrl})`] *)
Definition link_branch (claudeBranch : string) : M Disposition unit :=
  let branchUrl :=
    getServerUrl w ++ "/" ++ owner ++ "/" ++ repo ++ "/tree/" ++ claudeBranch in
  modify_locals (set_branchLink (LF ++ "[View branch](" ++ branchUrl ++ ")")).

(** Lines 105-142: the branch has no commits and signing is off. *)
Definition commit_uncommitted (claudeBranch : string) : M Disposition unit :=
  try_catch
    (let* gitStatus := request EGitStatus (git_status w) in
     let hasUncommittedChanges := (0 <? String.length (trim gitStatus))%nat in
     if hasUncommittedChanges then
       request EGitAdd (git_add w) ;;;
       let runId := or_default (GITHUB_RUN_NUMBER w) "unknown" in
       let commitMessage :=
         "Auto-commit: Save uncommitted changes from Claude"
         ++ LF ++ LF ++ "Run ID: " ++ runId in
       request (EGitCommit commitMessage)
               (fun t => git_commit w t commitMessage) ;;;
       request (EGitPush claudeBranch)
               (fun t => git_push w t claudeBranch) ;;;
       link_branch claudeBranch
     else
       modify_locals (set_shouldDeleteBranch true))
    (fun gitError => link_branch claudeBranch).

(** Lines 85-159: did the agent commit to the branch? *)
Definition compare_heads (claudeBranch baseBranch : string)
    (useCommitSigning : bool) : M Disposition unit :=
  try_catch
    (let* infos :=
       promise_all2 (getBranch baseBranch) (getBranch claudeBranch) in
     let baseSHA := Payload.commit_sha (fst infos) in
     let claudeSHA := Payload.commit_sha (snd infos) in
     let hasCommits := negb (String.eqb baseSHA claudeSHA) in
     if negb hasCommits then
       if negb useCommitSigning then commit_uncommitted claudeBranch
       else modify_locals (set_shouldDeleteBranch true)
     else link_branch claudeBranch)
    (fun error => link_branch claudeBranch).

(** Lines 164-190: the deletion request, whose failure is swallowed. *)
Definition delete_branch (claudeBranch : string) : M Disposition unit :=
  try_catch
    (if isGiteaInstance w then
       let url :=
         show_env (GITEA_API_URL w) ++ "/repos/" ++ owner ++ "/" ++ repo
         ++ "/branches/" ++ Uri.encodeURIComponent claudeBranch in
       let authorization := "token " ++ show_env (GITHUB_TOKEN w) in
       let* response :=
         request (EFetchDelete url authorization)
                 (fun t => fetch_delete w t url authorization) in
       if negb (Payload.ok response) then
         throw (JsError ("Failed to delete branch: "
                         ++ show_Z (Payload.status response) ++ " "
                         ++ Payload.statusText response))
       else ret tt
     else
       let ref := "heads/" ++ claudeBranch in
       request (EGitDeleteRef owner repo ref)
               (fun t => git_deleteRef w t owner repo ref))
    (fun deleteError => ret tt).

(** Lines 162-193. *)
Definition delete_and_return (claudeBranch : option string)
    : M Disposition Disposition :=
  let* l := get_locals in
  (match claudeBranch with
   | Some b =>
       if shouldDeleteBranch l && truthy b then delete_branch b else ret tt
   | None => ret tt
   end) ;;;
  get_locals.

Definition body (claudeBranch : option string) (baseBranch : string)
    (useCommitSigning : bool) : M Disposition Disposition :=
  match claudeBranch with
  | Some b =>
      if truthy b then
        let* branchExistsRemotely :=
          try_catch (getBranch b ;;; ret true) (fun error => ret false) in
        if negb branchExistsRemotely then
          ret {| shouldDeleteBranch := false; branchLink := "" |}
        else
          compare_heads b baseBranch useCommitSigning ;;;
          delete_and_return claudeBranch
      else delete_and_return claudeBranch
  | None => delete_and_return claudeBranch
  end.

Definition checkAndCommitOrDeleteBranch {L} (claudeBranch : option string)
    (baseBranch : string) (useCommitSigning : bool) : M L Disposition :=
  call initial (body claudeBranch baseBranch useCommitSigning).

End Reconcile.

End BranchReconciler.

(** ** The image downloader *)

Module ImageDownloader.

(** *** The two regular expressions *)

Definition DQUOTE : ascii := "034"%char.

Definition is_not (c : ascii) (x : ascii) : bool := negb (Ascii.eqb x c).

(** All matches of a pattern that never matches the empty string, left to
    right and without overlap, as [matchAll] and [match] with the [g] flag
    enumerate them.  [at_ s] matches the pattern at the start of [s] and
    returns what the match yields together with the input after it;
    [skip] counts the code units of the last match still to step over. *)
Fixpoint matchAll (at_ : string -> option (string * string)) (skip : nat)
    (s : string) : list string :=
  match s with
  | EmptyString => []
  | String _ s' =>
      match skip with
      | S k => matchAll at_ k s'
      | O =>
          match at_ s with
          | Some (found, rest) =>
              found :: matchAll at_ (String.length s - String.length rest - 1) s'
          | None => matchAll at_ 0 s'
          end
      end
  end.

(** The path under which the platform serves attachments, appended to the
    escaped (hence literal) server URL in [createImageRegex]. *)
Definition attachment_prefix (w : World) : string :=
  if isGiteaInstance w then getServerUrl w ++ "/attachments/"
  else getServerUrl w ++ "/user-attachments/assets/".

(** [!\[[^\]]*\]\((PREFIX[^)]+)\)] at the start of [s]; yields group 1.
    Both character classes are negated and each is followed by the
    character it excludes, so the greedy choice is the only one. *)
Definition createImageRegex (w : World) (s : string) : option (string * string) :=
  match strip_prefix "![" s with
  | Some s1 =>
      let '(_, s2) := span (is_not "]") s1 in
      match strip_prefix "](" s2 with
      | Some s3 =>
          match strip_prefix (attachment_prefix w) s3 with
          | Some s4 =>
              let '(target, s5) := span (is_not ")") s4 in
              match target, strip_prefix ")" s5 with
              | String _ _, Some s6 => Some (attachment_prefix w ++ target, s6)
              | _, _ => None
              end
          | None => None
          end
      | None => None
      end
  | None => None
  end.

(** [const IMAGE_REGEX = createImageRegex()] *)
Definition IMAGE_REGEX (w : World) : string -> option (string * string) :=
  createImageRegex w.

(** [[...body.matchAll(IMAGE_REGEX)].map((match) => match[1])] *)
Definition image_urls (w : World) (body : string) : list string :=
  matchAll (IMAGE_REGEX w) 0 body.

Definition SIGNED_HOST : string :=
  "https://private-user-images.githubusercontent.com/".

(** Does [\?jwt=] followed by one more code unit occur somewhere in [s],
    a run without double quotes? *)
Fixpoint has_jwt (s : string) : bool :=
  match s with
  | EmptyString => false
  | String _ s' =>
      match strip_prefix "?jwt=" s with
      | Some (String _ _) => true
      | _ => has_jwt s'
      end
  end.

(** [signedUrlRegex] at the start of [s].  With Q the double quote, the
    pattern is the host, [[^Q]+], [\?jwt=] and [[^Q]+] again: it matches
    the host and then the whole run up to the next double quote, provided
    [?jwt=] occurs in the run after at least one code unit and before at
    least one. *)
Definition signedUrlRegex (s : string) : option (string * string) :=
  match strip_prefix SIGNED_HOST s with
  | Some s1 =>
      let '(run_, rest) := span (is_not DQUOTE) s1 in
      match run_ with
      | String _ run' =>
          if has_jwt run' then Some (SIGNED_HOST ++ run_, rest) else None
      | EmptyString => None
      end
  | None => None
  end.

(** [bodyHtml.match(signedUrlRegex) || []] *)
Definition signed_urls (bodyHtml : string) : list string :=
  matchAll signedUrlRegex 0 bodyHtml.

(** *** [getImageExtension] *)

Definition IMAGE_EXTENSIONS : list string :=
  [".png"; ".jpg"; ".jpeg"; ".gif"; ".webp"; ".svg"].

Definition is_image_extension (s : string) : bool :=
  bool_decide (fold_case_str s ∈ IMAGE_EXTENSIONS).

(** [filename.match(/\.(png|jpg|jpeg|gif|webp|svg)$/i)]: the leftmost
    position from which the rest of the input is one of the extensions;
    yields [match[0]]. *)
Fixpoint extension_match (filename : string) : option string :=
  match filename with
  | EmptyString => None
  | String _ rest =>
      if is_image_extension filename then Some filename
      else extension_match rest
  end.

Definition getImageExtension (url : string) : outcome string :=
  let urlParts := split "/" url in
  let filename := List.last urlParts EmptyString in
  if negb (truthy filename) then
    Throw (JsError "Invalid URL: No filename found")
  else
    match extension_match filename with
    | Some m => Ret m
    | None => Ret ".png"
    end.

(** *** [CommentWithImages] *)

Inductive CommentWithImages : Type :=
| IssueComment (id body : string)
| ReviewComment (id body : string)
| ReviewBody (id pullNumber body : string)
| IssueBody (issueNumber body : string)
| PullRequestBody (pullNumber body : string).

Definition body (c : CommentWithImages) : string :=
  match c with
  | IssueComment _ b | ReviewComment _ b | ReviewBody _ _ b
  | IssueBody _ b | PullRequestBody _ b => b
  end.

End ImageDownloader.

Module Downloader.
Import ImageDownloader.

Definition downloadsDir : string := "/tmp/github-images".

(** [path.join(downloadsDir, filename)]: the file name is one path segment
    other than [.] and [..], so joining only puts the separator in. *)
Definition path_join (dir filename : string) : string :=
  dir ++ "/" ++ filename.

(** Settle a completion inside a computation ([await] of a promise that
    has already been decided, or a call of a pure function that may
    throw). *)
Definition settle {L A} (o : outcome A) : M L A :=
  match o with Ret a => ret a | Throw e => throw e end.

Section Download.
Variable w : World.
Variables owner repo : string.

(** The only mutable object of the function is [urlToPathMap]. *)
Abbreviation Locals := (gmap string string).

(** Lines 83-97: the comments that have at least one match, each with
    its matched URLs in order. *)
Fixpoint commentsWithImages (comments : list CommentWithImages)
    : list (CommentWithImages * list string) :=
  match comments with
  | [] => []
  | comment :: rest =>
      let urls := image_urls w (body comment) in
      if (0 <? length urls)%nat then
        (comment, urls) :: commentsWithImages rest
      else commentsWithImages rest
  end.

(** Lines 105-180: the [switch] that fetches [body_html]. *)
Definition fetch_body_html (comment : CommentWithImages)
    : M Locals (option string) :=
  match comment with
  | IssueComment id _ =>
      request (EIssuesGetCommentHtml owner repo (parseInt id))
              (fun t => issues_getComment_html w t owner repo (parseInt id))
  | ReviewComment id _ =>
      try_catch
        (request (EPullsGetReviewCommentHtml owner repo (parseInt id))
                 (fun t => pulls_getReviewComment_html w t owner repo
                             (parseInt id)))
        (fun error => ret None)
  | ReviewBody id pullNumber _ =>
      try_catch
        (request (EPullsGetReviewHtml owner repo (parseInt pullNumber)
                                      (parseInt id))
                 (fun t => pulls_getReview_html w t owner repo
                             (parseInt pullNumber) (parseInt id)))
        (fun error => ret None)
  | IssueBody issueNumber _ =>
      request (EIssuesGetHtml owner repo (parseInt issueNumber))
              (fun t => issues_get_html w t owner repo (parseInt issueNumber))
  | PullRequestBody pullNumber _ =>
      request (EPullsGetHtml owner repo (parseInt pullNumber))
              (fun t => pulls_get_html w t owner repo (parseInt pullNumber))
  end.

(** Lines 215-234: fetch the signed URL, write the file, record it. *)
Definition download (signedUrl originalUrl localPath : string)
    : M Locals unit :=
  try_catch
    (let* imageResponse :=
       request (EFetch signedUrl) (fun t => fetch w t signedUrl) in
     if negb (Payload.ok imageResponse) then
       throw (JsError ("HTTP " ++ show_Z (Payload.status imageResponse)
                       ++ ": " ++ Payload.statusText imageResponse))
     else
       let* buffer := settle (Payload.arrayBuffer imageResponse) in
       request (EFsWriteFile localPath buffer)
               (fun t => fs_writeFile w t localPath buffer) ;;;
       modify_locals (fun urlToPathMap =>
                        <[originalUrl := localPath]> urlToPathMap))
    (fun error => ret tt).

(** Lines 198-235: one turn of the inner [for] loop, at index [i]. *)
Definition download_pair (signedUrls urls : list string) (i : nat)
    : M Locals unit :=
  match signedUrls !! i, urls !! i with
  | Some signedUrl, Some originalUrl =>
      if negb (truthy signedUrl) || negb (truthy originalUrl) then ret tt
      else
        let* urlToPathMap := get_locals in
        if bool_decide (is_Some (urlToPathMap !! originalUrl)) then ret tt
        else
          let* fileExtension := settle (getImageExtension originalUrl) in
          let* now := request EDateNow (fun t => Ret (date_now w t)) in
          let filename :=
            "image-" ++ show_N now ++ "-" ++ show_N (N.of_nat i)
            ++ fileExtension in
          let localPath := path_join downloadsDir filename in
          download signedUrl originalUrl localPath
  | _, _ => ret tt
  end.

(** Lines 100-248: one turn of the outer loop. *)
Definition process_comment (entry : CommentWithImages * list string)
    : M Locals unit :=
  let '(comment, urls) := entry in
  try_catch
    (let* bodyHtml := fetch_body_html comment in
     match bodyHtml with
     | Some html =>
         if truthy html then
           let signedUrls := signed_urls html in
           for_each
             (seq 0 (Nat.min (length signedUrls) (length urls)))
             (download_pair signedUrls urls)
         else ret tt
     | None => ret tt
     end)
    (fun error => ret tt).

Definition resolve (comments : list CommentWithImages)
    : M Locals (gmap string string) :=
  request (EFsMkdir downloadsDir) (fun t => fs_mkdir w t downloadsDir) ;;;
  for_each (commentsWithImages comments) process_comment ;;;
  get_locals.

Definition downloadCommentImages {L} (comments : list CommentWithImages)
    : M L (gmap string string) :=
  call (∅ : gmap string string) (resolve comments).

End Download.

End Downloader.

(** ** The data fetcher: [fetchGitHubData] *)

Module Fetcher.
Import ImageDownloader Downloader.

Record Author : Type := { login : string }.

Record GitHubComment : Type := {
  id : string;
  databaseId : string;
  comment_body : string;
  comment_author : Author;
  comment_createdAt : string
}.

Record GitHubFile : Type := {
  path : string;
  additions : Z;
  deletions : Z;
  changeType : string
}.

Record GitHubFileWithSHA : Type := {
  file : GitHubFile;
  sha : string
}.

Record ReviewCommentNode : Type := {
  rc_databaseId : string;
  rc_body : string
}.

Record GitHubReview : Type := {
  rv_databaseId : string;
  rv_body : string;
  rv_comments : option (list ReviewCommentNode)
}.

(** [GitHubPullRequest | GitHubIssue]; the node lists the code leaves
    empty ([commits], [files], [comments], [reviews]) are not repeated. *)
Inductive ContextData : Type :=
| PullRequest (title body : string) (author : Author)
    (baseRefName headRefName headRefOid createdAt : string)
    (additions deletions : Z) (state : string)
| Issue (title body : string) (author : Author) (createdAt state : string).

Definition context_body (c : ContextData) : string :=
  match c with
  | PullRequest _ b _ _ _ _ _ _ _ _ => b
  | Issue _ b _ _ _ => b
  end.

Record FetchDataResult : Type := {
  contextData : ContextData;
  comments : list GitHubComment;
  changedFiles : list GitHubFile;
  changedFilesWithSHA : list GitHubFileWithSHA;
  reviewData : option (list GitHubReview);
  imageUrlMap : gmap string string;
  triggerDisplayName : nullable
}.

(** The four [let] variables declared before the [try]. *)
Record Locals : Type := {
  l_contextData : option ContextData;
  l_comments : list GitHubComment;
  l_changedFiles : list GitHubFile;
  l_reviewData : option (list GitHubReview)
}.

Definition set_contextData (c : ContextData) (l : Locals) : Locals :=
  {| l_contextData := Some c; l_comments := l_comments l;
     l_changedFiles := l_changedFiles l; l_reviewData := l_reviewData l |}.
Definition set_comments (cs : list GitHubComment) (l : Locals) : Locals :=
  {| l_contextData := l_contextData l; l_comments := cs;
     l_changedFiles := l_changedFiles l; l_reviewData := l_reviewData l |}.
Definition set_changedFiles (fs : list GitHubFile) (l : Locals) : Locals :=
  {| l_contextData := l_contextData l; l_comments := l_comments l;
     l_changedFiles := fs; l_reviewData := l_reviewData l |}.
Definition set_reviewData (r : option (list GitHubReview)) (l : Locals)
    : Locals :=
  {| l_contextData := l_contextData l; l_comments := l_comments l;
     l_changedFiles := l_changedFiles l; l_reviewData := r |}.

Section Fetch.
Variable w : World.
(** [String.prototype.toUpperCase], whose case tables are the
    language's and not the repository's. *)
Variable toUpperCase : string -> string.
(** [Number.prototype.toString] beyond the safe integers, likewise. *)
Variable toStringBeyond : Z -> string.

(** The answer is [result.data.name] as it came: a string, [null], or
    nothing when the payload has no such field. *)
Definition fetchUserDisplayName {L} (login_ : string) : M L nullable :=
  try_catch
    (request (EUsersGetByUsername login_)
             (fun t => users_getByUsername w t login_))
    (fun error => ret Null).

Definition to_comment (c : Payload.Comment) : GitHubComment :=
  {| id := number_toString toStringBeyond (Payload.cm_id c);
     databaseId := number_toString toStringBeyond (Payload.cm_id c);
     comment_body := or_default (Payload.cm_body c) "";
     comment_author := {| login := or_default (Payload.cm_user_login c) "" |};
     comment_createdAt := Payload.cm_created_at c |}.

Definition to_file (f : Payload.File) : GitHubFile :=
  {| path := Payload.fl_filename f;
     additions := or_zero (Payload.fl_additions f);
     deletions := or_zero (Payload.fl_deletions f);
     changeType :=
       or_default (option_map toUpperCase (Payload.fl_status f)) "MODIFIED" |}.

(** Lines 117-133 and 172-188. *)
Definition fetch_comments (owner repo prNumber : string) : M Locals unit :=
  try_catch
    (let* commentsResponse :=
       request (EIssuesListComments owner repo (parseInt prNumber))
               (fun t => issues_listComments w t owner repo
                           (parseInt prNumber)) in
     modify_locals (set_comments (map to_comment commentsResponse)))
    (fun error => modify_locals (set_comments [])).

(** Lines 136-151. *)
Definition fetch_files (owner repo prNumber : string) : M Locals unit :=
  try_catch
    (let* filesResponse :=
       request (EPullsListFiles owner repo (parseInt prNumber))
               (fun t => pulls_listFiles w t owner repo (parseInt prNumber)) in
     modify_locals (set_changedFiles (map to_file filesResponse)))
    (fun error => modify_locals (set_changedFiles [])).

Definition failed_to_fetch (isPR : bool) : exn :=
  JsError ("Failed to fetch " ++ (if isPR then "PR" else "issue") ++ " data").

(** Lines 89-193. *)
Definition fetch_entity (owner repo prNumber : string) (isPR : bool)
    : M Locals unit :=
  try_catch
    (if isPR then
       let* prResponse :=
         request (EPullsGet owner repo (parseInt prNumber))
                 (fun t => pulls_get w t owner repo (parseInt prNumber)) in
       modify_locals (set_contextData
         (PullRequest
            (Payload.pr_title prResponse)
            (or_default (Payload.pr_body prResponse) "")
            {| login := or_default (Payload.pr_user_login prResponse) "" |}
            (Payload.pr_base_ref prResponse)
            (Payload.pr_head_ref prResponse)
            (Payload.pr_head_sha prResponse)
            (Payload.pr_created_at prResponse)
            (or_zero (Payload.pr_additions prResponse))
            (or_zero (Payload.pr_deletions prResponse))
            (toUpperCase (Payload.pr_state prResponse)))) ;;;
       fetch_comments owner repo prNumber ;;;
       fetch_files owner repo prNumber ;;;
       modify_locals (set_reviewData (Some []))
     else
       let* issueResponse :=
         request (EIssuesGet owner repo (parseInt prNumber))
                 (fun t => issues_get w t owner repo (parseInt prNumber)) in
       modify_locals (set_contextData
         (Issue
            (Payload.is_title issueResponse)
            (or_default (Payload.is_body issueResponse) "")
            {| login := or_default (Payload.is_user_login issueResponse) "" |}
            (Payload.is_created_at issueResponse)
            (toUpperCase (Payload.is_state issueResponse)))) ;;;
       fetch_comments owner repo prNumber)
    (fun error => throw (failed_to_fetch isPR)).

(** Lines 198-224: the content hash of one changed file. *)
Definition with_sha (f : GitHubFile) : M Locals GitHubFileWithSHA :=
  if String.eqb (changeType f) "DELETED" then
    ret {| file := f; sha := "deleted" |}
  else
    try_catch
      (let* out :=
         request (EGitHashObject (path f))
                 (fun t => git_hash_object w t (path f)) in
       ret {| file := f; sha := trim out |})
      (fun error => ret {| file := f; sha := "unknown" |}).

(** Lines 228-280: the comments handed to the image downloader. *)
Definition issueComments (cs : list GitHubComment) : list CommentWithImages :=
  map (fun c => IssueComment (databaseId c) (comment_body c))
      (filter (fun c => truthy (comment_body c) = true) cs).

Definition reviewBodies (prNumber : string)
    (r : option (list GitHubReview)) : list CommentWithImages :=
  match r with
  | Some nodes =>
      map (fun r => ReviewBody (rv_databaseId r) prNumber (rv_body r))
          (filter (fun r => truthy (rv_body r) = true) nodes)
  | None => []
  end.

Definition reviewComments (r : option (list GitHubReview))
    : list CommentWithImages :=
  match r with
  | Some nodes =>
      map (fun c => ReviewComment (rc_databaseId c) (rc_body c))
          (filter (fun c => truthy (rc_body c) = true)
             (flat_map (fun r => default [] (rv_comments r)) nodes))
  | None => []
  end.

Definition mainBody (isPR : bool) (prNumber : string) (c : ContextData)
    : list CommentWithImages :=
  if truthy (context_body c) then
    [if isPR then PullRequestBody prNumber (context_body c)
     else IssueBody prNumber (context_body c)]
  else [].

Definition initial : Locals :=
  {| l_contextData := None; l_comments := []; l_changedFiles := [];
     l_reviewData := None |}.

(** Lines 195-303: hashes, the comment set, the images, the result. *)
Definition assemble (owner repo prNumber : string) (isPR : bool)
    (triggerUsername : option string) : M Locals FetchDataResult :=
  let* l := get_locals in
  let* changedFilesWithSHA :=
    if isPR && (0 <? length (l_changedFiles l))%nat then
      map_each (l_changedFiles l) with_sha
    else ret [] in
  match l_contextData l with
  | None => throw (JsError "TypeError: null is not an object")
  | Some contextData =>
      let allComments :=
        (mainBody isPR prNumber contextData
         ++ issueComments (l_comments l)
         ++ reviewBodies prNumber (l_reviewData l)
         ++ reviewComments (l_reviewData l))%list in
      let* imageUrlMap :=
        downloadCommentImages w owner repo allComments in
      let* triggerDisplayName :=
        if truthy_opt triggerUsername then
          fetchUserDisplayName (default "" triggerUsername)
        else ret Undefined in
      ret {| contextData := contextData;
             comments := l_comments l;
             changedFiles := l_changedFiles l;
             changedFilesWithSHA := changedFilesWithSHA;
             reviewData := l_reviewData l;
             imageUrlMap := imageUrlMap;
             triggerDisplayName := triggerDisplayName |}
  end.

Definition body (repository prNumber : string) (isPR : bool)
    (triggerUsername : option string) : M Locals FetchDataResult :=
  let parts := split "/" repository in
  match parts !! 0%nat, parts !! 1%nat with
  | Some owner, Some repo =>
      if negb (truthy owner) || negb (truthy repo) then
        throw (JsError "Invalid repository format. Expected 'owner/repo'.")
      else
        fetch_entity owner repo prNumber isPR ;;;
        assemble owner repo prNumber isPR triggerUsername
  | _, _ =>
      throw (JsError "Invalid repository format. Expected 'owner/repo'.")
  end.

Definition fetchGitHubData {L} (repository prNumber : string) (isPR : bool)
    (triggerUsername : option string) : M L FetchDataResult :=
  call initial (body repository prNumber isPR triggerUsername).

End Fetch.

End Fetcher.

(** ** The branch link of the comment: [createBranchLink] *)

Module Links.

Definition createBranchLink (w : World) (owner repo branchName : string)
    : string :=
  let branchUrl :=
    getServerUrl w ++ "/" ++ owner ++ "/" ++ repo ++ "/tree/" ++ branchName in
  LF ++ "[View branch](" ++ branchUrl ++ ")".

End Links.

(** ** [src/github/validation/actor.ts]: [checkHumanActor] *)

Module Actor.

Section Check.
(** [userData.type] of the answer to [users.getByUsername]: GitHub sends
    [User], [Bot] or [Organization], Gitea sends no such field. *)
Variable users_type : trace -> string -> outcome (option string).

Definition checkHumanActor {L} (actor : string) : M L unit :=
  let* actorType :=
    request (EUsersGetByUsername actor) (fun t => users_type t actor) in
  match actorType with
  | Some type_ =>
      if negb (String.eqb type_ "User") then
        throw (JsError ("Workflow initiated by non-human actor: " ++ actor
                        ++ " (type: " ++ type_ ++ ")."))
      else ret tt
  | None => ret tt
  end.

End Check.

End Actor.

(** ** [src/github/validation/permissions.ts]: [checkWritePermissions] *)

Module Permissions.

(** The two requests of the check. *)
Inductive call : Type :=
| GetCollaboratorPermissionLevel (owner repo username : string)
| CheckCollaborator (owner repo username : string).

(** The answers of the platform, given the calls made before. *)
Record Access : Type := {
  getCollaboratorPermissionLevel :
    list call -> string -> string -> string -> outcome string;
  checkCollaborator :
    list call -> string -> string -> string -> outcome unit
}.

(** The calls are few enough to thread the history by hand; it is kept
    newest first, as a [trace] is. *)
Definition checkWritePermissions (a : Access) (owner repo actor : string)
    (t : list call) : list call * outcome bool :=
  let t1 := GetCollaboratorPermissionLevel owner repo actor :: t in
  match getCollaboratorPermissionLevel a t owner repo actor with
  | Ret permissionLevel =>
      if String.eqb permissionLevel "admin"
         || String.eqb permissionLevel "write"
      then (t1, Ret true)
      else (t1, Ret false)
  | Throw error =>
      let t2 := CheckCollaborator owner repo actor :: t1 in
      match checkCollaborator a t1 owner repo actor with
      | Ret _ => (t2, Ret true)
      | Throw collaboratorError => (t2, Ret true)
      end
  end.

End Permissions.

(** ** Vocabulary of the properties *)

(** Relations between the states of a computation. *)
Module Rel.

(** [m] moves every state to one related to it by [R]. *)
Definition preserves {L A} (R : relation (trace * L)) (m : M L A) : Prop :=
  forall t l, R (t, l) (m t l).1.

(** The history only grows, and by events that satisfy [P]. *)
Definition grows_by {L} (P : event -> Prop) : relation (trace * L) :=
  fun s s' => exists new, s'.1 = (new ++ s.1)%list /\ Forall P new.

Definition any_event (e : event) : Prop := True.

(** Entries of the map stay as they are. *)
Definition keeps : relation (trace * gmap string string) :=
  fun s s' => s.2 ⊆ s'.2.

(** The requests by which images are downloaded. *)
Definition is_download (e : event) : Prop :=
  match e with
  | EDateNow | EFetch _ | EFsWriteFile _ _ => True
  | _ => False
  end.

End Rel.

Module BranchSpec.

(** The text of the link to branch [b]. *)
Definition link_of (w : World) (owner repo b : string) : string :=
  LF ++ "[View branch]("
  ++ (getServerUrl w ++ "/" ++ owner ++ "/" ++ repo ++ "/tree/" ++ b) ++ ")".

End BranchSpec.

(** Unfold the combinators of [Eff]. *)
Ltac unfold_eff :=
  unfold promise_all2, try_catch, attempt, bind, request, ret, throw,
    get_locals, modify_locals.

Module Spec.
Import ImageDownloader Downloader.

(** Does code unit [c] occur in [s]? *)
Fixpoint occurs (c : ascii) (s : string) : bool :=
  match s with
  | String x s' => Ascii.eqb x c || occurs c s'
  | EmptyString => false
  end.

(** [segment] is the text after the last slash of [url], or all of [url]
    when it has no slash.  The URL is taken as a string: a query and a
    fragment belong to that text, and a slash inside them counts. *)
Definition after_last_slash (url segment : string) : Prop :=
  occurs "/" segment = false
  /\ (url = segment \/ exists front, url = front ++ "/" ++ segment).

(** The local path of the image downloaded at time [now] for the pair
    at index [i], with extension [ext]. *)
Definition local_path (now : N) (i : nat) (ext : string) : string :=
  path_join downloadsDir
    ("image-" ++ show_N now ++ "-" ++ show_N (N.of_nat i) ++ ext).

(** Is every code unit of [s] a decimal digit? *)
Fixpoint all_digits (s : string) : bool :=
  match s with
  | String c s' =>
      match Ascii.is_nat c with Some _ => all_digits s' | None => false end
  | EmptyString => true
  end.

Section Render.
Variable w : World.
Variables owner repo : string.

(** The request by which the HTML of a comment is fetched. *)
Definition render_request (c : CommentWithImages) : event :=
  match c with
  | IssueComment id _ => EIssuesGetCommentHtml owner repo (parseInt id)
  | ReviewComment id _ =>
      EPullsGetReviewCommentHtml owner repo (parseInt id)
  | ReviewBody id pullNumber _ =>
      EPullsGetReviewHtml owner repo (parseInt pullNumber) (parseInt id)
  | IssueBody issueNumber _ =>
      EIssuesGetHtml owner repo (parseInt issueNumber)
  | PullRequestBody pullNumber _ =>
      EPullsGetHtml owner repo (parseInt pullNumber)
  end.

(** The HTML-rendering requests. *)
Definition is_render (e : event) : bool :=
  match e with
  | EIssuesGetCommentHtml _ _ _ | EPullsGetReviewCommentHtml _ _ _
  | EPullsGetReviewHtml _ _ _ _ | EIssuesGetHtml _ _ _
  | EPullsGetHtml _ _ _ => true
  | _ => false
  end.

(** A rendering request is accounted for when it is the request of a
    comment of the set that has at least one match. *)
Definition accounted (comments : list CommentWithImages) (e : event)
    : Prop :=
  is_render e = true ->
  exists c, c ∈ comments /\ image_urls w (body c) <> []
            /\ e = render_request c.

(** Comment [c] always renders, as [html]. *)
Definition renders (c : CommentWithImages) (html : string) : Prop :=
  forall t m, (fetch_body_html w owner repo c t m).2 = Ret (Some html).

(** Every image can be fetched and written. *)
Definition downloads_succeed : Prop :=
  (forall t url, exists r data,
      fetch w t url = Ret r /\ Payload.ok r = true
      /\ Payload.arrayBuffer r = Ret data)
  /\ (forall t path data, fs_writeFile w t path data = Ret tt).

(** The state in which the outer loop leaves history and map. *)
Definition after_loop (comments : list CommentWithImages) (t : trace)
    (m : gmap string string) : trace * gmap string string :=
  (for_each (commentsWithImages w comments) (process_comment w owner repo)
     (EFsMkdir downloadsDir :: t) m).1.

(** The HTML that comes back for comment [c] when it is rendered in
    state [s]; empty when the request fails or the answer holds none. *)
Definition html_at (c : CommentWithImages)
    (s : trace * gmap string string) : string :=
  match (fetch_body_html w owner repo c s.1 s.2).2 with
  | Ret (Some html) => html
  | _ => ""
  end.

(** The comments of a run, each with the HTML that came back for it in
    that run, the outer loop starting in state [s].  A comment without a
    match is not rendered and stands with the empty string. *)
Fixpoint rendered_html (comments : list CommentWithImages)
    (s : trace * gmap string string)
    : list (CommentWithImages * string) :=
  match comments with
  | [] => []
  | c :: rest =>
      if (0 <? length (image_urls w (body c)))%nat then
        (c, html_at c s)
        :: rendered_html rest
             (process_comment w owner repo (c, image_urls w (body c))
                s.1 s.2).1
      else (c, "") :: rendered_html rest s
  end.

(** The pairs of a comment: its matches against the signed URLs of the
    HTML it came back with, by position, up to the shorter list. *)
Definition pairs (entry : CommentWithImages * string) : nat :=
  Nat.min (length (image_urls w (body entry.1)))
          (length (signed_urls entry.2)).

End Render.
End Spec.

Module FetchSpec.
Import ImageDownloader Downloader Fetcher.

Section Entity.
Variable w : World.
Variables owner repo : string.
Variable number : option Z.

(** The request for the primary entity. *)
Definition entity_request (isPR : bool) : event :=
  if isPR then EPullsGet owner repo number else EIssuesGet owner repo number.

(** The primary entity fetch, made after history [t], fails. *)
Definition entity_fails (isPR : bool) (t : trace) : Prop :=
  if isPR then exists e, pulls_get w t owner repo number = Throw e
  else exists e, issues_get w t owner repo number = Throw e.

(** The primary entity fetch, made after history [t], succeeds. *)
Definition entity_succeeds (isPR : bool) (t : trace) : Prop :=
  if isPR then exists pr, pulls_get w t owner repo number = Ret pr
  else exists issue, issues_get w t owner repo number = Ret issue.

(** The history after the entity request, and after the comments
    request that follows it. *)
Definition after_entity (isPR : bool) (t : trace) : trace :=
  entity_request isPR :: t.
Definition after_comments (isPR : bool) (t : trace) : trace :=
  EIssuesListComments owner repo number :: after_entity isPR t.

(** The comments fetch, made after history [t], fails. *)
Definition comments_fail (t : trace) : Prop :=
  exists e, issues_listComments w t owner repo number = Throw e.

(** The changed-files fetch of a pull request, made after history [t],
    fails. *)
Definition files_fail (isPR : bool) (t : trace) : Prop :=
  isPR = true /\ exists e, pulls_listFiles w t owner repo number = Throw e.

End Entity.

(** The hash requests for a list of changed files, newest first: one
    for each file that is not deleted. *)
Fixpoint hash_requests (fs : list GitHubFile) : list event :=
  match fs with
  | [] => []
  | f :: rest =>
      (hash_requests rest
       ++ (if String.eqb (changeType f) "DELETED" then []
           else [EGitHashObject (path f)]))%list
  end.

(** The lookup of the trigger user, when one is given, and the display
    name it leaves in the result when made after history [t]. *)
Definition user_lookup (triggerUsername : option string) : list event :=
  if truthy_opt triggerUsername
  then [EUsersGetByUsername (default "" triggerUsername)] else [].

Definition display_name (w : World) (triggerUsername : option string)
    (t : trace) : nullable :=
  if truthy_opt triggerUsername then
    match users_getByUsername w t (default "" triggerUsername) with
    | Ret name => name
    | Throw _ => Null
    end
  else Undefined.

(** What a fetch that starts after history [t] has in hand once the
    entity has been fetched. *)
Section Pipeline.
Variable w : World.
Variable toUpperCase : string -> string.
Variable toStringBeyond : Z -> string.
Variables owner repo prNumber : string.
Variable isPR : bool.
Variable t : trace.

(** The comments and the changed files, empty where the sub-fetch
    fails, and the history after the sub-fetches. *)
Definition listed_comments : list GitHubComment :=
  match issues_listComments w
          (after_entity owner repo (parseInt prNumber) isPR t)
          owner repo (parseInt prNumber) with
  | Ret cs => map (to_comment toStringBeyond) cs
  | Throw _ => []
  end.

Definition listed_files : list GitHubFile :=
  if isPR then
    match pulls_listFiles w
            (after_comments owner repo (parseInt prNumber) isPR t)
            owner repo (parseInt prNumber) with
    | Ret fs => map (to_file toUpperCase) fs
    | Throw _ => []
    end
  else [].

Definition after_fetches : trace :=
  ((if isPR then [EPullsListFiles owner repo (parseInt prNumber)] else [])
   ++ after_comments owner repo (parseInt prNumber) isPR t)%list.

(** The history when attachment resolution is entered: the files have
    been hashed. *)
Definition before_resolution : trace :=
  (hash_requests listed_files ++ after_fetches)%list.

(** The body of the entity, as the payload has it. *)
Definition entity_body : string :=
  if isPR then
    match pulls_get w t owner repo (parseInt prNumber) with
    | Ret pr => or_default (Payload.pr_body pr) ""
    | Throw _ => ""
    end
  else
    match issues_get w t owner repo (parseInt prNumber) with
    | Ret issue => or_default (Payload.is_body issue) ""
    | Throw _ => ""
    end.

(** The comments handed to attachment resolution: the body of the
    entity when it is not empty, then the listed comments whose body is
    not empty, in the order of the listing. *)
Definition entity_comment : list CommentWithImages :=
  if truthy entity_body then
    [if isPR then PullRequestBody prNumber entity_body
     else IssueBody prNumber entity_body]
  else [].

Definition comment_set : list CommentWithImages :=
  (entity_comment
   ++ map (fun c => IssueComment (databaseId c) (comment_body c))
          (filter (fun c => comment_body c <> "") listed_comments))%list.

End Pipeline.
End FetchSpec.

(** ** Worlds and inputs for concrete runs *)

Module Scenario.
Import ImageDownloader Downloader Fetcher.

Definition not_found : exn := HttpError 404 "Not Found".

(** A world put together from the answers that vary between scenarios:
    the Gitea endpoint, the branch heads by name, the output of
    [git status], the rendered HTML, the clock, and the four fetches of
    the data fetcher.  Git writes, the file system and image downloads
    succeed; no user has a display name. *)
Definition scripted (gitea : option string)
    (head : trace -> string -> outcome Payload.Branch)
    (status : outcome string)
    (html : trace -> outcome (option string))
    (now : trace -> N)
    (pull : outcome Payload.Pull) (issue : outcome Payload.Issue)
    (comments_ : outcome (list Payload.Comment))
    (files : outcome (list Payload.File)) : World :=
  {| GITEA_API_URL := gitea;
     GITEA_SERVER_URL := None;
     GITHUB_SERVER_URL := None;
     GITHUB_RUN_NUMBER := Some "42";
     GITHUB_TOKEN := Some "secret";
     repos_getBranch := fun t _ _ branch => head t branch;
     git_status := fun _ => status;
     git_add := fun _ => Ret tt;
     git_commit := fun _ _ => Ret tt;
     git_push := fun _ _ => Ret tt;
     fetch_delete := fun _ _ _ =>
       Ret {| Payload.ok := true; Payload.status := 204;
              Payload.statusText := "No Content";
              Payload.arrayBuffer := Ret "" |};
     git_deleteRef := fun _ _ _ _ => Ret tt;
     fs_mkdir := fun _ _ => Ret tt;
     issues_getComment_html := fun t _ _ _ => html t;
     pulls_getReviewComment_html := fun t _ _ _ => html t;
     pulls_getReview_html := fun t _ _ _ _ => html t;
     issues_get_html := fun t _ _ _ => html t;
     pulls_get_html := fun t _ _ _ => html t;
     date_now := now;
     fetch := fun _ _ =>
       Ret {| Payload.ok := true; Payload.status := 200;
              Payload.statusText := "OK";
              Payload.arrayBuffer := Ret "PNG" |};
     fs_writeFile := fun _ _ _ => Ret tt;
     pulls_get := fun _ _ _ _ => pull;
     issues_get := fun _ _ _ _ => issue;
     issues_listComments := fun _ _ _ _ => comments_;
     pulls_listFiles := fun _ _ _ _ => files;
     git_hash_object := fun _ _ => Ret ("3b18e512" ++ LF);
     users_getByUsername := fun _ _ => Ret Null |}.

Definition same_head : trace -> string -> outcome Payload.Branch :=
  fun _ _ => Ret {| Payload.commit_sha := "0a1b2c" |}.

(** The base branch cannot be read once the working branch has been. *)
Definition base_unreadable : trace -> string -> outcome Payload.Branch :=
  fun t branch =>
    if String.eqb branch "main" then Throw (HttpError 500 "Server Error")
    else Ret {| Payload.commit_sha := "0a1b2c" |}.

Definition one_signed_image : string :=
  "<img src=" ++ String DQUOTE
    ("https://private-user-images.githubusercontent.com/7/shot.png?jwt=TOKEN"
     ++ String DQUOTE ">").

Definition no_html : trace -> outcome (option string) :=
  fun _ => Throw not_found.

Definition a_pull : Payload.Pull :=
  {| Payload.pr_title := "Fix"; Payload.pr_body := Some "body";
     Payload.pr_user_login := Some "dev";
     Payload.pr_base_ref := "main"; Payload.pr_head_ref := "fix";
     Payload.pr_head_sha := "0a1b2c";
     Payload.pr_created_at := "2024-01-01T00:00:00Z";
     Payload.pr_additions := Some 1%Z; Payload.pr_deletions := None;
     Payload.pr_state := "open" |}.

Definition a_file : Payload.File :=
  {| Payload.fl_filename := "src/a.ts"; Payload.fl_additions := Some 1%Z;
     Payload.fl_deletions := None; Payload.fl_status := Some "modified" |}.

(** Upper case of the letters a-z, enough for the platform's state and
    status words. *)
Definition upper (c : ascii) : ascii :=
  let n := nat_of_ascii c in
  if (97 <=? n)%nat && (n <=? 122)%nat then ascii_of_nat (n - 32) else c.

Fixpoint upper_str (s : string) : string :=
  match s with
  | String c s' => String (upper c) (upper_str s')
  | EmptyString => EmptyString
  end.

(** No identifier of the scenarios lies beyond the safe integers; this
    stands for the printing of those that do. *)
Definition exponent_form : Z -> string := fun _ => "1e+21".

(** GitHub, a clean working tree, both heads equal. *)
Definition clean_github : World :=
  scripted None same_head (Ret LF) no_html (fun _ => 0%N)
    (Throw not_found) (Throw not_found) (Throw not_found) (Throw not_found).

(** GitHub, the base branch unreadable. *)
Definition flaky_github : World :=
  scripted None base_unreadable (Ret "") no_html (fun _ => 0%N)
    (Throw not_found) (Throw not_found) (Throw not_found) (Throw not_found).

(** GitHub, every comment rendering to one signed image, and a clock
    that stands still. *)
Definition frozen_clock : World :=
  scripted None same_head (Ret "") (fun _ => Ret (Some one_signed_image))
    (fun _ => 1700000000000%N)
    (Throw not_found) (Throw not_found) (Throw not_found) (Throw not_found).

(** GitHub, where the signed URL of every rendering carries a token of
    its own, so that no comment renders to the same HTML twice. *)
Definition fresh_token (t : trace) : string :=
  "<img src=" ++ String DQUOTE
    ("https://private-user-images.githubusercontent.com/7/shot.png?jwt=T"
     ++ show_N (N.of_nat (length t)) ++ String DQUOTE ">").

Definition fresh_tokens : World :=
  scripted None same_head (Ret "") (fun t => Ret (Some (fresh_token t)))
    (fun _ => 1700000000000%N)
    (Throw not_found) (Throw not_found) (Throw not_found) (Throw not_found).

(** The frozen clock set going: it advances with every request. *)
Definition ticking_clock : World :=
  scripted None same_head (Ret "") (fun _ => Ret (Some one_signed_image))
    (fun t => (1700000000000 + N.of_nat (length t))%N)
    (Throw not_found) (Throw not_found) (Throw not_found) (Throw not_found).

(** The same pull request with an image in its body. *)
Definition pictured_pull : Payload.Pull :=
  {| Payload.pr_title := "Fix";
     Payload.pr_body :=
       Some "see ![shot](https://github.com/user-attachments/assets/shot.png?v=1)";
     Payload.pr_user_login := Some "dev";
     Payload.pr_base_ref := "main"; Payload.pr_head_ref := "fix";
     Payload.pr_head_sha := "0a1b2c";
     Payload.pr_created_at := "2024-01-01T00:00:00Z";
     Payload.pr_additions := Some 1%Z; Payload.pr_deletions := None;
     Payload.pr_state := "open" |}.

(** That pull request on a platform that renders to one signed image
    and cannot list comments. *)
Definition pictured_comments_down : World :=
  scripted None same_head (Ret "") (fun _ => Ret (Some one_signed_image))
    (fun _ => 1700000000000%N)
    (Ret pictured_pull) (Throw not_found)
    (Throw (HttpError 502 "Bad Gateway")) (Ret [a_file]).

Definition first_comment : CommentWithImages :=
  IssueComment "101"
    "see ![shot](https://github.com/user-attachments/assets/shot.png?v=1)".

Definition second_comment : CommentWithImages :=
  IssueComment "102"
    "and ![shot](https://github.com/user-attachments/assets/shot.png?v=2)".

Definition plain_comment : CommentWithImages :=
  IssueComment "103" "no image here".

Definition first_url : string :=
  "https://github.com/user-attachments/assets/shot.png?v=1".
Definition second_url : string :=
  "https://github.com/user-attachments/assets/shot.png?v=2".

(** A matched URL with a query behind its extension, and a signed URL. *)
Definition queried_url : string :=
  "https://github.com/user-attachments/assets/photo.jpg?v=1".
Definition signed_url : string :=
  "https://private-user-images.githubusercontent.com/7/shot.png?jwt=TOKEN".

(** A matched URL that ends in a slash. *)
Definition directory_comment : CommentWithImages :=
  IssueComment "104"
    "![dir](https://github.com/user-attachments/assets/shots/)".
Definition directory_url : string :=
  "https://github.com/user-attachments/assets/shots/".

End Scenario.

Module Scenario2.
Import ImageDownloader Downloader Fetcher.

(** No branch can be read. *)
Definition no_branches : World :=
  Scenario.scripted None (fun _ _ => Throw Scenario.not_found) (Ret "")
    Scenario.no_html (fun _ => 0%N) (Throw Scenario.not_found)
    (Throw Scenario.not_found) (Throw Scenario.not_found)
    (Throw Scenario.not_found).

(** The head of [main] differs from the head of every other branch. *)
Definition diverged_head : trace -> string -> outcome Payload.Branch :=
  fun _ branch =>
    if String.eqb branch "main" then Ret {| Payload.commit_sha := "0a1b2c" |}
    else Ret {| Payload.commit_sha := "9f8e7d" |}.

Definition diverged : World :=
  Scenario.scripted None diverged_head (Ret "") Scenario.no_html
    (fun _ => 0%N) (Throw Scenario.not_found) (Throw Scenario.not_found)
    (Throw Scenario.not_found) (Throw Scenario.not_found).

(** Gitea, both heads equal. *)
Definition gitea : World :=
  Scenario.scripted (Some "https://git.example/api/v1") Scenario.same_head
    (Ret "") Scenario.no_html (fun _ => 0%N) (Throw Scenario.not_found)
    (Throw Scenario.not_found) (Throw Scenario.not_found)
    (Throw Scenario.not_found).

(** GitHub, both heads equal, one modified file in the working tree. *)
Definition dirty_github : World :=
  Scenario.scripted None Scenario.same_head (Ret (" M a.ts" ++ LF))
    Scenario.no_html (fun _ => 0%N) (Throw Scenario.not_found)
    (Throw Scenario.not_found) (Throw Scenario.not_found)
    (Throw Scenario.not_found).

(** A world in which every image fetch is refused. *)
Definition refusing : World :=
  {| GITEA_API_URL := None;
     GITEA_SERVER_URL := None;
     GITHUB_SERVER_URL := None;
     GITHUB_RUN_NUMBER := None;
     GITHUB_TOKEN := None;
     repos_getBranch := repos_getBranch Scenario.frozen_clock;
     git_status := git_status Scenario.frozen_clock;
     git_add := git_add Scenario.frozen_clock;
     git_commit := git_commit Scenario.frozen_clock;
     git_push := git_push Scenario.frozen_clock;
     fetch_delete := fetch_delete Scenario.frozen_clock;
     git_deleteRef := git_deleteRef Scenario.frozen_clock;
     fs_mkdir := fs_mkdir Scenario.frozen_clock;
     issues_getComment_html := issues_getComment_html Scenario.frozen_clock;
     pulls_getReviewComment_html :=
       pulls_getReviewComment_html Scenario.frozen_clock;
     pulls_getReview_html := pulls_getReview_html Scenario.frozen_clock;
     issues_get_html := issues_get_html Scenario.frozen_clock;
     pulls_get_html := pulls_get_html Scenario.frozen_clock;
     date_now := date_now Scenario.frozen_clock;
     fetch := fun _ _ =>
       Ret {| Payload.ok := false; Payload.status := 403;
              Payload.statusText := "Forbidden";
              Payload.arrayBuffer := Ret "" |};
     fs_writeFile := fs_writeFile Scenario.frozen_clock;
     pulls_get := pulls_get Scenario.frozen_clock;
     issues_get := issues_get Scenario.frozen_clock;
     issues_listComments := issues_listComments Scenario.frozen_clock;
     pulls_listFiles := pulls_listFiles Scenario.frozen_clock;
     git_hash_object := git_hash_object Scenario.frozen_clock;
     users_getByUsername := users_getByUsername Scenario.frozen_clock |}.

Definition a_comment : Payload.Comment :=
  {| Payload.cm_id := 101;
     Payload.cm_body :=
       Some "see ![shot](https://github.com/user-attachments/assets/shot.png?v=1)";
     Payload.cm_user_login := Some "dev";
     Payload.cm_created_at := "2024-01-02T00:00:00Z" |}.

Definition a_removed_file : Payload.File :=
  {| Payload.fl_filename := "src/old.ts"; Payload.fl_additions := None;
     Payload.fl_deletions := Some 9%Z; Payload.fl_status := Some "deleted" |}.

(** A pull request with one comment that holds an image, one changed
    file and one removed file. *)
Definition reviewed_pull : World :=
  Scenario.scripted None Scenario.same_head (Ret "")
    (fun _ => Ret (Some Scenario.one_signed_image))
    (fun _ => 1700000000000%N)
    (Ret Scenario.a_pull) (Throw Scenario.not_found) (Ret [a_comment])
    (Ret [Scenario.a_file; a_removed_file]).

(** The same on a platform whose user payload has no [name] field. *)
Definition nameless_users : World :=
  {| GITEA_API_URL := GITEA_API_URL reviewed_pull;
     GITEA_SERVER_URL := GITEA_SERVER_URL reviewed_pull;
     GITHUB_SERVER_URL := GITHUB_SERVER_URL reviewed_pull;
     GITHUB_RUN_NUMBER := GITHUB_RUN_NUMBER reviewed_pull;
     GITHUB_TOKEN := GITHUB_TOKEN reviewed_pull;
     repos_getBranch := repos_getBranch reviewed_pull;
     git_status := git_status reviewed_pull;
     git_add := git_add reviewed_pull;
     git_commit := git_commit reviewed_pull;
     git_push := git_push reviewed_pull;
     fetch_delete := fetch_delete reviewed_pull;
     git_deleteRef := git_deleteRef reviewed_pull;
     fs_mkdir := fs_mkdir reviewed_pull;
     issues_getComment_html := issues_getComment_html reviewed_pull;
     pulls_getReviewComment_html := pulls_getReviewComment_html reviewed_pull;
     pulls_getReview_html := pulls_getReview_html reviewed_pull;
     issues_get_html := issues_get_html reviewed_pull;
     pulls_get_html := pulls_get_html reviewed_pull;
     date_now := date_now reviewed_pull;
     fetch := fetch reviewed_pull;
     fs_writeFile := fs_writeFile reviewed_pull;
     pulls_get := pulls_get reviewed_pull;
     issues_get := issues_get reviewed_pull;
     issues_listComments := issues_listComments reviewed_pull;
     pulls_listFiles := pulls_listFiles reviewed_pull;
     git_hash_object := git_hash_object reviewed_pull;
     users_getByUsername := fun _ _ => Ret Undefined |}.

(** Two platforms without the permission endpoint: on the first every
    user is a collaborator, on the second nobody is. *)
Definition no_permission_endpoint : Permissions.Access :=
  {| Permissions.getCollaboratorPermissionLevel :=
       fun _ _ _ _ => Throw Scenario.not_found;
     Permissions.checkCollaborator := fun _ _ _ _ => Ret tt |}.

Definition nobody_collaborates : Permissions.Access :=
  {| Permissions.getCollaboratorPermissionLevel :=
       fun _ _ _ _ => Throw Scenario.not_found;
     Permissions.checkCollaborator :=
       fun _ _ _ _ => Throw Scenario.not_found |}.

End Scenario2.

(** ** Vocabulary of the further properties *)

Module BranchVocab.
Import BranchReconciler.

Definition is_deletion (e : event) : bool :=
  match e with
  | EFetchDelete _ _ | EGitDeleteRef _ _ _ => true
  | _ => false
  end.

Definition is_git (e : event) : Prop :=
  match e with
  | EGitStatus | EGitAdd | EGitCommit _ | EGitPush _ => True
  | _ => False
  end.

(** The deletion request for branch [b], by dialect. *)
Definition deletion_request (w : World) (owner repo b : string) : event :=
  if isGiteaInstance w then
    EFetchDelete
      (show_env (GITEA_API_URL w) ++ "/repos/" ++ owner ++ "/" ++ repo
       ++ "/branches/" ++ Uri.encodeURIComponent b)
      ("token " ++ show_env (GITHUB_TOKEN w))
  else EGitDeleteRef owner repo ("heads/" ++ b).

(** The history once the branch has been found and both heads read. *)
Definition heads_read (owner repo b baseBranch : string) (t : trace)
    : trace :=
  EReposGetBranch owner repo b :: EReposGetBranch owner repo baseBranch
  :: EReposGetBranch owner repo b :: t.

(** The message of the automatic commit. *)
Definition commit_message (w : World) : string :=
  "Auto-commit: Save uncommitted changes from Claude" ++ LF ++ LF
  ++ "Run ID: " ++ or_default (GITHUB_RUN_NUMBER w) "unknown".

Definition marked : Disposition :=
  {| shouldDeleteBranch := true; branchLink := "" |}.

Definition linked (w : World) (owner repo b : string) : Disposition :=
  {| shouldDeleteBranch := false;
     branchLink := Links.createBranchLink w owner repo b |}.

(** What the code has seen when it marks branch [b] for deletion: both
    heads read and equal, and either signing is on (and git is not
    consulted) or [git status] has answered with nothing but white
    space. *)
Definition evidence (w : World) (owner repo b baseBranch : string)
    (useCommitSigning : bool) (t : trace) (gits : list event) : Prop :=
  exists base claude,
    repos_getBranch w t owner repo baseBranch = Ret base
    /\ repos_getBranch w (EReposGetBranch owner repo baseBranch :: t)
         owner repo b = Ret claude
    /\ Payload.commit_sha base = Payload.commit_sha claude
    /\ ((useCommitSigning = true /\ gits = [])
        \/ (useCommitSigning = false /\ gits = [EGitStatus]
            /\ exists porcelain,
                git_status w
                  (EReposGetBranch owner repo b
                   :: EReposGetBranch owner repo baseBranch :: t)
                = Ret porcelain
                /\ trim porcelain = "")).

End BranchVocab.

Module ResolverVocab.
Import ImageDownloader Downloader Spec Rel.

Definition is_fetch (e : event) : bool :=
  match e with EFetch _ => true | _ => false end.

(** Does [f] hold of every code unit of [s]? *)
Fixpoint string_forall (f : ascii -> bool) (s : string) : bool :=
  match s with
  | String c s' => f c && string_forall f s'
  | EmptyString => true
  end.

(** A fetch goes to the host of the signed URLs. *)
Definition fetches_signed_host (e : event) : Prop :=
  match e with
  | EFetch url => exists rest, url = SIGNED_HOST ++ rest
  | _ => True
  end.

Section Entries.
Variable w : World.
Variables owner repo : string.

(** In history [t] the file [path] was written, successfully, with the
    bytes of a successful fetch made just before. *)
Definition written (t : trace) (path : string) : Prop :=
  exists later before signedUrl response data,
    t = (later ++ EFsWriteFile path data :: EFetch signedUrl :: before)%list
    /\ fetch w before signedUrl = Ret response
    /\ Payload.ok response = true
    /\ Payload.arrayBuffer response = Ret data
    /\ fs_writeFile w (EFetch signedUrl :: before) path data = Ret tt.

(** An entry of the map: the key is a URL matched in a comment of the
    set, the value is a file of the scratch directory named by a clock
    reading, an index and an image extension, and that file has been
    written. *)
Definition entry_ok (comments : list CommentWithImages) (t : trace)
    (url path : string) : Prop :=
  (exists c, c ∈ comments /\ url ∈ image_urls w (body c))
  /\ (exists now i ext,
        path = local_path now i ext /\ is_image_extension ext = true)
  /\ written t path.

Definition entries_ok (comments : list CommentWithImages)
    (s : trace * gmap string string) : Prop :=
  forall url path, s.2 !! url = Some path -> entry_ok comments s.1 url path.

(** The history grows and the entries stay in order. *)
Definition keeps_entries (comments : list CommentWithImages)
    : relation (trace * gmap string string) :=
  fun s s' =>
    (exists new, s'.1 = (new ++ s.1)%list)
    /\ (entries_ok comments s -> entries_ok comments s').

(** The rendering requests of a run, newest first: one per comment
    with a match. *)
Definition render_requests (comments : list CommentWithImages)
    : list event :=
  rev (map (fun entry => render_request owner repo entry.1)
           (commentsWithImages w comments)).

(** The requests attachment resolution may send for a set of comments:
    the scratch directory, the rendering request of a comment of the
    set, and what downloads an image. *)
Definition resolver_request (comments : list CommentWithImages)
    (e : event) : Prop :=
  e = EFsMkdir downloadsDir
  \/ (exists c, c ∈ comments /\ e = render_request owner repo c)
  \/ is_download e.

(** No comment ever comes back with HTML. *)
Definition never_renders : Prop :=
  forall c t m,
    match (fetch_body_html w owner repo c t m).2 with
    | Ret (Some html) => truthy html = false
    | _ => True
    end.

End Entries.
End ResolverVocab.

Module FetchVocab.
Import ImageDownloader Downloader Fetcher Spec Rel FetchSpec.

(** A repository name from which [split] yields no non-empty owner
    followed by a non-empty name: no slash, or nothing before the first
    slash, or nothing between it and the next slash or the end. *)
Definition malformed (repository : string) : Prop :=
  occurs "/" repository = false
  \/ exists owner rest,
       repository = owner ++ "/" ++ rest /\ occurs "/" owner = false
       /\ (owner = "" \/ rest = "" \/ exists rest', rest = "/" ++ rest').

Definition invalid_repository : exn :=
  JsError "Invalid repository format. Expected 'owner/repo'.".

Section Fetch.
Variable w : World.
Variable toUpperCase : string -> string.
Variables owner repo : string.
Variable number : option Z.

(** The hash recorded for a changed file: [deleted] for a deleted
    file, otherwise [unknown] or the trimmed output of a run of
    [git hash-object] on its path. *)
Definition sha_ok (x : GitHubFileWithSHA) : Prop :=
  if String.eqb (changeType (file x)) "DELETED" then sha x = "deleted"
  else sha x = "unknown"
       \/ exists t out,
            git_hash_object w t (path (file x)) = Ret out
            /\ sha x = trim out.

(** The requests of one fetch that starts after history [t].  A listed
    comment is rendered under a number that is its identifier when the
    identifier is a safe integer; beyond, nothing is said of it. *)
Definition fetch_request (isPR : bool)
    (triggerUsername : option string) (t : trace) (e : event) : Prop :=
  e = entity_request owner repo number isPR
  \/ e = EIssuesListComments owner repo number
  \/ (isPR = true /\ e = EPullsListFiles owner repo number)
  \/ (isPR = true
      /\ exists fs f,
           pulls_listFiles w (after_comments owner repo number isPR t)
             owner repo number = Ret fs
           /\ f ∈ fs
           /\ changeType (to_file toUpperCase f) <> "DELETED"
           /\ e = EGitHashObject (Payload.fl_filename f))
  \/ e = EFsMkdir downloadsDir
  \/ e = (if isPR then EPullsGetHtml owner repo number
          else EIssuesGetHtml owner repo number)
  \/ (exists cs c n,
        issues_listComments w (after_entity owner repo number isPR t)
          owner repo number = Ret cs
        /\ c ∈ cs
        /\ (safe_integer (Payload.cm_id c) = true ->
            n = Some (Payload.cm_id c))
        /\ e = EIssuesGetCommentHtml owner repo n)
  \/ is_download e
  \/ (truthy_opt triggerUsername = true
      /\ e = EUsersGetByUsername (default "" triggerUsername)).

End Fetch.
End FetchVocab.

Module UriVocab.

(** The code units [encodeURIComponent] lets through, and the percent
    sign of its escapes. *)
Definition plain (c : ascii) : bool := Uri.unreserved c || Ascii.eqb c "%".

End UriVocab.

(** * Concrete runs *)

Module Examples.
Import ImageDownloader Downloader.

Example trim_porcelain_blank : trim (String "010" " ") = "".
Proof. reflexivity. Qed.
Example trim_porcelain_dirty :
  trim (" M a.ts" ++ String "010" "") = "M a.ts".
Proof. reflexivity. Qed.
Example split_url :
  split "/" "https://h/a/b.png" = ["https:"; ""; "h"; "a"; "b.png"].
Proof. reflexivity. Qed.
Example split_trailing : split "/" "a/" = ["a"; ""].
Proof. reflexivity. Qed.
Example parseInt_12 : parseInt " 12ab" = Some 12%Z.
Proof. reflexivity. Qed.
Example parseInt_nan : parseInt "abc" = None.
Proof. reflexivity. Qed.
Example show_N_1700 : show_N 1700 = "1700".
Proof. reflexivity. Qed.
Example number_toString_safe :
  number_toString Scenario.exponent_form 9007199254740991
  = "9007199254740991".
Proof. reflexivity. Qed.
Example number_toString_beyond :
  parseInt (number_toString Scenario.exponent_form (10 ^ 21)) = Some 1%Z.
Proof. reflexivity. Qed.
Example encode_branch :
  Uri.encodeURIComponent "claude/issue-1 x" = "claude%2Fissue-1%20x".
Proof. reflexivity. Qed.

Example image_urls_two :
  image_urls Scenario.clean_github
    "a ![x](https://github.com/user-attachments/assets/1.png) b ![](https://github.com/user-attachments/assets/2) ![n](https://example.com/3.png)"
  = ["https://github.com/user-attachments/assets/1.png";
     "https://github.com/user-attachments/assets/2"].
Proof. reflexivity. Qed.

Example image_urls_none :
  image_urls Scenario.clean_github "no image ![x](y)" = [].
Proof. reflexivity. Qed.

Example image_urls_gitea :
  image_urls
    (Scenario.scripted (Some "https://git.example/api/v1")
       Scenario.same_head (Ret "") Scenario.no_html (fun _ => 0%N)
       (Throw Scenario.not_found) (Throw Scenario.not_found)
       (Throw Scenario.not_found) (Throw Scenario.not_found))
    "![a![b](https://github.com/attachments/9f) ![c](https://github.com/user-attachments/assets/1)"
  = ["https://github.com/attachments/9f"].
Proof. reflexivity. Qed.

Example signed_urls_needs_a_path :
  signed_urls "https://private-user-images.githubusercontent.com/?jwt=T" = [].
Proof. reflexivity. Qed.

Example signed_urls_two :
  signed_urls
    ("<img src=" ++ String DQUOTE
       ("https://private-user-images.githubusercontent.com/1/a.png?jwt=T1"
        ++ String DQUOTE ("> <a href=" ++ String DQUOTE
       ("https://private-user-images.githubusercontent.com/2/b.png?jwt=T2"
        ++ String DQUOTE ">"))))
  = ["https://private-user-images.githubusercontent.com/1/a.png?jwt=T1";
     "https://private-user-images.githubusercontent.com/2/b.png?jwt=T2"].
Proof. reflexivity. Qed.

Example signed_urls_no_token :
  signed_urls "https://private-user-images.githubusercontent.com/1/a.png?jwt="
  = [].
Proof. reflexivity. Qed.

Example extension_upper : getImageExtension "https://h/a/B.JPEG" = Ret ".JPEG".
Proof. reflexivity. Qed.
Example extension_default : getImageExtension "https://h/a/b.txt" = Ret ".png".
Proof. reflexivity. Qed.
Example extension_bare : getImageExtension "png" = Ret ".png".
Proof. reflexivity. Qed.

(** A dirty working tree is committed, pushed and linked. *)
Example dirty_tree_is_committed :
  run (BranchReconciler.checkAndCommitOrDeleteBranch
         (Scenario.scripted None Scenario.same_head (Ret " M a.ts")
            Scenario.no_html (fun _ => 0%N) (Throw Scenario.not_found)
            (Throw Scenario.not_found) (Throw Scenario.not_found)
            (Throw Scenario.not_found))
         "o" "r" (Some "claude/issue-1") "main" false) []
  = ([EGitPush "claude/issue-1";
      EGitCommit ("Auto-commit: Save uncommitted changes from Claude"
                  ++ LF ++ LF ++ "Run ID: 42");
      EGitAdd; EGitStatus;
      EReposGetBranch "o" "r" "claude/issue-1";
      EReposGetBranch "o" "r" "main";
      EReposGetBranch "o" "r" "claude/issue-1"],
     Ret {| BranchReconciler.shouldDeleteBranch := false;
            BranchReconciler.branchLink :=
              LF ++ "[View branch](https://github.com/o/r/tree/claude/issue-1)" |}).
Proof. reflexivity. Qed.

(** With a clock that advances the two images get two files. *)
Example ticking_clock_run :
  (run (downloadCommentImages Scenario.ticking_clock "o" "r"
          [Scenario.first_comment; Scenario.second_comment]) []).1
  = [EFsWriteFile "/tmp/github-images/image-1700000000006-0.png" "PNG";
     EFetch "https://private-user-images.githubusercontent.com/7/shot.png?jwt=TOKEN";
     EDateNow;
     EIssuesGetCommentHtml "o" "r" (Some 102%Z);
     EFsWriteFile "/tmp/github-images/image-1700000000002-0.png" "PNG";
     EFetch "https://private-user-images.githubusercontent.com/7/shot.png?jwt=TOKEN";
     EDateNow;
     EIssuesGetCommentHtml "o" "r" (Some 101%Z);
     EFsMkdir "/tmp/github-images"].
Proof. vm_compute. reflexivity. Qed.

(** The pairs of a run are counted on the HTML that came back in it. *)
Example rendered_html_fresh_tokens :
  Spec.rendered_html Scenario.fresh_tokens "o" "r"
    [Scenario.first_comment; Scenario.plain_comment;
     Scenario.second_comment] ([EFsMkdir downloadsDir], ∅)
  = [(Scenario.first_comment, Scenario.fresh_token [EFsMkdir downloadsDir]);
     (Scenario.plain_comment, "");
     (Scenario.second_comment,
      Scenario.fresh_token
        [EFsWriteFile "/tmp/github-images/image-1700000000000-0.png" "PNG";
         EFetch "https://private-user-images.githubusercontent.com/7/shot.png?jwt=T1";
         EDateNow; EIssuesGetCommentHtml "o" "r" (Some 101%Z);
         EFsMkdir downloadsDir])].
Proof. vm_compute. reflexivity. Qed.

End Examples.

(** * Properties *)

(** ** Branch reconciliation *)

Module BranchFacts.
Import BranchReconciler BranchSpec.

Section Facts.
Variable w : World.
Variables owner repo : string.

(** The deletion step returns the two variables as it found them. *)
Lemma delete_and_return_locals claudeBranch t l :
  (delete_and_return w owner repo claudeBranch t l).2 = Ret l.
Proof.
  unfold delete_and_return, delete_branch. unfold_eff.
  destruct claudeBranch as [b|]; simpl; [|reflexivity].
  destruct (shouldDeleteBranch l && truthy b); simpl; [|reflexivity].
  destruct (isGiteaInstance w); simpl.
  - destruct (fetch_delete w t _ _) as [r|e]; simpl; [|reflexivity].
    destruct (negb (Payload.ok r)); reflexivity.
  - destruct (git_deleteRef w t owner repo _); reflexivity.
Qed.

(** The three ways the inspection of the working tree can end. *)
Lemma commit_uncommitted_fresh b t :
  let r := commit_uncommitted w owner repo b t initial in
  r.2 = Ret tt
  /\ (r.1.2 = {| shouldDeleteBranch := true; branchLink := "" |}
      \/ r.1.2 = {| shouldDeleteBranch := false; branchLink := link_of w owner repo b |}).
Proof.
  unfold commit_uncommitted. unfold_eff. simpl.
  destruct (git_status w t) as [out|e]; simpl; [|auto].
  destruct (0 <? String.length (trim out))%nat; simpl; [|auto].
  destruct (git_add w _); simpl; [|auto].
  destruct (git_commit w _ _); simpl; [|auto].
  destruct (git_push w _ _); simpl; auto.
Qed.

Lemma commit_uncommitted_clean b t out :
  git_status w t = Ret out ->
  trim out = "" ->
  commit_uncommitted w owner repo b t initial
  = (EGitStatus :: t,
     {| shouldDeleteBranch := true; branchLink := "" |}, Ret tt).
Proof.
  intros Hstatus Hclean. unfold commit_uncommitted. unfold_eff. simpl.
  rewrite Hstatus, Hclean. reflexivity.
Qed.

(** The comparison of the two heads never throws, and ends in one of
    two dispositions. *)
Lemma compare_heads_fresh b baseBranch useCommitSigning t :
  let r := compare_heads w owner repo b baseBranch useCommitSigning t initial in
  r.2 = Ret tt
  /\ (r.1.2 = {| shouldDeleteBranch := true; branchLink := "" |}
      \/ r.1.2 = {| shouldDeleteBranch := false; branchLink := link_of w owner repo b |}).
Proof.
  unfold compare_heads, getBranch. unfold_eff. simpl.
  destruct (repos_getBranch w t owner repo baseBranch) as [i1|e1]; simpl;
    [|auto].
  destruct (repos_getBranch w _ owner repo b) as [i2|e2]; simpl; [|auto].
  destruct (negb (negb (Payload.commit_sha i1 =? Payload.commit_sha i2)%string));
    simpl;
    [|auto].
  destruct (negb useCommitSigning); simpl; [|auto].
  match goal with
  | |- context [commit_uncommitted w owner repo b ?t' initial] =>
      destruct (commit_uncommitted_fresh b t') as [Hret Hl];
      destruct (commit_uncommitted w owner repo b t' initial)
        as [[t'' l''] o'']
  end.
  simpl in *. subst o''. simpl. auto.
Qed.

Lemma compare_heads_throws b baseBranch useCommitSigning t e :
  repos_getBranch w t owner repo baseBranch = Throw e
  \/ repos_getBranch w (EReposGetBranch owner repo baseBranch :: t)
       owner repo b = Throw e ->
  compare_heads w owner repo b baseBranch useCommitSigning t initial
  = (EReposGetBranch owner repo b :: EReposGetBranch owner repo baseBranch
     :: t,
     {| shouldDeleteBranch := false; branchLink := link_of w owner repo b |}, Ret tt).
Proof.
  unfold compare_heads, getBranch. unfold_eff. simpl.
  intros [H|H].
  - rewrite H. reflexivity.
  - rewrite H.
    destruct (repos_getBranch w t owner repo baseBranch); reflexivity.
Qed.

(** Nothing is deleted unless the branch is marked. *)
Lemma delete_and_return_unmarked claudeBranch t l :
  shouldDeleteBranch l = false ->
  delete_and_return w owner repo claudeBranch t l = (t, l, Ret l).
Proof.
  intros Hl. unfold delete_and_return. unfold_eff.
  destruct claudeBranch as [b|]; simpl; [|reflexivity].
  rewrite Hl. reflexivity.
Qed.

Lemma compare_heads_clean b baseBranch t i1 i2 out :
  repos_getBranch w t owner repo baseBranch = Ret i1 ->
  repos_getBranch w (EReposGetBranch owner repo baseBranch :: t)
    owner repo b = Ret i2 ->
  Payload.commit_sha i1 = Payload.commit_sha i2 ->
  git_status w (EReposGetBranch owner repo b
                :: EReposGetBranch owner repo baseBranch :: t) = Ret out ->
  trim out = "" ->
  (compare_heads w owner repo b baseBranch false t initial).1.2
  = {| shouldDeleteBranch := true; branchLink := "" |}.
Proof.
  intros H1 H2 Hsha Hstatus Hclean.
  unfold compare_heads, getBranch. unfold_eff. simpl.
  rewrite H1. simpl. rewrite H2. simpl.
  rewrite Hsha, String.eqb_refl. simpl.
  erewrite commit_uncommitted_clean by eassumption. reflexivity.
Qed.

(** Once the branch is known to exist, the function compares the
    heads and goes on to the deletion step. *)
Lemma body_existing_eq b baseBranch useCommitSigning t i0 :
  truthy b = true ->
  repos_getBranch w t owner repo b = Ret i0 ->
  body w owner repo (Some b) baseBranch useCommitSigning t initial
  = bind (compare_heads w owner repo b baseBranch useCommitSigning)
         (fun _ => delete_and_return w owner repo (Some b))
         (EReposGetBranch owner repo b :: t) initial.
Proof.
  intros Hb H0. unfold body, getBranch. rewrite Hb.
  unfold try_catch, attempt, request, ret. unfold bind at 1 2 3.
  rewrite H0. reflexivity.
Qed.

(** What the function returns once the branch is known to exist. *)
Lemma body_existing b baseBranch useCommitSigning t i0 :
  truthy b = true ->
  repos_getBranch w t owner repo b = Ret i0 ->
  (body w owner repo (Some b) baseBranch useCommitSigning t initial).2
  = Ret (compare_heads w owner repo b baseBranch useCommitSigning
           (EReposGetBranch owner repo b :: t) initial).1.2.
Proof.
  intros Hb H0. rewrite (body_existing_eq b _ _ t i0 Hb H0). unfold bind.
  destruct (compare_heads_fresh b baseBranch useCommitSigning
              (EReposGetBranch owner repo b :: t)) as [Hret _].
  destruct (compare_heads _ _ _ _ _ _ _ _) as [[t' l'] o']. simpl in *.
  subst o'. apply delete_and_return_locals.
Qed.

Lemma run_reconciler claudeBranch baseBranch useCommitSigning t :
  (run (checkAndCommitOrDeleteBranch w owner repo claudeBranch baseBranch
          useCommitSigning) t).2
  = (body w owner repo claudeBranch baseBranch useCommitSigning t initial).2.
Proof.
  unfold run, checkAndCommitOrDeleteBranch, call.
  by destruct (body _ _ _ _ _ _ t _) as [[t' l'] o'].
Qed.

End Facts.
End BranchFacts.

Module BranchClaims.
Import BranchReconciler BranchSpec BranchFacts.

(** C1. The working branch exists remotely, its head equals the head of
    the base branch, commit signing is off and [git status] reports
    nothing: the function returns [{shouldDeleteBranch: true,
    branchLink: ""}]. *)
Theorem clean_branch_is_marked_for_deletion (w : World)
    (owner repo claudeBranch baseBranch : string) (t : trace)
    (existing base claude : Payload.Branch) (porcelain : string) :
  truthy claudeBranch = true ->
  repos_getBranch w t owner repo claudeBranch = Ret existing ->
  repos_getBranch w (EReposGetBranch owner repo claudeBranch :: t)
    owner repo baseBranch = Ret base ->
  repos_getBranch w
    (EReposGetBranch owner repo baseBranch
     :: EReposGetBranch owner repo claudeBranch :: t)
    owner repo claudeBranch = Ret claude ->
  Payload.commit_sha base = Payload.commit_sha claude ->
  git_status w
    (EReposGetBranch owner repo claudeBranch
     :: EReposGetBranch owner repo baseBranch
     :: EReposGetBranch owner repo claudeBranch :: t) = Ret porcelain ->
  trim porcelain = "" ->
  (run (checkAndCommitOrDeleteBranch w owner repo (Some claudeBranch)
          baseBranch false) t).2
  = Ret {| shouldDeleteBranch := true; branchLink := "" |}.
Proof.
  intros Hb Hexists Hbase Hclaude Hsha Hstatus Hclean.
  rewrite run_reconciler.
  rewrite (body_existing w owner repo claudeBranch baseBranch false t
             existing Hb Hexists).
  f_equal. eapply compare_heads_clean; eassumption.
Qed.

(** C1 at work: GitHub, equal heads, a status output of one line feed. *)
Lemma clean_branch_witness :
  (run (checkAndCommitOrDeleteBranch Scenario.clean_github "o" "r"
          (Some "claude/issue-1") "main" false) []).2
  = Ret {| shouldDeleteBranch := true; branchLink := "" |}.
Proof.
  apply (clean_branch_is_marked_for_deletion Scenario.clean_github "o" "r"
           "claude/issue-1" "main" []
           {| Payload.commit_sha := "0a1b2c" |}
           {| Payload.commit_sha := "0a1b2c" |}
           {| Payload.commit_sha := "0a1b2c" |} LF); reflexivity.
Defined.

(** C2. The working branch exists remotely and one of the two requests
    that read the heads to compare fails: the function returns
    [shouldDeleteBranch: false] with a non-empty [branchLink], and sends no
    deletion request (its only requests are the three that read
    branches). *)
Theorem failed_comparison_keeps_and_links (w : World)
    (owner repo claudeBranch baseBranch : string)
    (useCommitSigning : bool) (t : trace) (existing : Payload.Branch)
    (e : exn) :
  truthy claudeBranch = true ->
  repos_getBranch w t owner repo claudeBranch = Ret existing ->
  repos_getBranch w (EReposGetBranch owner repo claudeBranch :: t)
    owner repo baseBranch = Throw e
  \/ repos_getBranch w
       (EReposGetBranch owner repo baseBranch
        :: EReposGetBranch owner repo claudeBranch :: t)
       owner repo claudeBranch = Throw e ->
  exists link,
    truthy link = true
    /\ run (checkAndCommitOrDeleteBranch w owner repo (Some claudeBranch)
              baseBranch useCommitSigning) t
       = (EReposGetBranch owner repo claudeBranch
          :: EReposGetBranch owner repo baseBranch
          :: EReposGetBranch owner repo claudeBranch :: t,
          Ret {| shouldDeleteBranch := false; branchLink := link |}).
Proof.
  intros Hb Hexists Hthrows.
  exists (link_of w owner repo claudeBranch). split; [reflexivity|].
  unfold run, checkAndCommitOrDeleteBranch, call.
  rewrite (body_existing_eq w owner repo claudeBranch baseBranch
             useCommitSigning t existing Hb Hexists).
  unfold bind.
  rewrite (compare_heads_throws w owner repo claudeBranch baseBranch
             useCommitSigning _ e Hthrows).
  by rewrite delete_and_return_unmarked.
Qed.

(** C2 at work: the base branch cannot be read; signing does not matter. *)
Lemma failed_comparison_witness :
  exists link,
    truthy link = true
    /\ run (checkAndCommitOrDeleteBranch Scenario.flaky_github "o" "r"
              (Some "claude/issue-1") "main" true) []
       = ([EReposGetBranch "o" "r" "claude/issue-1";
           EReposGetBranch "o" "r" "main";
           EReposGetBranch "o" "r" "claude/issue-1"],
          Ret {| shouldDeleteBranch := false; branchLink := link |}).
Proof.
  apply (failed_comparison_keeps_and_links Scenario.flaky_github "o" "r"
           "claude/issue-1" "main" true []
           {| Payload.commit_sha := "0a1b2c" |}
           (HttpError 500 "Server Error"));
    [reflexivity|reflexivity|left; reflexivity].
Defined.

(** C10. The function always returns, and never with both
    [shouldDeleteBranch] true and a non-empty [branchLink]. *)
Theorem never_both_deleted_and_linked (w : World) (owner repo : string)
    (claudeBranch : option string) (baseBranch : string)
    (useCommitSigning : bool) (t : trace) :
  exists r,
    (run (checkAndCommitOrDeleteBranch w owner repo claudeBranch baseBranch
            useCommitSigning) t).2 = Ret r
    /\ (shouldDeleteBranch r = true -> branchLink r = "")
    /\ (branchLink r <> "" -> shouldDeleteBranch r = false).
Proof.
  rewrite run_reconciler.
  assert (forall l, (l = initial
                     \/ l = {| shouldDeleteBranch := true; branchLink := "" |}
                     \/ l = {| shouldDeleteBranch := false;
                               branchLink := default "" claudeBranch |}
                     \/ exists b,
                         l = {| shouldDeleteBranch := false;
                                branchLink := link_of w owner repo b |}) ->
                    (shouldDeleteBranch l = true -> branchLink l = "")
                    /\ (branchLink l <> "" -> shouldDeleteBranch l = false))
    as Hexclusive.
  { intros l [->|[->|[->|[b ->]]]]; simpl; split; congruence. }
  destruct claudeBranch as [b|]; [destruct (truthy b) eqn:Hb|].
  - destruct (repos_getBranch w t owner repo b) as [existing|e] eqn:Hex.
    + rewrite (body_existing w owner repo b baseBranch useCommitSigning t
                 existing Hb Hex).
      eexists; split; [reflexivity|]. apply Hexclusive.
      destruct (compare_heads_fresh w owner repo b baseBranch
                  useCommitSigning (EReposGetBranch owner repo b :: t))
        as (_ & [->| ->]); eauto.
    + exists initial. split; [|by apply Hexclusive; left].
      unfold body, getBranch. unfold_eff. rewrite Hb. simpl.
      by rewrite Hex.
  - exists initial. split; [|by apply Hexclusive; left].
    unfold body. rewrite Hb. apply delete_and_return_locals.
  - exists initial. split; [|by apply Hexclusive; left].
    apply delete_and_return_locals.
Qed.

End BranchClaims.

(** ** Reasoning about computations *)

Module EffFacts.
Import Rel.

Section Preserves.
Context {L : Type} (R : relation (trace * L)) `{!PreOrder R}.

Lemma preserves_ret {A} (a : A) : preserves R (ret a).
Proof. intros t l. reflexivity. Qed.

Lemma preserves_bind {A B} (m : M L A) (k : A -> M L B) :
  preserves R m -> (forall a, preserves R (k a)) -> preserves R (bind m k).
Proof.
  intros Hm Hk t l. unfold bind. specialize (Hm t l).
  destruct (m t l) as [[t' l'] [a|e]]; simpl in *; [|exact Hm].
  etransitivity; [exact Hm|]. apply Hk.
Qed.

Lemma preserves_attempt {A} (m : M L A) :
  preserves R m -> preserves R (attempt m).
Proof.
  intros Hm t l. unfold attempt. specialize (Hm t l).
  destruct (m t l) as [[t' l'] o]. exact Hm.
Qed.

Lemma preserves_try_catch {A} (m : M L A) (h : exn -> M L A) :
  preserves R m -> (forall e, preserves R (h e)) ->
  preserves R (try_catch m h).
Proof.
  intros Hm Hh. apply preserves_bind; [by apply preserves_attempt|].
  intros [a|e]; [apply preserves_ret|apply Hh].
Qed.

Lemma preserves_request {A} e (answer : trace -> outcome A) :
  (forall t l, R (t, l) (e :: t, l)) -> preserves R (request e answer).
Proof. intros He t l. apply He. Qed.

Lemma preserves_for_each {A} (xs : list A) (body : A -> M L unit) :
  (forall x, x ∈ xs -> preserves R (body x)) ->
  preserves R (for_each xs body).
Proof.
  induction xs as [|x xs IH]; intros Hb; simpl; [apply preserves_ret|].
  apply preserves_bind; [apply Hb; left|].
  intros _. apply IH. intros y Hy. apply Hb. by right.
Qed.

End Preserves.

Global Instance grows_by_preorder {L} P : PreOrder (@grows_by L P).
Proof.
  split.
  - intros s. exists []. split; [reflexivity|constructor].
  - intros s1 s2 s3 (n1 & E1 & F1) (n2 & E2 & F2). exists (n2 ++ n1)%list.
    split; [rewrite E2, E1; apply app_assoc|]. apply Forall_app; auto.
Qed.

End EffFacts.

(** ** Attachment resolution *)

Module DownloaderFacts.
Import ImageDownloader Downloader Rel EffFacts.

Global Instance keeps_preorder : PreOrder keeps.
Proof.
  split; [intros s; unfold keeps; reflexivity|].
  intros s1 s2 s3 H12 H23. unfold keeps in *. by etransitivity.
Qed.

Section Facts.
Variable w : World.
Variables owner repo : string.

(** A download either records the pair or leaves the map alone, and
    never throws. *)
Lemma download_cases signedUrl originalUrl localPath t m :
  let r := download w signedUrl originalUrl localPath t m in
  r.2 = Ret tt
  /\ (r.1.2 = m \/ r.1.2 = <[originalUrl := localPath]> m)
  /\ grows_by is_download (t, m) r.1.
Proof.
  unfold download, settle, try_catch, attempt, bind, request, ret, throw,
    modify_locals, grows_by. simpl.
  destruct (fetch w t signedUrl) as [resp|e]; simpl.
  2:{ repeat split; auto. exists [EFetch signedUrl]. repeat constructor. }
  destruct (negb (Payload.ok resp)); simpl.
  { repeat split; auto. exists [EFetch signedUrl]. repeat constructor. }
  destruct (Payload.arrayBuffer resp) as [buffer|e]; simpl.
  2:{ repeat split; auto. exists [EFetch signedUrl]. repeat constructor. }
  destruct (fs_writeFile w _ localPath buffer); simpl.
  - repeat split; auto.
    exists [EFsWriteFile localPath buffer; EFetch signedUrl].
    repeat constructor.
  - repeat split; auto.
    exists [EFsWriteFile localPath buffer; EFetch signedUrl].
    repeat constructor.
Qed.

(** One turn of the inner loop: nothing happens, or the extension cannot
    be derived, or a download is attempted for a URL not yet mapped. *)
Lemma download_pair_cases signedUrls urls i t m :
  let r := download_pair w signedUrls urls i t m in
  r = (t, m, Ret tt)
  \/ (exists e, r = (t, m, Throw e))
  \/ (exists signedUrl originalUrl localPath,
        signedUrls !! i = Some signedUrl /\ urls !! i = Some originalUrl
        /\ m !! originalUrl = None
        /\ r = download w signedUrl originalUrl localPath (EDateNow :: t) m).
Proof.
  unfold download_pair.
  destruct (signedUrls !! i) as [signedUrl|] eqn:Hs; [|by left].
  destruct (urls !! i) as [originalUrl|] eqn:Hu; [|by left].
  destruct (negb (truthy signedUrl) || negb (truthy originalUrl));
    [by left|].
  unfold bind, get_locals, settle, request, ret, throw.
  destruct (m !! originalUrl) as [p|] eqn:Hhas; simpl; [by left|].
  destruct (getImageExtension originalUrl) as [ext|e]; simpl.
  - right; right. eexists signedUrl, originalUrl, _.
    repeat split; first [done|reflexivity].
  - right; left. by exists e.
Qed.

Lemma download_pair_keeps signedUrls urls i :
  preserves keeps (download_pair w signedUrls urls i).
Proof.
  intros t m. unfold keeps. simpl.
  destruct (download_pair_cases signedUrls urls i t m)
    as [->|[[e ->]|(s & u & p & _ & _ & Hnone & ->)]]; simpl; try done.
  destruct (download_cases s u p (EDateNow :: t) m) as (_ & [->| ->] & _);
    [done|]. by apply insert_subseteq.
Qed.

Lemma download_pair_size signedUrls urls i t m :
  size (download_pair w signedUrls urls i t m).1.2 <= size m + 1.
Proof.
  destruct (download_pair_cases signedUrls urls i t m)
    as [->|[[e ->]|(s & u & p & _ & _ & Hnone & ->)]]; simpl; try lia.
  destruct (download_cases s u p (EDateNow :: t) m) as (_ & [->| ->] & _);
    [lia|]. rewrite map_size_insert_None by done. lia.
Qed.

Lemma download_pair_grows signedUrls urls i :
  preserves (grows_by is_download) (download_pair w signedUrls urls i).
Proof.
  intros t m.
  destruct (download_pair_cases signedUrls urls i t m)
    as [->|[[e ->]|(s & u & p & _ & _ & Hnone & ->)]];
    try reflexivity.
  destruct (download_cases s u p (EDateNow :: t) m) as (_ & _ & H).
  etransitivity; [|exact H].
  exists [EDateNow]. split; [reflexivity|]. repeat constructor.
Qed.

(** The inner loop adds at most one entry per turn. *)
Lemma inner_loop_size signedUrls urls (idx : list nat) t m :
  size (for_each idx (download_pair w signedUrls urls) t m).1.2
  <= size m + length idx.
Proof.
  revert t m. induction idx as [|i idx IH]; intros t m; simpl; [lia|].
  unfold bind.
  pose proof (download_pair_size signedUrls urls i t m) as H1.
  destruct (download_pair w signedUrls urls i t m) as [[t' m'] [[]|e]];
    simpl in *; [|lia].
  specialize (IH t' m'). lia.
Qed.

End Facts.
End DownloaderFacts.

Module ResolutionFacts.
Import ImageDownloader Downloader Rel EffFacts DownloaderFacts Spec.

Lemma grows_by_weaken {L} (P Q : event -> Prop) (s s' : trace * L) :
  (forall e, P e -> Q e) -> grows_by P s s' -> grows_by Q s s'.
Proof.
  intros HPQ (new & E & F). exists new. split; [exact E|].
  eapply Forall_impl; eauto.
Qed.

Section Facts.
Variable w : World.
Variables owner repo : string.

(** Fetching the HTML sends the one request of the comment and leaves
    the map alone. *)
Lemma fetch_body_html_state c t m :
  (fetch_body_html w owner repo c t m).1 = (render_request owner repo c :: t, m).
Proof.
  destruct c; simpl; unfold try_catch, attempt, bind, request, ret;
    simpl; try reflexivity.
  - destruct (pulls_getReviewComment_html w t owner repo _); reflexivity.
  - destruct (pulls_getReview_html w t owner repo _ _); reflexivity.
Qed.

Lemma download_is_not_render e : is_download e -> is_render e = false.
Proof. by destruct e. Qed.

(** The entries of the outer loop are the comments with a match. *)
Lemma commentsWithImages_spec comments c urls :
  (c, urls) ∈ commentsWithImages w comments ->
  c ∈ comments /\ urls = image_urls w (body c) /\ urls <> [].
Proof.
  induction comments as [|c0 cs IH]; simpl; [by intros ?%elem_of_nil|].
  destruct (0 <? length (image_urls w (body c0)))%nat eqn:Hlen.
  - intros [Heq|Hin]%elem_of_cons.
    + injection Heq as -> ->. split; [left|]. split; [done|].
      apply Nat.ltb_lt in Hlen. intros E. rewrite E in Hlen.
      simpl in Hlen. lia.
    + destruct (IH Hin) as (? & ? & ?). split; [by right|done].
  - intros Hin. destruct (IH Hin) as (? & ? & ?). split; [by right|done].
Qed.

Lemma commentsWithImages_app cs1 cs2 :
  commentsWithImages w (cs1 ++ cs2)
  = (commentsWithImages w cs1 ++ commentsWithImages w cs2)%list.
Proof.
  induction cs1 as [|c cs1 IH]; simpl; [done|].
  destruct (0 <? length (image_urls w (body c)))%nat; simpl; by rewrite IH.
Qed.

Lemma process_comment_keeps entry :
  preserves keeps (process_comment w owner repo entry).
Proof.
  destruct entry as [c urls]. unfold process_comment.
  apply preserves_try_catch; [apply _| |intros; apply preserves_ret; apply _].
  apply preserves_bind; [apply _| |].
  - intros t m. rewrite fetch_body_html_state. unfold keeps. done.
  - intros [html|]; [|apply preserves_ret; apply _].
    destruct (truthy html); [|apply preserves_ret; apply _].
    apply preserves_for_each; [apply _|].
    intros i _. apply download_pair_keeps.
Qed.

Lemma process_comment_extends entry :
  preserves (grows_by any_event) (process_comment w owner repo entry).
Proof.
  destruct entry as [c urls]. unfold process_comment.
  apply preserves_try_catch; [apply _| |intros; apply preserves_ret; apply _].
  apply preserves_bind; [apply _| |].
  - intros t m. rewrite fetch_body_html_state.
    exists [render_request owner repo c]. split; [done|].
    by repeat constructor.
  - intros [html|]; [|apply preserves_ret; apply _].
    destruct (truthy html); [|apply preserves_ret; apply _].
    apply preserves_for_each; [apply _|].
    intros i _ t m. eapply grows_by_weaken; [|apply download_pair_grows].
    done.
Qed.

Lemma process_comment_grows comments c urls :
  c ∈ comments -> image_urls w (body c) <> [] ->
  preserves (grows_by (accounted w owner repo comments))
            (process_comment w owner repo (c, urls)).
Proof.
  intros Hin Hurls. unfold process_comment.
  apply preserves_try_catch; [apply _| |intros; apply preserves_ret; apply _].
  apply preserves_bind; [apply _| |].
  - intros t m. rewrite fetch_body_html_state.
    exists [render_request owner repo c]. split; [done|].
    constructor; [|constructor]. intros _. by exists c.
  - intros [html|]; [|apply preserves_ret; apply _].
    destruct (truthy html); [|apply preserves_ret; apply _].
    apply preserves_for_each; [apply _|].
    intros i _ t m. eapply grows_by_weaken; [|apply download_pair_grows].
    intros e He Hr. rewrite download_is_not_render in Hr; done.
Qed.

Lemma process_comment_never_throws entry t m :
  (process_comment w owner repo entry t m).2 = Ret tt.
Proof.
  destruct entry as [c urls]. unfold process_comment.
  unfold try_catch, attempt, bind, ret.
  destruct (fetch_body_html w owner repo c t m) as [[t1 m1] [o|e]];
    simpl; [|done].
  destruct o as [html|]; [|done].
  destruct (truthy html); [|done].
  by destruct (for_each _ _ t1 m1) as [[t2 m2] [[]|e]].
Qed.

(** One comment adds at most as many entries as it has pairs on the
    HTML that came back for it. *)
Lemma process_comment_size c t m :
  size (process_comment w owner repo
          (c, image_urls w (body c)) t m).1.2
  <= size m + pairs w (c, html_at w owner repo c (t, m)).
Proof.
  unfold process_comment, try_catch, attempt, bind, ret, pairs, html_at.
  cbn [fst snd].
  pose proof (fetch_body_html_state c t m) as Hst.
  destruct (fetch_body_html w owner repo c t m) as [[t1 m1] [o|e]];
    simpl in *; injection Hst as -> ->; [|lia].
  destruct o as [html|]; simpl; [|lia].
  destruct (truthy html); simpl; [|lia].
  match goal with
  | |- context [for_each ?idx ?f ?t' m] =>
      pose proof (inner_loop_size w (signed_urls html)
                    (image_urls w (body c)) idx t' m) as Hloop;
      destruct (for_each idx f t' m) as [[t2 m2] [[]|e2]]
  end; simpl in *; rewrite length_seq in Hloop; lia.
Qed.

Lemma outer_loop_size comments s :
  size (for_each (commentsWithImages w comments)
          (process_comment w owner repo) s.1 s.2).1.2
  <= size s.2
     + sum_list_with (pairs w) (rendered_html w owner repo comments s).
Proof.
  revert s. induction comments as [|c cs IH]; intros [t m];
    cbn [commentsWithImages rendered_html sum_list_with for_each fst snd];
    [simpl; lia|].
  destruct (0 <? length (image_urls w (body c)))%nat;
    cbn [for_each sum_list_with].
  - unfold bind.
    pose proof (process_comment_size c t m) as H1.
    pose proof (process_comment_never_throws
                  (c, image_urls w (body c)) t m) as H2.
    specialize (IH (process_comment w owner repo
                      (c, image_urls w (body c)) t m).1).
    destruct (process_comment w owner repo _ t m) as [[t1 m1] o].
    cbn [fst snd] in *. subst o. lia.
  - specialize (IH (t, m)). cbn [fst snd] in IH. lia.
Qed.

Lemma rendered_html_comments comments s :
  (rendered_html w owner repo comments s).*1 = comments.
Proof.
  revert s. induction comments as [|c cs IH]; intros s; [done|].
  cbn [rendered_html].
  destruct (0 <? length (image_urls w (body c)))%nat; cbn [fmap list_fmap];
    simpl; by rewrite IH.
Qed.

End Facts.
End ResolutionFacts.

Module RunFacts.
Import ImageDownloader Downloader Rel EffFacts DownloaderFacts
  ResolutionFacts Spec.

Section Facts.
Variable w : World.
Variables owner repo : string.

Lemma outer_loop_never_throws entries t m :
  (for_each entries (process_comment w owner repo) t m).2 = Ret tt.
Proof.
  revert t m. induction entries as [|entry entries IH]; intros t m;
    cbn [for_each]; [done|].
  unfold bind.
  pose proof (process_comment_never_throws w owner repo entry t m) as H.
  destruct (process_comment w owner repo entry t m) as [[t1 m1] o].
  cbn [fst snd] in *. subst o. apply IH.
Qed.

(** The function fails only where the scratch directory cannot be
    made; otherwise it returns the map the outer loop has built. *)
Lemma resolve_cases comments t m :
  resolve w owner repo comments t m
  = match fs_mkdir w t downloadsDir with
    | Ret _ => (after_loop w owner repo comments t m, Ret (after_loop w owner repo comments t m).2)
    | Throw e => (EFsMkdir downloadsDir :: t, m, Throw e)
    end.
Proof.
  unfold resolve, after_loop, bind, request, get_locals.
  destruct (fs_mkdir w t downloadsDir) as [[]|e]; [|done].
  pose proof (outer_loop_never_throws (commentsWithImages w comments)
                (EFsMkdir downloadsDir :: t) m) as H.
  destruct (for_each _ _ _ m) as [[t1 m1] o]. cbn [fst snd] in *.
  by subst o.
Qed.

Lemma downloadCommentImages_cases {L} comments t (l : L) :
  downloadCommentImages w owner repo comments t l
  = match fs_mkdir w t downloadsDir with
    | Ret _ => ((after_loop w owner repo comments t ∅).1, l,
                Ret (after_loop w owner repo comments t ∅).2)
    | Throw e => (EFsMkdir downloadsDir :: t, l, Throw e)
    end.
Proof.
  unfold downloadCommentImages, call. rewrite resolve_cases.
  destruct (fs_mkdir w t downloadsDir) as [[]|e]; [|done].
  by destruct (after_loop w owner repo comments t ∅).
Qed.

(** Each turn of the outer loop begins with the rendering request of
    its comment, whatever follows. *)
Lemma process_comment_renders c urls t m :
  exists new,
    (process_comment w owner repo (c, urls) t m).1.1
    = (new ++ render_request owner repo c :: t)%list.
Proof.
  unfold process_comment, try_catch, attempt, bind, ret.
  pose proof (fetch_body_html_state w owner repo c t m) as Hst.
  destruct (fetch_body_html w owner repo c t m) as [[t1 m1] [o|e]];
    cbn [fst snd] in Hst; injection Hst as -> ->; [|by exists []].
  destruct o as [html|]; [|by exists []].
  destruct (truthy html); [|by exists []].
  match goal with
  | |- context [for_each ?idx ?f ?t' m] =>
      destruct (preserves_for_each (grows_by is_download) idx f
                  (fun i _ => download_pair_grows w _ _ i) t' m)
        as (new & Hnew & _);
      destruct (for_each idx f t' m) as [[t2 m2] [[]|e2]]
  end; cbn [fst snd] in *; by exists new.
Qed.

Lemma outer_loop_renders entries c urls t m :
  (c, urls) ∈ entries ->
  render_request owner repo c
    ∈ (for_each entries (process_comment w owner repo) t m).1.1.
Proof.
  revert t m. induction entries as [|entry entries IH]; intros t m;
    [by intros ?%elem_of_nil|].
  cbn [for_each]. unfold bind.
  pose proof (process_comment_never_throws w owner repo entry t m) as Hret.
  intros [<-|Hin]%elem_of_cons.
  - destruct (process_comment_renders c urls t m) as (new & Hnew).
    destruct (process_comment w owner repo (c, urls) t m) as [[t1 m1] o].
    cbn [fst snd] in *. subst o t1.
    destruct (preserves_for_each (grows_by any_event) entries
                (process_comment w owner repo)
                (fun e _ => process_comment_extends w owner repo e)
                (new ++ render_request owner repo c :: t)%list m1)
      as (new' & Hnew' & _).
    cbn [fst snd] in Hnew'. rewrite Hnew'.
    apply elem_of_app. right. apply elem_of_app. right. left.
  - destruct (process_comment w owner repo entry t m) as [[t1 m1] o].
    cbn [fst snd] in *. subst o. by apply IH.
Qed.

(** Every comment of the set with a match is rendered. *)
Lemma after_loop_renders comments c t m :
  c ∈ comments -> image_urls w (body c) <> [] ->
  render_request owner repo c ∈ (after_loop w owner repo comments t m).1.
Proof.
  intros Hc Hne. unfold after_loop.
  apply outer_loop_renders with (image_urls w (body c)).
  clear t m. induction comments as [|c0 cs IH];
    [by apply elem_of_nil in Hc|].
  cbn [commentsWithImages].
  apply elem_of_cons in Hc as [<-|Hc].
  - destruct (image_urls w (body c)); [done|]. left.
  - destruct (0 <? length (image_urls w (body c0)))%nat;
      [right|]; by apply IH.
Qed.

Lemma outer_loop_grows comments entries :
  (forall entry, entry ∈ entries ->
                 entry ∈ commentsWithImages w comments) ->
  preserves (grows_by (accounted w owner repo comments))
            (for_each entries (process_comment w owner repo)).
Proof.
  intros Hsub. apply preserves_for_each; [apply _|].
  intros [c urls] Hin.
  destruct (commentsWithImages_spec w comments c urls (Hsub _ Hin))
    as (Hc & -> & Hne).
  by apply process_comment_grows.
Qed.

(** The events of one run of the loop, after the directory is made. *)
Lemma after_loop_grows comments t m :
  grows_by (accounted w owner repo comments)
           (EFsMkdir downloadsDir :: t, m) (after_loop w owner repo comments t m).
Proof. unfold after_loop. by apply outer_loop_grows. Qed.

End Facts.
End RunFacts.

(** ** Strings *)

Module StringFacts.
Import ImageDownloader Downloader Spec.

Local Arguments String.append : simpl nomatch.

(** *** The trailing segment of a URL *)

Lemma split_nonempty sep s : split sep s <> [].
Proof.
  destruct s as [|c s]; simpl; [done|].
  destruct (Ascii.eqb c sep); [done|]. by destruct (split sep s).
Qed.

Lemma split_without_separator sep s :
  occurs sep s = false -> split sep s = [s].
Proof.
  induction s as [|c s IH]; [done|]. simpl.
  intros [Hc Hs]%orb_false_iff. rewrite Hc, (IH Hs). done.
Qed.

Lemma split_with_separator sep s :
  occurs sep s = true -> exists hd hd2 tl, split sep s = hd :: hd2 :: tl.
Proof.
  induction s as [|c s IH]; [done|]. simpl.
  destruct (Ascii.eqb c sep); simpl.
  - intros _. pose proof (split_nonempty sep s).
    destruct (split sep s) as [|h tl]; [done|]. by exists "", h, tl.
  - intros Hs. destruct (IH Hs) as (hd & hd2 & tl & ->).
    by exists (String c hd), hd2, tl.
Qed.

Lemma last_split_after_slash url :
  after_last_slash url (List.last (split "/" url) "").
Proof.
  unfold after_last_slash.
  induction url as [|c url (Hno & IH)]; [by split; [|left]|].
  cbn [split]. destruct (Ascii.eqb c "/") eqn:Hc.
  - apply Ascii.eqb_eq in Hc as ->.
    assert (List.last ("" :: split "/" url) ""
            = List.last (split "/" url) "") as ->.
    { pose proof (split_nonempty "/" url). simpl.
      by destruct (split "/" url). }
    split; [exact Hno|]. right.
    destruct IH as [<-|(front & Hfront)]; [by exists ""|].
    exists (String "/" front). by rewrite Hfront at 1.
  - destruct (occurs "/" url) eqn:Hocc.
    + destruct (split_with_separator "/" url Hocc) as (hd & hd2 & tl & E).
      rewrite E in *.
      change (List.last (String c hd :: hd2 :: tl) "")
        with (List.last (hd :: hd2 :: tl) "").
      split; [exact Hno|]. right.
      destruct IH as [Heq|(front & Hfront)].
      * rewrite <- Heq in Hno. congruence.
      * exists (String c front). by rewrite Hfront at 1.
    + rewrite (split_without_separator "/" url Hocc). simpl.
      rewrite Hc, Hocc. split; [done|by left].
Qed.

Lemma occurs_append c a b : occurs c (a ++ b) = occurs c a || occurs c b.
Proof.
  induction a as [|x a IH]; [done|]. simpl. by rewrite IH, orb_assoc.
Qed.

(** The trailing segment is what [split] puts last, and nothing else. *)
Lemma after_last_slash_unique url segment :
  after_last_slash url segment -> segment = List.last (split "/" url) "".
Proof.
  intros [Hno [->|[front ->]]].
  - by rewrite (split_without_separator "/" segment Hno).
  - induction front as [|c front IH].
    + simpl. by rewrite (split_without_separator "/" segment Hno).
    + assert (occurs "/" (front ++ "/" ++ segment) = true) as Hocc.
      { rewrite occurs_append. simpl. apply orb_true_r. }
      destruct (split_with_separator "/" _ Hocc) as (hd & hd2 & tl & E).
      change (String c front ++ "/" ++ segment)
        with (String c (front ++ "/" ++ segment)).
      cbn [split]. rewrite E in *.
      by destruct (Ascii.eqb c "/").
Qed.

(** *** The extension pattern *)

Lemma extension_match_some filename m :
  extension_match filename = Some m ->
  is_image_extension m = true /\ exists stem, filename = stem ++ m.
Proof.
  induction filename as [|c rest IH]; [done|]. cbn [extension_match].
  destruct (is_image_extension (String c rest)) eqn:Hext.
  - intros [= <-]. split; [done|]. by exists "".
  - intros H. destruct (IH H) as (Hm & stem & ->).
    split; [done|]. by exists (String c stem).
Qed.

Lemma extension_match_none filename :
  extension_match filename = None ->
  forall stem e, filename = stem ++ e -> is_image_extension e = false.
Proof.
  induction filename as [|c rest IH]; intros Hnone stem e Heq.
  - destruct stem; [|done]. cbn in Heq. by subst e.
  - cbn [extension_match] in Hnone.
    destruct (is_image_extension (String c rest)) eqn:Hext; [done|].
    destruct stem as [|x stem]; cbn in Heq; [by subst e|].
    injection Heq as _ Hrest. by apply (IH Hnone stem).
Qed.

End StringFacts.

Module NameFacts.
Import ImageDownloader Downloader Spec StringFacts.

Local Arguments String.append : simpl nomatch.

Lemma pretty_N_char_digit d : Ascii.is_nat (pretty_N_char d) <> None.
Proof. unfold pretty_N_char. by repeat case_match. Qed.

Lemma pretty_N_go_digits x s :
  all_digits s = true -> all_digits (pretty_N_go x s) = true.
Proof.
  revert s. induction (N.lt_wf_0 x) as [x _ IH]; intros s Hs.
  assert (x = 0 \/ 0 < x)%N as [->|Hpos] by lia.
  - by rewrite pretty_N_go_0.
  - rewrite pretty_N_go_step by done. apply IH.
    + by apply N.div_lt.
    + simpl. pose proof (pretty_N_char_digit (x `mod` 10)%N).
      by destruct (Ascii.is_nat (pretty_N_char (x `mod` 10)%N)).
Qed.

Lemma show_N_digits n : all_digits (show_N n) = true.
Proof.
  unfold show_N, pretty, pretty_N. case_decide; [done|].
  by apply pretty_N_go_digits.
Qed.

(** Digits up to the first dash determine the number. *)
Lemma digits_dash_inj d1 d2 s1 s2 :
  all_digits d1 = true -> all_digits d2 = true ->
  d1 ++ String "-" s1 = d2 ++ String "-" s2 -> d1 = d2 /\ s1 = s2.
Proof.
  revert d2. induction d1 as [|c d1 IH]; intros [|c2 d2] H1 H2 Heq;
    simpl in *.
  - by injection Heq as ->.
  - injection Heq as <- _. simpl in H2. done.
  - injection Heq as -> _. simpl in H1. done.
  - injection Heq as -> Heq. destruct (Ascii.is_nat c2); [|done].
    by destruct (IH d2 H1 H2 Heq) as [-> ->].
Qed.

(** The local path determines the clock reading and the extension. *)
Lemma local_path_inj n1 n2 i e1 e2 :
  local_path n1 i e1 = local_path n2 i e2 <-> n1 = n2 /\ e1 = e2.
Proof.
  split; [|by intros [-> ->]].
  unfold local_path, path_join. intros H.
  do 3 apply (inj (String.app _)) in H.
  apply digits_dash_inj in H as [Hn He]; [|apply show_N_digits..].
  split; [by apply (inj show_N)|].
  by apply (inj (String.app _)) in He.
Qed.

(** *** What the two patterns yield *)

Lemma matchAll_Forall (P : string -> Prop) at_ skip s :
  (forall s' found rest, at_ s' = Some (found, rest) -> P found) ->
  Forall P (matchAll at_ skip s).
Proof.
  intros Hat. revert skip.
  induction s as [|c s IH]; intros skip; simpl; [constructor|].
  destruct skip as [|k]; [|apply IH].
  destruct (at_ (String c s)) as [[found rest]|] eqn:E; [|apply IH].
  constructor; [by eapply Hat|apply IH].
Qed.

Lemma signed_urls_truthy html :
  Forall (fun s => truthy s = true) (signed_urls html).
Proof.
  apply matchAll_Forall. intros s found rest. unfold signedUrlRegex.
  destruct (strip_prefix SIGNED_HOST s) as [s1|]; [|done].
  destruct (span (is_not DQUOTE) s1) as [run_ rest'].
  destruct run_ as [|x run']; [done|].
  destruct (has_jwt run'); [|done]. by intros [= <- _].
Qed.

Lemma getImageExtension_truthy url ext :
  getImageExtension url = Ret ext -> truthy url = true.
Proof. by destruct url. Qed.

End NameFacts.

Module DownloaderClaims.
Import Rel ImageDownloader Downloader EffFacts DownloaderFacts ResolutionFacts
  RunFacts Spec.

(** C3. Once an original URL is a key of the map, a later pair with that
    original URL is skipped: [download_pair] sends no request (so nothing
    is fetched or written) and leaves the map as it is; the entry is
    still there, unchanged, after the remaining turns of the inner loop
    and after every remaining comment; and the keys of the map are
    pairwise distinct. *)
Theorem mapped_url_is_skipped_and_kept (w : World) (owner repo : string)
    (signedUrls urls : list string) (i : nat) (remaining : list nat)
    (later : list (CommentWithImages * list string))
    (originalUrl localPath : string) (t : trace)
    (urlToPathMap : gmap string string) :
  urlToPathMap !! originalUrl = Some localPath ->
  urls !! i = Some originalUrl ->
  download_pair w signedUrls urls i t urlToPathMap
  = (t, urlToPathMap, Ret tt)
  /\ (for_each remaining (download_pair w signedUrls urls) t
        urlToPathMap).1.2 !! originalUrl = Some localPath
  /\ (for_each later (process_comment w owner repo) t
        urlToPathMap).1.2 !! originalUrl = Some localPath
  /\ NoDup (map_to_list
              (for_each later (process_comment w owner repo) t
                 urlToPathMap).1.2).*1.
Proof.
  intros Hmapped Hurl. split; [|split; [|split]].
  - destruct (download_pair_cases w signedUrls urls i t urlToPathMap)
      as [H|[[e H]|(s & u & p & _ & Hu & Hnone & _)]]; [exact H| |].
    + exfalso. revert H. unfold download_pair. rewrite Hurl.
      destruct (signedUrls !! i) as [s|]; [|done].
      destruct (negb (truthy s) || negb (truthy originalUrl)); [done|].
      unfold bind, get_locals. rewrite Hmapped. done.
    + rewrite Hurl in Hu. injection Hu as <-. congruence.
  - eapply lookup_weaken; [exact Hmapped|].
    apply (preserves_for_each keeps remaining
             (download_pair w signedUrls urls)).
    intros j _. apply download_pair_keeps.
  - eapply lookup_weaken; [exact Hmapped|].
    apply (preserves_for_each keeps later (process_comment w owner repo)).
    intros entry _. apply process_comment_keeps.
  - apply NoDup_fst_map_to_list.
Qed.

(** C3 at work: the first URL is mapped already and comes up again. *)
Lemma mapped_url_witness :
  download_pair Scenario.frozen_clock
    ["https://private-user-images.githubusercontent.com/7/shot.png?jwt=TOKEN"]
    [Scenario.first_url] 0 []
    {[ Scenario.first_url := "/tmp/github-images/image-1-0.png" ]}
  = ([], {[ Scenario.first_url := "/tmp/github-images/image-1-0.png" ]},
     Ret tt).
Proof.
  apply (mapped_url_is_skipped_and_kept Scenario.frozen_clock "o" "r"
           ["https://private-user-images.githubusercontent.com/7/shot.png?jwt=TOKEN"]
           [Scenario.first_url] 0 [0%nat]
           [(Scenario.first_comment, [Scenario.first_url])]
           Scenario.first_url "/tmp/github-images/image-1-0.png" []
           {[ Scenario.first_url := "/tmp/github-images/image-1-0.png" ]});
    [apply lookup_singleton_eq|reflexivity].
Defined.

(** C4. The map [downloadCommentImages] returns has at most as many
    entries as the sum, over all comments, of the smaller of the number of
    matches in the comment's body and the number of signed URLs in the
    HTML that came back for the comment in this run (none for a comment
    that is not rendered).  The function returns unless the scratch
    directory cannot be made. *)
Theorem entries_at_most_pairs (w : World) (owner repo : string)
    (comments : list CommentWithImages) (t : trace) :
  match (run (downloadCommentImages w owner repo comments) t).2 with
  | Ret urlToPathMap =>
      size urlToPathMap
      <= sum_list_with (pairs w)
           (rendered_html w owner repo comments
              (EFsMkdir downloadsDir :: t, ∅))
      /\ (rendered_html w owner repo comments
            (EFsMkdir downloadsDir :: t, ∅)).*1 = comments
  | Throw e => fs_mkdir w t downloadsDir = Throw e
  end.
Proof.
  unfold run. rewrite downloadCommentImages_cases.
  destruct (fs_mkdir w t downloadsDir) as [[]|e]; simpl; [|done].
  split; [|apply rendered_html_comments].
  pose proof (outer_loop_size w owner repo comments
                (EFsMkdir downloadsDir :: t, ∅)) as H.
  cbn [fst snd] in H. rewrite map_size_empty in H. exact H.
Qed.

(** C4 at work: three comments, two of them with one match, on a
    platform that signs every rendering with a token of its own. *)
Lemma entries_at_most_pairs_witness :
  match (run (downloadCommentImages Scenario.fresh_tokens "o" "r"
                [Scenario.first_comment; Scenario.second_comment;
                 Scenario.plain_comment]) []).2 with
  | Ret urlToPathMap =>
      size urlToPathMap
      <= sum_list_with (pairs Scenario.fresh_tokens)
           (rendered_html Scenario.fresh_tokens "o" "r"
              [Scenario.first_comment; Scenario.second_comment;
               Scenario.plain_comment]
              ([EFsMkdir downloadsDir], ∅))
      /\ (rendered_html Scenario.fresh_tokens "o" "r"
            [Scenario.first_comment; Scenario.second_comment;
             Scenario.plain_comment]
            ([EFsMkdir downloadsDir], ∅)).*1
         = [Scenario.first_comment; Scenario.second_comment;
            Scenario.plain_comment]
  | Throw e => fs_mkdir Scenario.fresh_tokens [] downloadsDir = Throw e
  end.
Proof.
  exact (entries_at_most_pairs Scenario.fresh_tokens "o" "r"
           [Scenario.first_comment; Scenario.second_comment;
            Scenario.plain_comment] []).
Defined.

(** C5. A comment whose body has no match of the attachment pattern is
    skipped entirely: the run is the same with and without it, and every
    HTML-rendering request of the run is the request of a comment that has
    at least one match. *)
Theorem no_render_without_match (w : World) (owner repo : string)
    (before after : list CommentWithImages) (comment : CommentWithImages)
    (t : trace) :
  image_urls w (body comment) = [] ->
  run (downloadCommentImages w owner repo (before ++ comment :: after)) t
  = run (downloadCommentImages w owner repo (before ++ after)) t
  /\ exists new,
      (run (downloadCommentImages w owner repo
              (before ++ comment :: after)) t).1
      = (new ++ t)%list
      /\ Forall (accounted w owner repo (before ++ after)) new.
Proof.
  intros Hnone.
  assert (commentsWithImages w (before ++ comment :: after)
          = commentsWithImages w (before ++ after)) as Hsame.
  { rewrite !commentsWithImages_app. simpl. by rewrite Hnone. }
  assert (run (downloadCommentImages w owner repo (before ++ comment :: after)) t
          = run (downloadCommentImages w owner repo (before ++ after)) t)
    as Hrun.
  { unfold run. rewrite !downloadCommentImages_cases.
    unfold after_loop. by rewrite Hsame. }
  split; [exact Hrun|]. rewrite Hrun.
  unfold run. rewrite downloadCommentImages_cases.
  destruct (fs_mkdir w t downloadsDir) as [[]|e]; simpl.
  - destruct (after_loop_grows w owner repo (before ++ after) t ∅)
      as (new & Hnew & Hall). simpl in Hnew.
    exists (new ++ [EFsMkdir downloadsDir])%list.
    split; [by rewrite Hnew, <- app_assoc|].
    apply Forall_app. split; [exact Hall|].
    constructor; [|constructor]. intros Hr. discriminate Hr.
  - exists [EFsMkdir downloadsDir]. split; [done|].
    constructor; [|constructor]. intros Hr. discriminate Hr.
Qed.

(** C5 at work: a comment without image between two that have one. *)
Lemma no_render_without_match_witness :
  run (downloadCommentImages Scenario.frozen_clock "o" "r"
         ([Scenario.first_comment]
          ++ Scenario.plain_comment :: [Scenario.second_comment])) []
  = run (downloadCommentImages Scenario.frozen_clock "o" "r"
           ([Scenario.first_comment] ++ [Scenario.second_comment])) [].
Proof.
  apply (no_render_without_match Scenario.frozen_clock "o" "r"
           [Scenario.first_comment] [Scenario.second_comment]
           Scenario.plain_comment []).
  reflexivity.
Defined.

End DownloaderClaims.

(** ** Context acquisition *)

Module FetcherFacts.
Import ImageDownloader Downloader Fetcher Rel EffFacts DownloaderFacts
  ResolutionFacts Spec FetchSpec FetchVocab.

Section Facts.
Variable w : World.
Variable toUpperCase : string -> string.
Variable toStringBeyond : Z -> string.
Variables owner repo prNumber : string.

Lemma fetch_comments_state t l :
  fetch_comments w toStringBeyond owner repo prNumber t l
  = (EIssuesListComments owner repo (parseInt prNumber) :: t,
     set_comments
       match issues_listComments w t owner repo (parseInt prNumber) with
       | Ret cs => map (to_comment toStringBeyond) cs
       | Throw _ => []
       end l,
     Ret tt).
Proof.
  unfold fetch_comments, try_catch, attempt, bind, request, ret,
    modify_locals. simpl.
  by destruct (issues_listComments w t owner repo (parseInt prNumber)).
Qed.

Lemma fetch_files_state t l :
  fetch_files w toUpperCase owner repo prNumber t l
  = (EPullsListFiles owner repo (parseInt prNumber) :: t,
     set_changedFiles
       match pulls_listFiles w t owner repo (parseInt prNumber) with
       | Ret fs => map (to_file toUpperCase) fs
       | Throw _ => []
       end l,
     Ret tt).
Proof.
  unfold fetch_files, try_catch, attempt, bind, request, ret,
    modify_locals. simpl.
  by destruct (pulls_listFiles w t owner repo (parseInt prNumber)).
Qed.

(** A failed entity fetch is rethrown after the one request. *)
Lemma fetch_entity_fails isPR t l :
  entity_fails w owner repo (parseInt prNumber) isPR t ->
  fetch_entity w toUpperCase toStringBeyond owner repo prNumber isPR t l
  = (entity_request owner repo (parseInt prNumber) isPR :: t, l,
     Throw (failed_to_fetch isPR)).
Proof.
  unfold entity_fails, entity_request, fetch_entity, try_catch, attempt,
    bind, request, ret, throw.
  destruct isPR; intros [e He]; simpl; rewrite He; reflexivity.
Qed.

(** After a successful entity fetch the variables hold the entity and
    what the sub-fetches yielded, an empty list where one failed. *)
Lemma fetch_entity_succeeds isPR t :
  entity_succeeds w owner repo (parseInt prNumber) isPR t ->
  exists l' c,
    fetch_entity w toUpperCase toStringBeyond owner repo prNumber isPR t
      initial
    = (after_fetches owner repo prNumber isPR t, l', Ret tt)
    /\ l_contextData l' = Some c
    /\ context_body c = entity_body w owner repo prNumber isPR t
    /\ l_comments l'
       = listed_comments w toStringBeyond owner repo prNumber isPR t
    /\ l_changedFiles l'
       = listed_files w toUpperCase owner repo prNumber isPR t
    /\ l_reviewData l' = (if isPR then Some [] else None).
Proof.
  unfold entity_succeeds, after_fetches, listed_comments, listed_files,
    entity_body, after_comments, after_entity, entity_request,
    fetch_entity.
  destruct isPR; intros [x Hx].
  - unfold try_catch, attempt. unfold bind at 1. unfold bind at 1.
    unfold request at 1. rewrite Hx.
    unfold bind at 1, modify_locals at 1. unfold bind at 1.
    rewrite fetch_comments_state. unfold bind at 1.
    rewrite fetch_files_state. unfold modify_locals, ret. simpl.
    eexists _, _. split; [reflexivity|]. simpl. done.
  - unfold try_catch, attempt. unfold bind at 1. unfold bind at 1.
    unfold request at 1. rewrite Hx.
    unfold bind at 1, modify_locals at 1.
    rewrite fetch_comments_state. unfold ret. simpl.
    eexists _, _. split; [reflexivity|]. simpl. done.
Qed.

(** Hashing never throws: a deleted file is not hashed, any other file
    costs one request, whatever it answers. *)
Lemma with_sha_exact f t l :
  exists s,
    with_sha w f t l
    = (((if String.eqb (changeType f) "DELETED" then []
         else [EGitHashObject (path f)]) ++ t)%list,
       l, Ret {| file := f; sha := s |})
    /\ sha_ok w {| file := f; sha := s |}.
Proof.
  unfold with_sha, sha_ok. cbn [file sha].
  destruct (String.eqb (changeType f) "DELETED"); [by eexists|].
  unfold try_catch, attempt, bind, request, ret. cbn [fst snd].
  destruct (git_hash_object w t (path f)) as [out|e] eqn:Hout;
    eexists; (split; [reflexivity|]); [right; eauto|by left].
Qed.

Lemma hashing_exact fs t l :
  exists out,
    map_each fs (with_sha w) t l
    = ((hash_requests fs ++ t)%list, l, Ret out)
    /\ map file out = fs /\ Forall (sha_ok w) out.
Proof.
  revert t. induction fs as [|f fs IH]; intros t.
  - by exists [].
  - destruct (with_sha_exact f t l) as (s & E1 & Hsha).
    destruct (IH ((if String.eqb (changeType f) "DELETED" then []
                   else [EGitHashObject (path f)]) ++ t)%list)
      as (out & E2 & Hfiles & Hall).
    exists ({| file := f; sha := s |} :: out).
    cbn [map_each hash_requests]. unfold bind at 1. rewrite E1.
    unfold bind at 1. rewrite E2. unfold ret.
    split; [by rewrite <- app_assoc|].
    split; [simpl; by rewrite Hfiles|by constructor].
Qed.

End Facts.
End FetcherFacts.

Module AssembleFacts.
Import Rel ImageDownloader Downloader Fetcher EffFacts DownloaderFacts
  ResolutionFacts RunFacts Spec FetchSpec FetchVocab FetcherFacts.

Section Facts.
Variable w : World.
Variables owner repo prNumber : string.

Lemma fetchUserDisplayName_state {L} triggerUsername t (l : L) :
  (if truthy_opt triggerUsername
   then fetchUserDisplayName w (default "" triggerUsername)
   else ret Undefined) t l
  = ((user_lookup triggerUsername ++ t)%list, l,
     Ret (display_name w triggerUsername t)).
Proof.
  unfold user_lookup, display_name, fetchUserDisplayName.
  destruct (truthy_opt triggerUsername); [|done].
  unfold try_catch, attempt, bind, request, ret. cbn [fst snd].
  by destruct (users_getByUsername w t (default "" triggerUsername)).
Qed.

(** What follows a successful entity fetch when no review has been
    stored: the changed files of a pull request are hashed, attachment
    resolution runs on the body of the entity and the comments, the
    trigger user is looked up, and the result is put together.  The one
    failure is that of the scratch directory. *)
Lemma assemble_exact (isPR : bool) triggerUsername t l c :
  l_contextData l = Some c ->
  l_reviewData l = (if isPR then Some [] else None) ->
  let files := if isPR then l_changedFiles l else [] in
  let t1 := (hash_requests files ++ t)%list in
  let set := (mainBody isPR prNumber c
              ++ issueComments (l_comments l))%list in
  exists out,
    map file out = files /\ Forall (sha_ok w) out
    /\ assemble w owner repo prNumber isPR triggerUsername t l
       = match fs_mkdir w t1 downloadsDir with
         | Throw e => (EFsMkdir downloadsDir :: t1, l, Throw e)
         | Ret _ =>
             let s := after_loop w owner repo set t1 ∅ in
             ((user_lookup triggerUsername ++ s.1)%list, l,
              Ret {| contextData := c;
                     comments := l_comments l;
                     changedFiles := l_changedFiles l;
                     changedFilesWithSHA := out;
                     reviewData := l_reviewData l;
                     imageUrlMap := s.2;
                     triggerDisplayName :=
                       display_name w triggerUsername s.1 |})
         end.
Proof.
  intros Hc Hrv files t1 set.
  assert (exists out,
    (if isPR && (0 <? length (l_changedFiles l))%nat
     then map_each (l_changedFiles l) (with_sha w) else ret []) t l
    = (t1, l, Ret out)
    /\ map file out = files /\ Forall (sha_ok w) out)
    as (out & E1 & Hout & Hsha).
  { unfold t1, files. destruct isPR; [|by exists []].
    destruct (l_changedFiles l) as [|f fs] eqn:Hfs; [by exists []|].
    change (true && (0 <? length (f :: fs))%nat) with true. cbv iota.
    apply hashing_exact. }
  exists out. split; [exact Hout|]. split; [exact Hsha|].
  unfold assemble. unfold bind at 1, get_locals. unfold bind at 1.
  rewrite E1, Hc. unfold bind at 1.
  assert ((mainBody isPR prNumber c ++ issueComments (l_comments l)
           ++ reviewBodies prNumber (l_reviewData l)
           ++ reviewComments (l_reviewData l))%list = set) as ->.
  { unfold set. rewrite Hrv. destruct isPR; simpl;
      by rewrite app_nil_r. }
  rewrite downloadCommentImages_cases.
  destruct (fs_mkdir w t1 downloadsDir) as [[]|e]; [|done].
  unfold bind at 1. rewrite fetchUserDisplayName_state. done.
Qed.

End Facts.
End AssembleFacts.

Module FetchRunFacts.
Import Rel ImageDownloader Downloader Fetcher EffFacts DownloaderFacts
  ResolutionFacts RunFacts Spec FetchSpec FetchVocab FetcherFacts
  AssembleFacts.

Section Facts.
Variable w : World.
Variable toUpperCase : string -> string.
Variable toStringBeyond : Z -> string.
Variables owner repo prNumber : string.

Lemma entity_fails_or_succeeds isPR t :
  entity_fails w owner repo (parseInt prNumber) isPR t
  \/ entity_succeeds w owner repo (parseInt prNumber) isPR t.
Proof.
  unfold entity_fails, entity_succeeds. destruct isPR.
  - destruct (pulls_get w t owner repo (parseInt prNumber)); eauto.
  - destruct (issues_get w t owner repo (parseInt prNumber)); eauto.
Qed.

Lemma run_entity_fails repository isPR triggerUsername more t :
  split "/" repository = owner :: repo :: more ->
  truthy owner = true ->
  truthy repo = true ->
  entity_fails w owner repo (parseInt prNumber) isPR t ->
  run (fetchGitHubData w toUpperCase toStringBeyond repository prNumber
         isPR triggerUsername) t
  = (entity_request owner repo (parseInt prNumber) isPR :: t,
     Throw (failed_to_fetch isPR)).
Proof.
  intros Hsplit Howner Hrepo Hfails.
  unfold run, fetchGitHubData, call, Fetcher.body.
  rewrite Hsplit. simpl. rewrite Howner, Hrepo. simpl.
  unfold bind at 1. by rewrite fetch_entity_fails.
Qed.

Lemma issueComments_listed cs :
  issueComments cs
  = map (fun c => IssueComment (databaseId c) (comment_body c))
        (filter (fun c => comment_body c <> "") cs).
Proof.
  unfold issueComments. f_equal. apply list_filter_iff.
  intros c. by destruct (comment_body c).
Qed.

(** One run on a repository name that yields an owner and a name, the
    entity being found. *)
Lemma run_entity_succeeds repository isPR triggerUsername more t :
  split "/" repository = owner :: repo :: more ->
  truthy owner = true ->
  truthy repo = true ->
  entity_succeeds w owner repo (parseInt prNumber) isPR t ->
  let cs := listed_comments w toStringBeyond owner repo prNumber isPR t in
  let files := listed_files w toUpperCase owner repo prNumber isPR t in
  let t1 := before_resolution w toUpperCase owner repo prNumber isPR t in
  let set := comment_set w toStringBeyond owner repo prNumber isPR t in
  exists c out,
    map file out = files /\ Forall (sha_ok w) out
    /\ run (fetchGitHubData w toUpperCase toStringBeyond repository
              prNumber isPR triggerUsername) t
       = match fs_mkdir w t1 downloadsDir with
         | Throw e => (EFsMkdir downloadsDir :: t1, Throw e)
         | Ret _ =>
             let s := after_loop w owner repo set t1 ∅ in
             ((user_lookup triggerUsername ++ s.1)%list,
              Ret {| contextData := c;
                     comments := cs;
                     changedFiles := files;
                     changedFilesWithSHA := out;
                     reviewData := if isPR then Some [] else None;
                     imageUrlMap := s.2;
                     triggerDisplayName :=
                       display_name w triggerUsername s.1 |})
         end.
Proof.
  intros Hsplit Howner Hrepo Hentity cs files t1 set.
  destruct (fetch_entity_succeeds w toUpperCase toStringBeyond owner repo
              prNumber isPR t Hentity)
    as (l' & c & Hfetch & Hc & Hbody & Hcs & Hfs & Hrv).
  destruct (assemble_exact w owner repo prNumber isPR triggerUsername
              (after_fetches owner repo prNumber isPR t) l' c Hc Hrv)
    as (out & Hout & Hsha & Hrun).
  assert ((if isPR then l_changedFiles l' else []) = files) as Hfiles.
  { rewrite Hfs. unfold files, listed_files. by destruct isPR. }
  assert ((mainBody isPR prNumber c ++ issueComments (l_comments l'))%list
          = set) as Hset.
  { unfold set, comment_set, entity_comment, mainBody.
    by rewrite Hbody, Hcs, issueComments_listed. }
  rewrite Hfiles, Hset in Hrun. rewrite Hfiles in Hout.
  exists c, out. split; [exact Hout|]. split; [exact Hsha|].
  unfold run, fetchGitHubData, call, Fetcher.body.
  rewrite Hsplit. simpl. rewrite Howner, Hrepo. simpl.
  unfold bind at 1. rewrite Hfetch, Hrun.
  change (hash_requests files
          ++ after_fetches owner repo prNumber isPR t)%list with t1.
  destruct (fs_mkdir w t1 downloadsDir) as [[]|e]; [|done].
  cbv zeta. by rewrite Hcs, Hfs, Hrv.
Qed.

End Facts.
End FetchRunFacts.

Module FetcherClaims.
Import Rel ImageDownloader Downloader Fetcher EffFacts DownloaderFacts
  ResolutionFacts RunFacts Spec FetchSpec FetcherFacts AssembleFacts
  FetchRunFacts.

(** C6. When the fetch of the primary entity fails, [fetchGitHubData]
    throws [Failed to fetch PR data] (or [issue data]) and the entity
    request is the only request it has sent: no comments are fetched, no
    file is hashed, no attachment is processed, nothing is returned. *)
Theorem entity_failure_is_fatal (w : World)
    (toUpperCase : string -> string) (toStringBeyond : Z -> string)
    (repository prNumber : string)
    (isPR : bool) (triggerUsername : option string)
    (owner repo : string) (more : list string) (t : trace) :
  split "/" repository = owner :: repo :: more ->
  truthy owner = true ->
  truthy repo = true ->
  entity_fails w owner repo (parseInt prNumber) isPR t ->
  run (fetchGitHubData w toUpperCase toStringBeyond repository prNumber
         isPR triggerUsername) t
  = (entity_request owner repo (parseInt prNumber) isPR :: t,
     Throw (JsError ("Failed to fetch " ++ (if isPR then "PR" else "issue")
                     ++ " data"))).
Proof.
  intros Hsplit Howner Hrepo Hfails.
  unfold run, fetchGitHubData, call, Fetcher.body.
  rewrite Hsplit. simpl. rewrite Howner, Hrepo. simpl.
  unfold bind at 1. by rewrite fetch_entity_fails.
Qed.

(** C6 at work: the pull request is not found. *)
Lemma entity_failure_witness :
  run (fetchGitHubData Scenario.clean_github Scenario.upper_str
         Scenario.exponent_form "o/r" "7" true (Some "dev")) []
  = ([EPullsGet "o" "r" (Some 7%Z)],
     Throw (JsError "Failed to fetch PR data")).
Proof.
  apply (entity_failure_is_fatal Scenario.clean_github Scenario.upper_str
           Scenario.exponent_form "o/r" "7" true (Some "dev") "o" "r" [] []);
    [reflexivity|reflexivity|reflexivity|].
  exists Scenario.not_found. reflexivity.
Defined.

(** C7. When the entity fetch succeeds and the comments fetch or the
    changed-files fetch fails, the failing fetch stands for an empty list
    and the rest of the pipeline runs as it does without a failure.
    Hashing: by the time attachment resolution is entered, one hash
    request has been sent for each listed file that is not deleted.
    Comment assembly: the comments handed on are the body of the entity,
    when not empty, and the listed comments with a body.  Attachment
    resolution: the scratch directory is made at that point; when that
    fails, its exception is the one the caller sees; otherwise the outer
    loop runs over the assembled comments, each of them that has a match
    is rendered, the trigger user is looked up, and the result holds the
    two lists, one hash entry per file and the map the loop built.  The
    exception of the sub-fetch reaches the caller in neither case. *)
Theorem sub_fetch_failure_is_contained (w : World)
    (toUpperCase : string -> string) (toStringBeyond : Z -> string)
    (repository prNumber : string)
    (isPR : bool) (triggerUsername : option string)
    (owner repo : string) (more : list string) (t : trace) :
  split "/" repository = owner :: repo :: more ->
  truthy owner = true ->
  truthy repo = true ->
  entity_succeeds w owner repo (parseInt prNumber) isPR t ->
  comments_fail w owner repo (parseInt prNumber)
    (after_entity owner repo (parseInt prNumber) isPR t)
  \/ files_fail w owner repo (parseInt prNumber) isPR
       (after_comments owner repo (parseInt prNumber) isPR t) ->
  let r := run (fetchGitHubData w toUpperCase toStringBeyond repository
                  prNumber isPR triggerUsername) t in
  let cs := listed_comments w toStringBeyond owner repo prNumber isPR t in
  let files := listed_files w toUpperCase owner repo prNumber isPR t in
  let t1 := before_resolution w toUpperCase owner repo prNumber isPR t in
  let set := comment_set w toStringBeyond owner repo prNumber isPR t in
  (comments_fail w owner repo (parseInt prNumber)
     (after_entity owner repo (parseInt prNumber) isPR t) ->
   cs = [] /\ set = entity_comment w owner repo prNumber isPR t)
  /\ (files_fail w owner repo (parseInt prNumber) isPR
        (after_comments owner repo (parseInt prNumber) isPR t) ->
      files = [] /\ t1 = after_fetches owner repo prNumber isPR t)
  /\ match fs_mkdir w t1 downloadsDir with
     | Throw e => r = (EFsMkdir downloadsDir :: t1, Throw e)
     | Ret _ =>
         r.1 = (user_lookup triggerUsername
                ++ (after_loop w owner repo set t1 ∅).1)%list
         /\ (forall c, c ∈ set -> image_urls w (ImageDownloader.body c) <> [] ->
                       render_request owner repo c ∈ r.1)
         /\ exists res,
             r.2 = Ret res
             /\ comments res = cs
             /\ changedFiles res = files
             /\ map file (changedFilesWithSHA res) = files
             /\ imageUrlMap res = (after_loop w owner repo set t1 ∅).2
     end.
Proof.
  intros Hsplit Howner Hrepo Hentity _ r cs files t1 set.
  split; [|split].
  - intros [e He]. unfold cs, set, comment_set, listed_comments.
    rewrite He. split; [done|]. simpl. by rewrite app_nil_r.
  - intros [-> [e He]]. unfold files, t1, before_resolution, listed_files.
    by rewrite He.
  - destruct (run_entity_succeeds w toUpperCase toStringBeyond owner repo
                prNumber repository isPR triggerUsername more t
                Hsplit Howner Hrepo Hentity)
      as (c & out & Hout & _ & Hrun).
    fold r t1 set cs files in Hrun. cbv zeta in Hrun.
    destruct (fs_mkdir w t1 downloadsDir) as [[]|e]; [|exact Hrun].
    rewrite Hrun. cbn [fst snd]. split; [done|]. split.
    + intros cm Hcm Hne. apply elem_of_app. right.
      by apply after_loop_renders.
    + eexists. split; [reflexivity|]. by cbn.
Qed.

(** C7 at work: the pull request is found with an image in its body, its
    comments cannot be listed; the changed file is hashed, the body is
    rendered and the image downloaded. *)
Lemma sub_fetch_failure_witness :
  (run (fetchGitHubData Scenario.pictured_comments_down Scenario.upper_str
          Scenario.exponent_form "o/r" "7" true None) []).1
  = [EFsWriteFile "/tmp/github-images/image-1700000000000-0.png" "PNG";
     EFetch "https://private-user-images.githubusercontent.com/7/shot.png?jwt=TOKEN";
     EDateNow;
     EPullsGetHtml "o" "r" (Some 7%Z);
     EFsMkdir "/tmp/github-images";
     EGitHashObject "src/a.ts";
     EPullsListFiles "o" "r" (Some 7%Z);
     EIssuesListComments "o" "r" (Some 7%Z);
     EPullsGet "o" "r" (Some 7%Z)].
Proof.
  destruct (sub_fetch_failure_is_contained Scenario.pictured_comments_down
              Scenario.upper_str Scenario.exponent_form "o/r" "7" true None
              "o" "r" [] [] eq_refl eq_refl eq_refl)
    as (_ & _ & H).
  - exists Scenario.pictured_pull. reflexivity.
  - left. exists (HttpError 502 "Bad Gateway"). reflexivity.
  - vm_compute in H. vm_compute. exact (proj1 H).
Defined.

End FetcherClaims.

Module PairFacts.
Import Rel ImageDownloader Downloader EffFacts DownloaderFacts ResolutionFacts
  RunFacts Spec StringFacts NameFacts.

Section Facts.
Variable w : World.
Variables owner repo : string.
Hypothesis Hdownloads : downloads_succeed w.

Lemma download_succeeds signedUrl originalUrl localPath t m :
  exists response data,
    fetch w t signedUrl = Ret response
    /\ Payload.arrayBuffer response = Ret data
    /\ download w signedUrl originalUrl localPath t m
       = (EFsWriteFile localPath data :: EFetch signedUrl :: t,
          <[originalUrl := localPath]> m, Ret tt).
Proof.
  destruct Hdownloads as [Hfetch Hwrite].
  destruct (Hfetch t signedUrl) as (r & data & Hr & Hok & Hdata).
  exists r, data. split; [done|]. split; [done|].
  unfold download, settle, try_catch, attempt, bind, request, ret,
    modify_locals. simpl.
  rewrite Hr. simpl. rewrite Hok. simpl. rewrite Hdata. simpl.
  rewrite Hwrite. simpl. done.
Qed.

(** A comment with one match, whose HTML has a signed URL, gets its
    image downloaded under a name made from the clock reading taken
    right after the HTML came back. *)
Lemma process_single c u html s more e t m :
  renders w owner repo c html ->
  signed_urls html = s :: more ->
  getImageExtension u = Ret e ->
  m !! u = None ->
  let t1 := render_request owner repo c :: t in
  let p := local_path (date_now w t1) 0 e in
  exists response data,
    fetch w (EDateNow :: t1) s = Ret response
    /\ Payload.arrayBuffer response = Ret data
    /\ process_comment w owner repo (c, [u]) t m
       = (EFsWriteFile p data :: EFetch s :: EDateNow :: t1,
          <[u := p]> m, Ret tt).
Proof.
  intros Hrender Hsigned Hext Hnone t1 p.
  assert (truthy html = true) as Hhtml.
  { destruct html; [discriminate Hsigned|done]. }
  assert (truthy s = true) as Hs.
  { pose proof (signed_urls_truthy html) as H. rewrite Hsigned in H.
    by inversion H. }
  pose proof (getImageExtension_truthy u e Hext) as Hu.
  destruct (download_succeeds s u p (EDateNow :: t1) m)
    as (r & data & Hr & Hdata & Hdl).
  exists r, data. split; [done|]. split; [done|].
  unfold process_comment, try_catch, attempt. unfold bind at 1.
  unfold bind at 1.
  pose proof (fetch_body_html_state w owner repo c t m) as Hst.
  specialize (Hrender t m).
  destruct (fetch_body_html w owner repo c t m) as [[t' m'] o].
  cbn [fst snd] in Hst, Hrender. injection Hst as -> ->. subst o.
  rewrite Hhtml, Hsigned.
  assert (Nat.min (length (s :: more)) (length [u]) = 1%nat) as ->
    by (simpl; lia).
  cbn [seq for_each]. unfold bind at 1.
  unfold download_pair. cbn [lookup list_lookup].
  rewrite Hs, Hu. cbn [negb orb].
  unfold bind at 1. unfold get_locals at 1. rewrite Hnone.
  cbn [bool_decide decide_rel is_Some_dec]. simpl bool_decide.
  unfold bind at 1. rewrite Hext. unfold settle, ret at 1.
  unfold bind at 1. unfold request at 1.
  match goal with
  | |- context [download w s u ?p' ?t' m] =>
      change (download w s u p' t' m)
        with (download w s u p (EDateNow :: t1) m)
  end.
  rewrite Hdl. done.
Qed.

End Facts.
End PairFacts.

Module NamingClaims.
Import Rel ImageDownloader Downloader EffFacts DownloaderFacts ResolutionFacts
  RunFacts Spec StringFacts NameFacts PairFacts.

(** C8 (amended). For a pair that is up for download (both URLs not
    empty, the original URL not yet mapped) [getImageExtension] works on
    the text after the last slash of the original URL, taken as a string,
    query and fragment included.  When that text is empty it throws
    [Invalid URL: No filename found], and the turn of the loop throws with
    it, before any request.  Otherwise it returns the recognized extension
    that text ends with (png, jpg, jpeg, gif, webp or svg in any case, as
    written in the URL), or [.png] when it ends with none, and the file of
    the pair is [/tmp/github-images/image-<clock>-<index>] followed by
    that extension: the turn is the download to that path. *)
Theorem extension_of_text_after_last_slash (w : World)
    (signedUrls urls : list string) (i : nat) (signedUrl url : string)
    (t : trace) (urlToPathMap : gmap string string) :
  signedUrls !! i = Some signedUrl ->
  urls !! i = Some url ->
  truthy signedUrl = true ->
  truthy url = true ->
  urlToPathMap !! url = None ->
  exists filename,
    (forall segment, after_last_slash url segment <-> segment = filename)
    /\ match getImageExtension url with
       | Throw e =>
           filename = "" /\ e = JsError "Invalid URL: No filename found"
           /\ download_pair w signedUrls urls i t urlToPathMap
              = (t, urlToPathMap, Throw e)
       | Ret ext =>
           filename <> ""
           /\ ((is_image_extension ext = true
                /\ exists stem, filename = stem ++ ext)
               \/ (ext = ".png"
                   /\ forall stem e, filename = stem ++ e ->
                                     is_image_extension e = false))
           /\ download_pair w signedUrls urls i t urlToPathMap
              = download w signedUrl url
                  ("/tmp/github-images/image-" ++ show_N (date_now w t)
                   ++ "-" ++ show_N (N.of_nat i) ++ ext)
                  (EDateNow :: t) urlToPathMap
       end.
Proof.
  intros Hs Hu Hsigned Hurl Hnone.
  assert (forall o,
            getImageExtension url = o ->
            download_pair w signedUrls urls i t urlToPathMap
            = match o with
              | Throw e => (t, urlToPathMap, Throw e)
              | Ret ext =>
                  download w signedUrl url
                    ("/tmp/github-images/image-" ++ show_N (date_now w t)
                     ++ "-" ++ show_N (N.of_nat i) ++ ext)
                    (EDateNow :: t) urlToPathMap
              end) as Hturn.
  { intros o Ho. unfold download_pair. rewrite Hs, Hu, Hsigned, Hurl.
    cbn [negb orb]. unfold bind at 1, get_locals at 1. rewrite Hnone.
    simpl bool_decide. cbv iota. unfold bind at 1. rewrite Ho.
    destruct o as [ext|e]; [|done]. unfold settle, ret at 1.
    unfold bind at 1, request at 1. done. }
  exists (List.last (split "/" url) ""). split.
  { intros segment. split; [apply after_last_slash_unique|].
    intros ->. apply last_split_after_slash. }
  specialize (Hturn _ eq_refl). revert Hturn. unfold getImageExtension.
  destruct (List.last (split "/" url) "") as [|c rest] eqn:Hlast;
    [done|].
  cbn [truthy negb]. rewrite <- Hlast.
  assert (List.last (split "/" url) "" <> "") as Hne by (by rewrite Hlast).
  destruct (extension_match (List.last (split "/" url) "")) as [m|] eqn:E;
    intros Hturn.
  - split; [done|]. split; [|exact Hturn].
    left. by apply extension_match_some.
  - split; [done|]. split; [|exact Hturn].
    right. split; [done|]. by apply extension_match_none.
Qed.

(** C8 (amended) at work: an extension before a query is not seen. *)
Lemma extension_witness :
  exists filename,
    (forall segment,
        after_last_slash Scenario.queried_url segment
        <-> segment = filename)
    /\ match getImageExtension Scenario.queried_url with
       | Throw e =>
           filename = "" /\ e = JsError "Invalid URL: No filename found"
           /\ download_pair Scenario.frozen_clock
                [Scenario.signed_url] [Scenario.queried_url] 0 [] ∅
              = ([], ∅, Throw e)
       | Ret ext =>
           filename <> ""
           /\ ((is_image_extension ext = true
                /\ exists stem, filename = stem ++ ext)
               \/ (ext = ".png"
                   /\ forall stem e, filename = stem ++ e ->
                                     is_image_extension e = false))
           /\ download_pair Scenario.frozen_clock
                [Scenario.signed_url] [Scenario.queried_url] 0 [] ∅
              = download Scenario.frozen_clock Scenario.signed_url
                  Scenario.queried_url
                  ("/tmp/github-images/image-"
                   ++ show_N (date_now Scenario.frozen_clock [])
                   ++ "-" ++ show_N (N.of_nat 0) ++ ext)
                  [EDateNow] ∅
       end.
Proof.
  apply (extension_of_text_after_last_slash Scenario.frozen_clock
           [Scenario.signed_url] [Scenario.queried_url] 0
           Scenario.signed_url Scenario.queried_url [] ∅);
    reflexivity.
Defined.

(** C8, as stated, fails twice.  The attachment pattern matches a URL
    that ends in a slash, and for it the derivation throws, so that
    nothing is downloaded.  And the extension is not that of the trailing
    path segment: with a query behind it [.jpg] goes unseen, and a slash
    inside the query moves the text that is looked at. *)
Lemma trailing_slash_has_no_extension :
  image_urls Scenario.clean_github (body Scenario.directory_comment)
  = [Scenario.directory_url]
  /\ getImageExtension Scenario.directory_url
     = Throw (JsError "Invalid URL: No filename found")
  /\ (run (downloadCommentImages Scenario.frozen_clock "o" "r"
             [Scenario.directory_comment]) []).2
     = Ret ∅
  /\ getImageExtension Scenario.queried_url = Ret ".png"
  /\ getImageExtension
       "https://github.com/user-attachments/assets/a.png?next=/b.WebP"
     = Ret ".WebP".
Proof. repeat split; reflexivity. Qed.




End NamingClaims.

(** * Further properties *)

(** ** Branch reconciliation: the other paths *)

Module BranchPaths.
Import BranchReconciler BranchSpec BranchFacts BranchVocab.

Section Facts.
Variable w : World.
Variables owner repo : string.

(** The deletion step sends one request, by dialect, and swallows what
    comes back. *)
Lemma delete_branch_state b t l :
  delete_branch w owner repo b t l
  = (deletion_request w owner repo b :: t, l, Ret tt).
Proof.
  unfold delete_branch, deletion_request. unfold_eff.
  destruct (isGiteaInstance w); simpl.
  - destruct (fetch_delete w t _ _) as [r|e]; simpl; [|reflexivity].
    destruct (negb (Payload.ok r)); reflexivity.
  - destruct (git_deleteRef w t owner repo _) as [[]|]; reflexivity.
Qed.

Lemma delete_and_return_marked b t :
  truthy b = true ->
  delete_and_return w owner repo (Some b) t marked
  = (deletion_request w owner repo b :: t, marked, Ret marked).
Proof.
  intros Hb. unfold delete_and_return. unfold bind at 1. unfold get_locals at 1.
  cbn [shouldDeleteBranch marked andb]. rewrite Hb. unfold bind.
  rewrite delete_branch_state. reflexivity.
Qed.

(** Every way the inspection of the working tree can go. *)
Lemma commit_uncommitted_spec b t :
  exists gits l',
    commit_uncommitted w owner repo b t initial
    = ((gits ++ t)%list, l', Ret tt)
    /\ Forall is_git gits
    /\ ((l' = marked /\ gits = [EGitStatus]
         /\ exists porcelain,
             git_status w t = Ret porcelain /\ trim porcelain = "")
        \/ l' = linked w owner repo b).
Proof.
  unfold commit_uncommitted. unfold_eff. simpl.
  destruct (git_status w t) as [out|e] eqn:Hst; simpl.
  2:{ exists [EGitStatus], (linked w owner repo b).
      split; [reflexivity|]. split; [by repeat constructor|by right]. }
  destruct (0 <? String.length (trim out))%nat eqn:Hlen; simpl.
  2:{ exists [EGitStatus], marked. split; [reflexivity|].
      split; [by repeat constructor|]. left. split; [done|].
      split; [done|]. exists out. split; [done|].
      apply Nat.ltb_ge in Hlen. destruct (trim out); [done|].
      simpl in Hlen. lia. }
  destruct (git_add w _); simpl.
  2:{ exists [EGitAdd; EGitStatus], (linked w owner repo b).
      split; [reflexivity|]. split; [by repeat constructor|by right]. }
  destruct (git_commit w _ _); simpl.
  2:{ eexists [EGitCommit _; EGitAdd; EGitStatus], (linked w owner repo b).
      split; [reflexivity|]. split; [by repeat constructor|by right]. }
  destruct (git_push w _ _); simpl.
  - eexists [EGitPush _; EGitCommit _; EGitAdd; EGitStatus],
      (linked w owner repo b).
    split; [reflexivity|]. split; [by repeat constructor|by right].
  - eexists [EGitPush _; EGitCommit _; EGitAdd; EGitStatus],
      (linked w owner repo b).
    split; [reflexivity|]. split; [by repeat constructor|by right].
Qed.

(** Every way the comparison of the heads can go. *)
Lemma compare_heads_spec b baseBranch useCommitSigning t :
  exists gits l',
    compare_heads w owner repo b baseBranch useCommitSigning t initial
    = ((gits ++ EReposGetBranch owner repo b
             :: EReposGetBranch owner repo baseBranch :: t)%list,
       l', Ret tt)
    /\ Forall is_git gits
    /\ ((l' = marked
         /\ evidence w owner repo b baseBranch useCommitSigning t gits)
        \/ l' = linked w owner repo b).
Proof.
  unfold compare_heads, getBranch. unfold_eff. simpl.
  destruct (repos_getBranch w t owner repo baseBranch) as [i1|e1] eqn:H1;
    simpl.
  2:{ exists [], (linked w owner repo b). split; [reflexivity|].
      split; [constructor|by right]. }
  destruct (repos_getBranch w _ owner repo b) as [i2|e2] eqn:H2; simpl.
  2:{ exists [], (linked w owner repo b). split; [reflexivity|].
      split; [constructor|by right]. }
  destruct (String.eqb_spec (Payload.commit_sha i1) (Payload.commit_sha i2))
    as [Hsha|Hsha]; simpl.
  2:{ exists [], (linked w owner repo b). split; [reflexivity|].
      split; [constructor|by right]. }
  destruct useCommitSigning; simpl.
  { exists [], marked. split; [reflexivity|]. split; [constructor|].
    left. split; [done|]. exists i1, i2.
    split; [done|]. split; [done|]. split; [done|]. by left. }
  match goal with
  | |- context [commit_uncommitted w owner repo b ?t' initial] =>
      destruct (commit_uncommitted_spec b t')
        as (gits & l' & E & Hgits & Hl); rewrite E
  end.
  exists gits, l'. split; [reflexivity|]. split; [done|].
  destruct Hl as [(-> & -> & out & Hout & Hblank)| ->]; [|by right].
  left. split; [done|]. exists i1, i2.
  split; [done|]. split; [done|]. split; [done|]. right. eauto.
Qed.

(** The run of the function for a branch that exists: the three reads,
    what git was asked, and a deletion request when the branch is
    marked. *)
Lemma run_existing b baseBranch useCommitSigning t i0 :
  truthy b = true ->
  repos_getBranch w t owner repo b = Ret i0 ->
  exists gits l',
    Forall is_git gits
    /\ ((l' = marked
         /\ evidence w owner repo b baseBranch useCommitSigning
              (EReposGetBranch owner repo b :: t) gits)
        \/ l' = linked w owner repo b)
    /\ run (checkAndCommitOrDeleteBranch w owner repo (Some b) baseBranch
              useCommitSigning) t
       = ((if shouldDeleteBranch l'
           then [deletion_request w owner repo b] else [])
          ++ gits ++ heads_read owner repo b baseBranch t, Ret l')%list.
Proof.
  intros Hb H0.
  destruct (compare_heads_spec b baseBranch useCommitSigning
              (EReposGetBranch owner repo b :: t))
    as (gits & l' & Hcmp & Hgits & Hl).
  exists gits, l'. split; [done|]. split; [done|].
  unfold run, checkAndCommitOrDeleteBranch, call.
  rewrite (body_existing_eq w owner repo b baseBranch useCommitSigning t
             i0 Hb H0).
  unfold bind. rewrite Hcmp.
  destruct Hl as [[-> _]| ->].
  - rewrite (delete_and_return_marked b _ Hb). reflexivity.
  - rewrite delete_and_return_unmarked by reflexivity. reflexivity.
Qed.

Section Heads.
Variables (b baseBranch : string) (t : trace).
Variables (base claude : Payload.Branch).
Hypothesis Hbase : repos_getBranch w t owner repo baseBranch = Ret base.
Hypothesis Hclaude :
  repos_getBranch w (EReposGetBranch owner repo baseBranch :: t)
    owner repo b = Ret claude.

Lemma compare_heads_diverged useCommitSigning :
  Payload.commit_sha base <> Payload.commit_sha claude ->
  compare_heads w owner repo b baseBranch useCommitSigning t initial
  = (EReposGetBranch owner repo b
     :: EReposGetBranch owner repo baseBranch :: t,
     linked w owner repo b, Ret tt).
Proof.
  intros Hsha. unfold compare_heads, getBranch. unfold_eff. simpl.
  rewrite Hbase. simpl. rewrite Hclaude. simpl.
  apply String.eqb_neq in Hsha. rewrite Hsha. reflexivity.
Qed.

Lemma compare_heads_signing :
  Payload.commit_sha base = Payload.commit_sha claude ->
  compare_heads w owner repo b baseBranch true t initial
  = (EReposGetBranch owner repo b
     :: EReposGetBranch owner repo baseBranch :: t, marked, Ret tt).
Proof.
  intros Hsha. unfold compare_heads, getBranch. unfold_eff. simpl.
  rewrite Hbase. simpl. rewrite Hclaude. simpl.
  rewrite Hsha, String.eqb_refl. reflexivity.
Qed.

Lemma compare_heads_unsigned :
  Payload.commit_sha base = Payload.commit_sha claude ->
  compare_heads w owner repo b baseBranch false t initial
  = commit_uncommitted w owner repo b
      (EReposGetBranch owner repo b
       :: EReposGetBranch owner repo baseBranch :: t) initial.
Proof.
  intros Hsha. unfold compare_heads, getBranch. unfold_eff.
  cbv beta. rewrite Hbase. cbv beta iota. rewrite Hclaude.
  cbv beta iota. cbn [fst snd]. rewrite Hsha, String.eqb_refl.
  cbn [negb].
  destruct (commit_uncommitted_spec b
              (EReposGetBranch owner repo b
               :: EReposGetBranch owner repo baseBranch :: t))
    as (gits & l' & -> & _). reflexivity.
Qed.
End Heads.

Lemma commit_uncommitted_dirty b t porcelain :
  git_status w t = Ret porcelain ->
  trim porcelain <> "" ->
  git_add w (EGitStatus :: t) = Ret tt ->
  git_commit w (EGitAdd :: EGitStatus :: t) (commit_message w) = Ret tt ->
  git_push w (EGitCommit (commit_message w) :: EGitAdd :: EGitStatus :: t)
    b = Ret tt ->
  commit_uncommitted w owner repo b t initial
  = (EGitPush b :: EGitCommit (commit_message w) :: EGitAdd
     :: EGitStatus :: t,
     linked w owner repo b, Ret tt).
Proof.
  intros Hst Hdirty Hadd Hcommit Hpush.
  unfold commit_uncommitted. unfold_eff. simpl. rewrite Hst. simpl.
  assert ((0 <? String.length (trim porcelain))%nat = true) as ->.
  { destruct (trim porcelain); [done|reflexivity]. }
  simpl. rewrite Hadd. simpl. fold (commit_message w).
  rewrite Hcommit. simpl. rewrite Hpush. reflexivity.
Qed.

Lemma run_compared b baseBranch useCommitSigning t i0 t' l' :
  truthy b = true ->
  repos_getBranch w t owner repo b = Ret i0 ->
  compare_heads w owner repo b baseBranch useCommitSigning
    (EReposGetBranch owner repo b :: t) initial = (t', l', Ret tt) ->
  run (checkAndCommitOrDeleteBranch w owner repo (Some b) baseBranch
         useCommitSigning) t
  = ((if shouldDeleteBranch l'
      then [deletion_request w owner repo b] else []) ++ t', Ret l')%list.
Proof.
  intros Hb H0 Hcmp. unfold run, checkAndCommitOrDeleteBranch, call.
  rewrite (body_existing_eq w owner repo b baseBranch useCommitSigning t
             i0 Hb H0).
  unfold bind. rewrite Hcmp. unfold delete_and_return.
  unfold bind at 1, get_locals at 1. rewrite Hb, andb_true_r.
  unfold bind, get_locals.
  destruct (shouldDeleteBranch l'); [|reflexivity].
  by rewrite delete_branch_state.
Qed.

Lemma run_unrequested claudeBranch baseBranch useCommitSigning t :
  truthy_opt claudeBranch = false ->
  run (checkAndCommitOrDeleteBranch w owner repo claudeBranch baseBranch
         useCommitSigning) t
  = (t, Ret initial).
Proof.
  intros Hb. unfold run, checkAndCommitOrDeleteBranch, call, body.
  destruct claudeBranch as [b|]; simpl in Hb; [rewrite Hb|];
    by rewrite delete_and_return_unmarked.
Qed.

Lemma run_missing b baseBranch useCommitSigning t e :
  truthy b = true ->
  repos_getBranch w t owner repo b = Throw e ->
  run (checkAndCommitOrDeleteBranch w owner repo (Some b) baseBranch
         useCommitSigning) t
  = (EReposGetBranch owner repo b :: t, Ret initial).
Proof.
  intros Hb He. unfold run, checkAndCommitOrDeleteBranch, call, body,
    getBranch. rewrite Hb. unfold_eff. rewrite He. reflexivity.
Qed.

Lemma not_deletion_git gits :
  Forall is_git gits -> Forall (fun e => is_deletion e = false) gits.
Proof. intros H. eapply Forall_impl; [exact H|]. by intros []. Qed.

End Facts.
End BranchPaths.

Module BranchExtras.
Import BranchReconciler BranchSpec BranchFacts BranchVocab BranchPaths.

(** X1. Without a working branch (none given, or the empty name) the
    function returns [{false, ""}] and sends no request at all. *)
Theorem no_branch_no_request (w : World) (owner repo : string)
    (claudeBranch : option string) (baseBranch : string)
    (useCommitSigning : bool) (t : trace) :
  truthy_opt claudeBranch = false ->
  run (checkAndCommitOrDeleteBranch w owner repo claudeBranch baseBranch
         useCommitSigning) t
  = (t, Ret {| shouldDeleteBranch := false; branchLink := "" |}).
Proof. apply run_unrequested. Qed.

(** X1 at work: the empty branch name. *)
Lemma no_branch_witness :
  run (checkAndCommitOrDeleteBranch Scenario.clean_github "o" "r" (Some "")
         "main" false) []
  = ([], Ret {| shouldDeleteBranch := false; branchLink := "" |}).
Proof.
  apply (no_branch_no_request Scenario.clean_github "o" "r" (Some "") "main"
           false []).
  reflexivity.
Defined.

(** X2. When the request that looks the branch up fails (404 or anything
    else), the function returns [{false, ""}]; that request is the only
    one it sends: the heads are not compared and nothing is deleted. *)
Theorem missing_branch_is_left_alone (w : World) (owner repo : string)
    (claudeBranch baseBranch : string) (useCommitSigning : bool)
    (t : trace) (e : exn) :
  truthy claudeBranch = true ->
  repos_getBranch w t owner repo claudeBranch = Throw e ->
  run (checkAndCommitOrDeleteBranch w owner repo (Some claudeBranch)
         baseBranch useCommitSigning) t
  = (EReposGetBranch owner repo claudeBranch :: t,
     Ret {| shouldDeleteBranch := false; branchLink := "" |}).
Proof. apply run_missing. Qed.

(** X2 at work: a platform on which no branch can be read. *)
Lemma missing_branch_witness :
  run (checkAndCommitOrDeleteBranch Scenario2.no_branches "o" "r"
         (Some "claude/issue-1") "main" false) []
  = ([EReposGetBranch "o" "r" "claude/issue-1"],
     Ret {| shouldDeleteBranch := false; branchLink := "" |}).
Proof.
  apply (missing_branch_is_left_alone Scenario2.no_branches "o" "r"
           "claude/issue-1" "main" false [] Scenario.not_found);
    reflexivity.
Defined.

(** X3. When the two heads differ, the function returns the link built
    by [createBranchLink] and does not mark the branch; it sends the
    three branch reads and nothing else: git is not run and no deletion
    is requested, with or without commit signing. *)
Theorem diverged_branch_is_linked (w : World) (owner repo : string)
    (claudeBranch baseBranch : string) (useCommitSigning : bool)
    (t : trace) (existing base claude : Payload.Branch) :
  truthy claudeBranch = true ->
  repos_getBranch w t owner repo claudeBranch = Ret existing ->
  repos_getBranch w (EReposGetBranch owner repo claudeBranch :: t)
    owner repo baseBranch = Ret base ->
  repos_getBranch w
    (EReposGetBranch owner repo baseBranch
     :: EReposGetBranch owner repo claudeBranch :: t)
    owner repo claudeBranch = Ret claude ->
  Payload.commit_sha base <> Payload.commit_sha claude ->
  run (checkAndCommitOrDeleteBranch w owner repo (Some claudeBranch)
         baseBranch useCommitSigning) t
  = (heads_read owner repo claudeBranch baseBranch t,
     Ret {| shouldDeleteBranch := false;
            branchLink :=
              Links.createBranchLink w owner repo claudeBranch |}).
Proof.
  intros Hb H0 H1 H2 Hsha.
  rewrite (run_compared w owner repo claudeBranch baseBranch
             useCommitSigning t existing _ _ Hb H0
             (compare_heads_diverged w owner repo claudeBranch baseBranch
                _ base claude H1 H2 useCommitSigning Hsha)).
  reflexivity.
Qed.

(** X3 at work: the agent has committed; signing is on. *)
Lemma diverged_branch_witness :
  run (checkAndCommitOrDeleteBranch Scenario2.diverged "o" "r"
         (Some "claude/issue-1") "main" true) []
  = (heads_read "o" "r" "claude/issue-1" "main" [],
     Ret {| shouldDeleteBranch := false;
            branchLink :=
              Links.createBranchLink Scenario2.diverged "o" "r"
                "claude/issue-1" |}).
Proof.
  apply (diverged_branch_is_linked Scenario2.diverged "o" "r"
           "claude/issue-1" "main" true []
           {| Payload.commit_sha := "9f8e7d" |}
           {| Payload.commit_sha := "0a1b2c" |}
           {| Payload.commit_sha := "9f8e7d" |});
    [reflexivity|reflexivity|reflexivity|reflexivity|discriminate].
Defined.

(** X4. With commit signing on and equal heads, the branch is marked
    for deletion without looking at the working tree: after the three
    branch reads the only request is the deletion, a [DELETE] on the
    branches endpoint with the encoded name for Gitea, [deleteRef] of
    [heads/<branch>] for GitHub, and its answer does not matter. *)
Theorem signed_empty_branch_is_deleted (w : World) (owner repo : string)
    (claudeBranch baseBranch : string) (t : trace)
    (existing base claude : Payload.Branch) :
  truthy claudeBranch = true ->
  repos_getBranch w t owner repo claudeBranch = Ret existing ->
  repos_getBranch w (EReposGetBranch owner repo claudeBranch :: t)
    owner repo baseBranch = Ret base ->
  repos_getBranch w
    (EReposGetBranch owner repo baseBranch
     :: EReposGetBranch owner repo claudeBranch :: t)
    owner repo claudeBranch = Ret claude ->
  Payload.commit_sha base = Payload.commit_sha claude ->
  run (checkAndCommitOrDeleteBranch w owner repo (Some claudeBranch)
         baseBranch true) t
  = ((if isGiteaInstance w then
        EFetchDelete
          (show_env (GITEA_API_URL w) ++ "/repos/" ++ owner ++ "/" ++ repo
           ++ "/branches/" ++ Uri.encodeURIComponent claudeBranch)
          ("token " ++ show_env (GITHUB_TOKEN w))
      else EGitDeleteRef owner repo ("heads/" ++ claudeBranch))
     :: heads_read owner repo claudeBranch baseBranch t,
     Ret {| shouldDeleteBranch := true; branchLink := "" |}).
Proof.
  intros Hb H0 H1 H2 Hsha.
  rewrite (run_compared w owner repo claudeBranch baseBranch true t
             existing _ _ Hb H0
             (compare_heads_signing w owner repo claudeBranch baseBranch
                _ base claude H1 H2 Hsha)).
  reflexivity.
Qed.

(** X4 at work: Gitea, a branch name with a slash. *)
Lemma signed_empty_branch_witness :
  run (checkAndCommitOrDeleteBranch Scenario2.gitea "o" "r"
         (Some "claude/issue-1") "main" true) []
  = ([EFetchDelete
        "https://git.example/api/v1/repos/o/r/branches/claude%2Fissue-1"
        "token secret";
      EReposGetBranch "o" "r" "claude/issue-1";
      EReposGetBranch "o" "r" "main";
      EReposGetBranch "o" "r" "claude/issue-1"],
     Ret {| shouldDeleteBranch := true; branchLink := "" |}).
Proof.
  apply (signed_empty_branch_is_deleted Scenario2.gitea "o" "r"
           "claude/issue-1" "main" []
           {| Payload.commit_sha := "0a1b2c" |}
           {| Payload.commit_sha := "0a1b2c" |}
           {| Payload.commit_sha := "0a1b2c" |}); reflexivity.
Defined.

(** X5. With equal heads, signing off and a working tree that is not
    clean, the function runs [git add -A], commits with the message that
    carries the run number, pushes the branch, in this order, and when
    all three succeed returns the branch link without marking the branch;
    no deletion is requested. *)
Theorem dirty_tree_is_committed_and_linked (w : World)
    (owner repo : string) (claudeBranch baseBranch : string) (t : trace)
    (existing base claude : Payload.Branch) (porcelain : string) :
  truthy claudeBranch = true ->
  repos_getBranch w t owner repo claudeBranch = Ret existing ->
  repos_getBranch w (EReposGetBranch owner repo claudeBranch :: t)
    owner repo baseBranch = Ret base ->
  repos_getBranch w
    (EReposGetBranch owner repo baseBranch
     :: EReposGetBranch owner repo claudeBranch :: t)
    owner repo claudeBranch = Ret claude ->
  Payload.commit_sha base = Payload.commit_sha claude ->
  git_status w (heads_read owner repo claudeBranch baseBranch t)
  = Ret porcelain ->
  trim porcelain <> "" ->
  git_add w (EGitStatus :: heads_read owner repo claudeBranch baseBranch t)
  = Ret tt ->
  git_commit w
    (EGitAdd :: EGitStatus
     :: heads_read owner repo claudeBranch baseBranch t)
    (commit_message w) = Ret tt ->
  git_push w
    (EGitCommit (commit_message w) :: EGitAdd :: EGitStatus
     :: heads_read owner repo claudeBranch baseBranch t)
    claudeBranch = Ret tt ->
  run (checkAndCommitOrDeleteBranch w owner repo (Some claudeBranch)
         baseBranch false) t
  = (EGitPush claudeBranch
     :: EGitCommit
          ("Auto-commit: Save uncommitted changes from Claude" ++ LF ++ LF
           ++ "Run ID: " ++ or_default (GITHUB_RUN_NUMBER w) "unknown")
     :: EGitAdd :: EGitStatus
     :: heads_read owner repo claudeBranch baseBranch t,
     Ret {| shouldDeleteBranch := false;
            branchLink :=
              Links.createBranchLink w owner repo claudeBranch |}).
Proof.
  intros Hb H0 H1 H2 Hsha Hst Hdirty Hadd Hcommit Hpush.
  assert (compare_heads w owner repo claudeBranch baseBranch false
            (EReposGetBranch owner repo claudeBranch :: t) initial
          = (EGitPush claudeBranch :: EGitCommit (commit_message w)
             :: EGitAdd :: EGitStatus
             :: heads_read owner repo claudeBranch baseBranch t,
             linked w owner repo claudeBranch, Ret tt)) as Hcmp.
  { rewrite (compare_heads_unsigned w owner repo claudeBranch baseBranch
               _ base claude H1 H2 Hsha).
    by apply (commit_uncommitted_dirty w owner repo claudeBranch _
                porcelain). }
  rewrite (run_compared w owner repo claudeBranch baseBranch false t
             existing _ _ Hb H0 Hcmp).
  reflexivity.
Qed.

(** X5 at work: one modified file. *)
Lemma dirty_tree_witness :
  (run (checkAndCommitOrDeleteBranch Scenario2.dirty_github "o" "r"
          (Some "claude/issue-1") "main" false) []).2
  = Ret {| shouldDeleteBranch := false;
           branchLink :=
             Links.createBranchLink Scenario2.dirty_github "o" "r"
               "claude/issue-1" |}.
Proof.
  rewrite (dirty_tree_is_committed_and_linked Scenario2.dirty_github
             "o" "r" "claude/issue-1" "main" []
             {| Payload.commit_sha := "0a1b2c" |}
             {| Payload.commit_sha := "0a1b2c" |}
             {| Payload.commit_sha := "0a1b2c" |} (" M a.ts" ++ LF));
    try reflexivity.
  discriminate.
Defined.

(** X6. The branch is marked for deletion only on evidence that it
    holds no work: the branch was found, both heads were read and are
    equal, and either commit signing is on or [git status] answered with
    nothing but white space.  In every other case, failures included, it
    is not marked. *)
Theorem deletion_is_decided_on_evidence (w : World) (owner repo : string)
    (claudeBranch : option string) (baseBranch : string)
    (useCommitSigning : bool) (t : trace) (r : Disposition) :
  (run (checkAndCommitOrDeleteBranch w owner repo claudeBranch baseBranch
          useCommitSigning) t).2 = Ret r ->
  shouldDeleteBranch r = true ->
  exists b existing gits,
    claudeBranch = Some b /\ truthy b = true
    /\ repos_getBranch w t owner repo b = Ret existing
    /\ evidence w owner repo b baseBranch useCommitSigning
         (EReposGetBranch owner repo b :: t) gits.
Proof.
  intros Hrun Hmarked.
  destruct (truthy_opt claudeBranch) eqn:Hb.
  2:{ rewrite run_unrequested in Hrun by done. injection Hrun as <-.
      discriminate Hmarked. }
  destruct claudeBranch as [b|]; [simpl in Hb|discriminate Hb].
  destruct (repos_getBranch w t owner repo b) as [existing|e] eqn:H0.
  2:{ rewrite (run_missing w owner repo b baseBranch useCommitSigning t e
                 Hb H0) in Hrun.
      injection Hrun as <-. discriminate Hmarked. }
  destruct (run_existing w owner repo b baseBranch useCommitSigning t
              existing Hb H0) as (gits & l' & _ & Hl & Hr).
  rewrite Hr in Hrun. injection Hrun as <-.
  destruct Hl as [[-> Hev]| ->]; [|discriminate Hmarked].
  by exists b, existing, gits.
Qed.

(** X6 at work: the clean working tree. *)
Lemma deletion_evidence_witness :
  exists b existing gits,
    Some "claude/issue-1" = Some b /\ truthy b = true
    /\ repos_getBranch Scenario.clean_github [] "o" "r" b = Ret existing
    /\ evidence Scenario.clean_github "o" "r" b "main" false
         [EReposGetBranch "o" "r" b] gits.
Proof.
  apply (deletion_is_decided_on_evidence Scenario.clean_github "o" "r"
           (Some "claude/issue-1") "main" false []
           {| shouldDeleteBranch := true; branchLink := "" |});
    reflexivity.
Defined.

(** X7. A deletion request is sent exactly when the function returns
    [shouldDeleteBranch] true: then it is the last request of the run,
    the one of the dialect for the working branch, and the only deletion
    request; otherwise the run contains no deletion request.  The
    function always returns. *)
Theorem deletion_request_iff_marked (w : World) (owner repo : string)
    (claudeBranch : option string) (baseBranch : string)
    (useCommitSigning : bool) (t : trace) :
  exists new r,
    run (checkAndCommitOrDeleteBranch w owner repo claudeBranch baseBranch
           useCommitSigning) t
    = ((new ++ t)%list, Ret r)
    /\ if shouldDeleteBranch r then
         exists b earlier,
           claudeBranch = Some b
           /\ new = deletion_request w owner repo b :: earlier
           /\ Forall (fun e => is_deletion e = false) earlier
       else Forall (fun e => is_deletion e = false) new.
Proof.
  destruct (truthy_opt claudeBranch) eqn:Hb.
  2:{ exists [], initial. rewrite run_unrequested by done.
      split; [reflexivity|]. constructor. }
  destruct claudeBranch as [b|]; [simpl in Hb|discriminate Hb].
  destruct (repos_getBranch w t owner repo b) as [existing|e] eqn:H0.
  2:{ exists [EReposGetBranch owner repo b], initial.
      rewrite (run_missing w owner repo b baseBranch useCommitSigning t e
                 Hb H0).
      split; [reflexivity|]. by repeat constructor. }
  destruct (run_existing w owner repo b baseBranch useCommitSigning t
              existing Hb H0) as (gits & l' & Hgits & Hl & ->).
  pose proof (not_deletion_git gits Hgits) as Hnd.
  assert (Forall (fun e => is_deletion e = false)
            (gits ++ [EReposGetBranch owner repo b;
                      EReposGetBranch owner repo baseBranch;
                      EReposGetBranch owner repo b])) as Hearlier.
  { apply Forall_app. split; [done|]. by repeat constructor. }
  destruct Hl as [[-> _]| ->].
  - eexists (deletion_request w owner repo b :: gits ++ _)%list, marked.
    split; [|exists b; eexists; split; [done|]; split; [done|]; exact Hearlier].
    simpl. unfold heads_read. by rewrite <- app_assoc.
  - eexists (gits ++ _)%list, (linked w owner repo b).
    split; [|exact Hearlier].
    simpl. unfold heads_read. by rewrite <- app_assoc.
Qed.

(** X8. A non-empty link returned by the function is exactly the text
    that [createBranchLink] of the comment templates builds for the
    working branch. *)
Theorem link_is_createBranchLink (w : World) (owner repo : string)
    (claudeBranch : option string) (baseBranch : string)
    (useCommitSigning : bool) (t : trace) (r : Disposition) :
  (run (checkAndCommitOrDeleteBranch w owner repo claudeBranch baseBranch
          useCommitSigning) t).2 = Ret r ->
  branchLink r <> "" ->
  exists b,
    claudeBranch = Some b
    /\ branchLink r = Links.createBranchLink w owner repo b.
Proof.
  intros Hrun Hlink.
  destruct (truthy_opt claudeBranch) eqn:Hb.
  2:{ rewrite run_unrequested in Hrun by done. injection Hrun as <-.
      by destruct Hlink. }
  destruct claudeBranch as [b|]; [simpl in Hb|discriminate Hb].
  destruct (repos_getBranch w t owner repo b) as [existing|e] eqn:H0.
  2:{ rewrite (run_missing w owner repo b baseBranch useCommitSigning t e
                 Hb H0) in Hrun.
      injection Hrun as <-. by destruct Hlink. }
  destruct (run_existing w owner repo b baseBranch useCommitSigning t
              existing Hb H0) as (gits & l' & _ & Hl & Hr).
  rewrite Hr in Hrun. injection Hrun as <-.
  destruct Hl as [[-> _]| ->]; [by destruct Hlink|]. by exists b.
Qed.

(** X8 at work: the base branch cannot be read. *)
Lemma link_witness :
  exists b,
    Some "claude/issue-1" = Some b
    /\ LF ++ "[View branch](https://github.com/o/r/tree/claude/issue-1)"
       = Links.createBranchLink Scenario.flaky_github "o" "r" b.
Proof.
  apply (link_is_createBranchLink Scenario.flaky_github "o" "r"
           (Some "claude/issue-1") "main" false []
           {| shouldDeleteBranch := false;
              branchLink :=
                LF ++ "[View branch](https://github.com/o/r/tree/claude/issue-1)" |});
    [reflexivity|discriminate].
Defined.

End BranchExtras.


(** ** Attachment resolution: entries, failures, shapes *)

Module ResolverFacts.
Import Rel ImageDownloader Downloader EffFacts DownloaderFacts
  ResolutionFacts RunFacts Spec StringFacts NameFacts ResolverVocab.

Global Instance keeps_entries_preorder w comments :
  PreOrder (keeps_entries w comments).
Proof.
  split.
  - intros s. split; [by exists []|done].
  - intros s1 s2 s3 [(n1 & E1) H1] [(n2 & E2) H2]. split; [|auto].
    exists (n2 ++ n1)%list. rewrite E2, E1. apply app_assoc.
Qed.

Lemma written_grows w t new path :
  written w t path -> written w (new ++ t)%list path.
Proof.
  intros (later & before & s & r & data & -> & H).
  exists (new ++ later)%list, before, s, r, data.
  split; [by rewrite <- app_assoc|done].
Qed.

Lemma entry_ok_grows w comments t new url path :
  entry_ok w comments t url path ->
  entry_ok w comments (new ++ t)%list url path.
Proof.
  intros (Hc & Hp & Hw). split; [done|]. split; [done|].
  by apply written_grows.
Qed.

Lemma getImageExtension_recognized url ext :
  getImageExtension url = Ret ext -> is_image_extension ext = true.
Proof.
  unfold getImageExtension.
  destruct (negb (truthy (List.last (split "/" url) ""))); [done|].
  destruct (extension_match _) as [m|] eqn:E.
  - intros [= <-]. by apply extension_match_some in E as [H _].
  - by intros [= <-].
Qed.

Section Facts.
Variable w : World.
Variables owner repo : string.

(** A download: the fetch is its first request; the pair is recorded
    only once the file has been written. *)
Lemma download_refined signedUrl originalUrl localPath t m :
  let r := download w signedUrl originalUrl localPath t m in
  r.2 = Ret tt
  /\ (exists new,
        r.1.1 = (new ++ t)%list /\ length (filter is_fetch new) = 1%nat)
  /\ (r.1.2 = m
      \/ (r.1.2 = <[originalUrl := localPath]> m
          /\ written w r.1.1 localPath)).
Proof.
  unfold download, settle, try_catch, attempt, bind, request, ret, throw,
    modify_locals. simpl.
  destruct (fetch w t signedUrl) as [resp|e] eqn:Hf; simpl.
  2:{ split; [done|]. split; [by exists [EFetch signedUrl]|by left]. }
  destruct (Payload.ok resp) eqn:Hok; simpl.
  2:{ split; [done|]. split; [by exists [EFetch signedUrl]|by left]. }
  destruct (Payload.arrayBuffer resp) as [buffer|e] eqn:Hb; simpl.
  2:{ split; [done|]. split; [by exists [EFetch signedUrl]|by left]. }
  destruct (fs_writeFile w _ localPath buffer) as [[]|e] eqn:Hw; simpl.
  - split; [done|].
    split; [by exists [EFsWriteFile localPath buffer; EFetch signedUrl]|].
    right. split; [done|].
    by exists [], t, signedUrl, resp, buffer.
  - split; [done|].
    split; [by exists [EFsWriteFile localPath buffer; EFetch signedUrl]|].
    by left.
Qed.

(** One turn of the inner loop, with the name of the file. *)
Lemma download_pair_refined signedUrls urls i t m :
  let r := download_pair w signedUrls urls i t m in
  r = (t, m, Ret tt)
  \/ (exists e, r = (t, m, Throw e))
  \/ (exists signedUrl originalUrl ext,
        signedUrls !! i = Some signedUrl /\ urls !! i = Some originalUrl
        /\ m !! originalUrl = None
        /\ getImageExtension originalUrl = Ret ext
        /\ r = download w signedUrl originalUrl
                 (local_path (date_now w t) i ext) (EDateNow :: t) m).
Proof.
  unfold download_pair.
  destruct (signedUrls !! i) as [signedUrl|] eqn:Hs; [|by left].
  destruct (urls !! i) as [originalUrl|] eqn:Hu; [|by left].
  destruct (negb (truthy signedUrl) || negb (truthy originalUrl));
    [by left|].
  unfold bind, get_locals, settle, request, ret, throw.
  destruct (m !! originalUrl) as [p|] eqn:Hhas; simpl; [by left|].
  destruct (getImageExtension originalUrl) as [ext|e] eqn:Hext; simpl.
  - right; right. by exists signedUrl, originalUrl, ext.
  - right; left. by exists e.
Qed.

Lemma download_pair_keeps_entries comments c signedUrls i :
  c ∈ comments ->
  preserves (keeps_entries w comments)
            (download_pair w signedUrls (image_urls w (body c)) i).
Proof.
  intros Hc t m.
  destruct (download_pair_refined signedUrls (image_urls w (body c)) i t m)
    as [->|[[e ->]|(s & u & ext & _ & Hu & Hnone & Hext & ->)]];
    try reflexivity.
  destruct (download_refined s u (local_path (date_now w t) i ext)
              (EDateNow :: t) m) as (_ & (new & Hnew & _) & Hmap).
  destruct (download w s u _ (EDateNow :: t) m) as [[t' m'] o].
  cbn [fst snd] in *. subst t'. split.
  { exists (new ++ [EDateNow])%list. by rewrite <- app_assoc. }
  intros Hinv url path Hlook. cbn [fst snd] in *.
  destruct Hmap as [->|[-> Hw]].
  - change (new ++ EDateNow :: t)%list with (new ++ [EDateNow] ++ t)%list.
    rewrite app_assoc. apply entry_ok_grows. by apply Hinv.
  - destruct (decide (url = u)) as [->|Hne].
    + rewrite lookup_insert_eq in Hlook. injection Hlook as <-.
      split; [|split; [|done]].
      * exists c. split; [done|]. apply list_elem_of_lookup. eauto.
      * exists (date_now w t), i, ext. split; [done|].
        by eapply getImageExtension_recognized.
    + rewrite lookup_insert_ne in Hlook by done.
      change (new ++ EDateNow :: t)%list with (new ++ [EDateNow] ++ t)%list.
      rewrite app_assoc. apply entry_ok_grows. by apply Hinv.
Qed.

Lemma process_comment_keeps_entries comments c :
  c ∈ comments ->
  preserves (keeps_entries w comments)
            (process_comment w owner repo (c, image_urls w (body c))).
Proof.
  intros Hc. unfold process_comment.
  apply preserves_try_catch; [apply _| |intros; apply preserves_ret; apply _].
  apply preserves_bind; [apply _| |].
  - intros t m. rewrite fetch_body_html_state. split.
    + by exists [render_request owner repo c].
    + intros Hinv url path Hlook.
      apply (entry_ok_grows w comments t [render_request owner repo c]).
      by apply Hinv.
  - intros [html|]; [|apply preserves_ret; apply _].
    destruct (truthy html); [|apply preserves_ret; apply _].
    apply preserves_for_each; [apply _|].
    intros i _. by apply download_pair_keeps_entries.
Qed.

Lemma after_loop_entries comments t :
  entries_ok w comments (after_loop w owner repo comments t ∅).
Proof.
  unfold after_loop.
  assert (preserves (keeps_entries w comments)
            (for_each (commentsWithImages w comments)
               (process_comment w owner repo))) as H.
  { apply preserves_for_each; [apply _|]. intros [c urls] Hin.
    destruct (commentsWithImages_spec w comments c urls Hin)
      as (Hc & -> & _).
    by apply process_comment_keeps_entries. }
  destruct (H (EFsMkdir downloadsDir :: t) ∅) as [_ Hinv].
  apply Hinv. intros url path Hlook. cbn in Hlook.
  by rewrite lookup_empty in Hlook.
Qed.

(** A comment without usable HTML costs one request and changes
    nothing. *)
Lemma process_comment_unrendered c urls t m :
  match (fetch_body_html w owner repo c t m).2 with
  | Ret (Some html) => truthy html = false
  | _ => True
  end ->
  process_comment w owner repo (c, urls) t m
  = (render_request owner repo c :: t, m, Ret tt).
Proof.
  intros Hno. unfold process_comment, try_catch, attempt, bind, ret.
  pose proof (fetch_body_html_state w owner repo c t m) as Hst.
  destruct (fetch_body_html w owner repo c t m) as [[t1 m1] o].
  cbn [fst snd] in *. injection Hst as -> ->.
  destruct o as [[html|]|e]; [|done|done]. by rewrite Hno.
Qed.

Lemma outer_loop_unrendered entries t m :
  never_renders w owner repo ->
  for_each entries (process_comment w owner repo) t m
  = ((rev (map (fun entry => render_request owner repo entry.1) entries)
      ++ t)%list, m, Ret tt).
Proof.
  intros Hno. revert t.
  induction entries as [|[c urls] entries IH]; intros t; [done|].
  cbn [for_each]. unfold bind.
  rewrite process_comment_unrendered by apply Hno.
  rewrite IH. cbn [map rev fst]. by rewrite <- app_assoc.
Qed.

(** The inner loop from index [k] on, when no URL from [k] on is
    mapped yet and the URLs are pairwise distinct: every turn
    fetches. *)
Lemma inner_loop_attempts signedUrls urls :
  NoDup urls ->
  Forall (fun s => truthy s = true) signedUrls ->
  (forall u, u ∈ urls -> exists ext, getImageExtension u = Ret ext) ->
  forall len k t m,
    (k + len <= Nat.min (length signedUrls) (length urls))%nat ->
    (forall j u, (k <= j)%nat -> urls !! j = Some u -> m !! u = None) ->
    exists new m',
      for_each (seq k len) (download_pair w signedUrls urls) t m
      = ((new ++ t)%list, m', Ret tt)
      /\ length (filter is_fetch new) = len.
Proof.
  intros Hnodup Hsigned Hext.
  induction len as [|len IH]; intros k t m Hk Hfree.
  { exists [], m. by split. }
  cbn [seq for_each]. unfold bind.
  destruct (lookup_lt_is_Some_2 signedUrls k) as [s Hs]; [lia|].
  destruct (lookup_lt_is_Some_2 urls k) as [u Hu]; [lia|].
  destruct (Hext u) as [ext He]; [apply list_elem_of_lookup; eauto|].
  destruct (download_pair_refined signedUrls urls k t m)
    as [Hr|[[e Hr]|(s' & u' & ext' & Hs' & Hu' & _ & He' & ->)]].
  - exfalso. revert Hr. unfold download_pair. rewrite Hs, Hu.
    rewrite (proj1 (Forall_lookup _ _) Hsigned k s Hs).
    rewrite (getImageExtension_truthy u ext He). cbn [negb orb].
    unfold bind, get_locals, settle, request, ret.
    rewrite (Hfree k u (le_n k) Hu). simpl. rewrite He. simpl.
    destruct (download_refined s u (local_path (date_now w t) k ext)
                (EDateNow :: t) m) as (_ & (new & Hnew & _) & _).
    destruct (download w s u _ (EDateNow :: t) m) as [[t' m'] o].
    cbn [fst snd] in Hnew. subst t'. intros [= Ht _ _].
    apply (f_equal length) in Ht. rewrite length_app in Ht.
    simpl in Ht. lia.
  - exfalso. revert Hr. unfold download_pair. rewrite Hs, Hu.
    rewrite (proj1 (Forall_lookup _ _) Hsigned k s Hs).
    rewrite (getImageExtension_truthy u ext He). cbn [negb orb].
    unfold bind, get_locals, settle, request, ret.
    rewrite (Hfree k u (le_n k) Hu). simpl. rewrite He. simpl.
    destruct (download_refined s u (local_path (date_now w t) k ext)
                (EDateNow :: t) m) as (Ho & _).
    destruct (download w s u _ (EDateNow :: t) m) as [[t' m'] o].
    cbn [fst snd] in Ho. subst o. discriminate.
  - rewrite Hs in Hs'. rewrite Hu in Hu'.
    injection Hs' as <-. injection Hu' as <-.
    destruct (download_refined s u (local_path (date_now w t) k ext')
                (EDateNow :: t) m) as (Ho & (new1 & Hnew1 & Hcount) & Hmap).
    destruct (download w s u _ (EDateNow :: t) m) as [[t1 m1] o1].
    cbn [fst snd] in Ho, Hnew1, Hmap. subst o1 t1.
    destruct (IH (S k) (new1 ++ EDateNow :: t)%list m1) as (new2 & m2 & -> & Hc2).
    { lia. }
    { intros j u' Hj Hu'.
      destruct Hmap as [->|[-> _]]; [apply (Hfree j); [lia|done]|].
      rewrite lookup_insert_ne; [apply (Hfree j); [lia|done]|].
      intros ->.
      pose proof (NoDup_lookup _ _ _ _ Hnodup Hu Hu'). lia. }
    exists (new2 ++ new1 ++ [EDateNow])%list, m2. split.
    + by rewrite <- !app_assoc.
    + rewrite !filter_app, !length_app, Hc2, Hcount. simpl. lia.
Qed.

(** Everything the resolver fetches is a signed URL. *)
Lemma download_pair_fetches html urls i :
  preserves (grows_by fetches_signed_host)
            (download_pair w (signed_urls html) urls i).
Proof.
  intros t m.
  destruct (download_pair_refined (signed_urls html) urls i t m)
    as [->|[[e ->]|(s & u & ext & Hs & _ & _ & _ & ->)]];
    try reflexivity.
  assert (fetches_signed_host (EFetch s)) as Hhost.
  { assert (s ∈ signed_urls html) as Hin
      by (apply list_elem_of_lookup; eauto).
    revert Hin. unfold signed_urls.
    assert (Forall (fun s => exists rest, s = SIGNED_HOST ++ rest)
              (matchAll signedUrlRegex 0 html)) as Hall.
    { apply matchAll_Forall. intros s0 found rest. unfold signedUrlRegex.
      destruct (strip_prefix SIGNED_HOST s0) as [s1|]; [|done].
      destruct (span (is_not DQUOTE) s1) as [run_ rest'].
      destruct run_ as [|x run']; [done|].
      destruct (has_jwt run'); [|done]. intros [= <- _]. eauto. }
    intros Hin. by apply (proj1 (Forall_forall _ _) Hall). }
  unfold download, settle, try_catch, attempt, bind, request, ret, throw,
    modify_locals. simpl.
  destruct (fetch w _ s) as [resp|e]; simpl.
  2:{ exists [EFetch s; EDateNow]. split; [done|]. by repeat constructor. }
  destruct (negb (Payload.ok resp)); simpl.
  { exists [EFetch s; EDateNow]. split; [done|]. by repeat constructor. }
  destruct (Payload.arrayBuffer resp) as [buffer|e]; simpl.
  2:{ exists [EFetch s; EDateNow]. split; [done|]. by repeat constructor. }
  destruct (fs_writeFile w _ _ buffer); simpl;
    (eexists [EFsWriteFile _ buffer; EFetch s; EDateNow];
     split; [done|]; by repeat constructor).
Qed.

Lemma process_comment_fetches entry :
  preserves (grows_by fetches_signed_host)
            (process_comment w owner repo entry).
Proof.
  destruct entry as [c urls]. unfold process_comment.
  apply preserves_try_catch; [apply _| |intros; apply preserves_ret; apply _].
  apply preserves_bind; [apply _| |].
  - intros t m. rewrite fetch_body_html_state.
    exists [render_request owner repo c]. split; [done|].
    constructor; [by destruct c|constructor].
  - intros [html|]; [|apply preserves_ret; apply _].
    destruct (truthy html); [|apply preserves_ret; apply _].
    apply preserves_for_each; [apply _|].
    intros i _. apply download_pair_fetches.
Qed.

End Facts.
Lemma grows_by_cons {L} (P : event -> Prop) e t (l l' : L) :
  P e -> grows_by P (t, l) (e :: t, l').
Proof. intros He. exists [e]. split; [done|]. by repeat constructor. Qed.

Section Requests.
Variable w : World.
Variables owner repo : string.

Lemma process_comment_requests c urls :
  preserves (grows_by (fun e => e = render_request owner repo c
                                \/ is_download e))
            (process_comment w owner repo (c, urls)).
Proof.
  unfold process_comment.
  apply preserves_try_catch; [apply _| |intros; apply preserves_ret; apply _].
  apply preserves_bind; [apply _| |].
  - intros t m. rewrite fetch_body_html_state.
    apply grows_by_cons. by left.
  - intros [html|]; [|apply preserves_ret; apply _].
    destruct (truthy html); [|apply preserves_ret; apply _].
    apply preserves_for_each; [apply _|].
    intros i _ t m. eapply grows_by_weaken; [|apply download_pair_grows].
    intros e He. by right.
Qed.

(** The requests of the outer loop: renderings of comments of the set
    and downloads. *)
Lemma after_loop_requests comments t m :
  exists new,
    (after_loop w owner repo comments t m).1
    = (new ++ EFsMkdir downloadsDir :: t)%list
    /\ Forall (fun e => (exists c, c ∈ comments
                                  /\ e = render_request owner repo c)
                        \/ is_download e) new.
Proof.
  unfold after_loop.
  apply (preserves_for_each
           (grows_by (fun e => (exists c, c ∈ comments
                                        /\ e = render_request owner repo c)
                               \/ is_download e))).
  intros [c urls] Hin t1 m1.
  destruct (commentsWithImages_spec w comments c urls Hin) as (Hc & _).
  eapply grows_by_weaken; [|apply process_comment_requests].
  intros e [->|He]; [left; by exists c|by right].
Qed.

Lemma downloadCommentImages_requests {L} comments t (l : L) :
  grows_by (resolver_request owner repo comments) (t, l)
           (downloadCommentImages w owner repo comments t l).1.
Proof.
  rewrite downloadCommentImages_cases.
  destruct (fs_mkdir w t downloadsDir) as [[]|e]; cbn [fst snd];
    [|apply grows_by_cons; by left].
  destruct (after_loop_requests comments t ∅) as (new & -> & Hall).
  exists (new ++ [EFsMkdir downloadsDir])%list.
  split; [by rewrite <- app_assoc|].
  apply Forall_app. split; [|constructor; [by left|constructor]].
  eapply Forall_impl; [exact Hall|]. intros e He. by right.
Qed.
End Requests.

End ResolverFacts.
Module ResolverExtras.
Import Rel ImageDownloader Downloader EffFacts DownloaderFacts
  ResolutionFacts RunFacts Spec StringFacts NameFacts ResolverVocab
  ResolverFacts.

Local Arguments String.append : simpl nomatch.

Lemma span_forall f s a b :
  span f s = (a, b) -> string_forall f a = true /\ s = a ++ b.
Proof.
  revert a b. induction s as [|c s IH]; intros a b; simpl.
  - by intros [= <- <-].
  - destruct (f c) eqn:Hc; [|by intros [= <- <-]].
    destruct (span f s) as [a' b']. intros [= <- <-].
    destruct (IH a' b' eq_refl) as [Ha ->]. simpl. by rewrite Hc, Ha.
Qed.

Lemma forall_is_not c s :
  string_forall (is_not c) s = true -> occurs c s = false.
Proof.
  induction s as [|x s IH]; [done|]. simpl. unfold is_not at 1.
  intros [Hx Hs]%andb_true_iff. rewrite (IH Hs).
  by destruct (Ascii.eqb x c).
Qed.

(** X9. Every URL the attachment pattern yields is the attachment path
    of the platform ([/user-attachments/assets/] under the server URL for
    GitHub, [/attachments/] for Gitea) followed by a remainder that is not
    empty and holds no closing parenthesis; the URL as a whole holds none
    when the server URL holds none. *)
Theorem matched_urls_are_attachments (w : World) (body_ url : string) :
  url ∈ image_urls w body_ ->
  exists target,
    url = attachment_prefix w ++ target
    /\ target <> "" /\ occurs ")" target = false
    /\ (occurs ")" (getServerUrl w) = false -> occurs ")" url = false).
Proof.
  unfold image_urls, IMAGE_REGEX.
  assert (Forall (fun u => exists target,
                    u = attachment_prefix w ++ target
                    /\ target <> "" /\ occurs ")" target = false)
            (matchAll (createImageRegex w) 0 body_)) as Hall.
  { apply matchAll_Forall. intros s found rest. unfold createImageRegex.
    destruct (strip_prefix "![" s) as [s1|]; [|done].
    destruct (span (is_not "]") s1) as [alt s2].
    destruct (strip_prefix "](" s2) as [s3|]; [|done].
    destruct (strip_prefix (attachment_prefix w) s3) as [s4|]; [|done].
    destruct (span (is_not ")") s4) as [target s5] eqn:Hspan.
    destruct target as [|c target]; [done|].
    destruct (strip_prefix ")" s5) as [s6|]; [|done].
    intros [= <- _]. exists (String c target). split; [done|].
    split; [done|]. apply forall_is_not.
    by apply span_forall in Hspan as [H _]. }
  intros Hin.
  destruct (proj1 (Forall_forall _ _) Hall url Hin)
    as (target & -> & Hne & Hno).
  exists target. repeat split; try done.
  intros Hserver. rewrite occurs_append, Hno, orb_false_r.
  unfold attachment_prefix.
  destruct (isGiteaInstance w); by rewrite occurs_append, Hserver.
Qed.

(** X9 at work. *)
Lemma matched_url_witness :
  exists target,
    Scenario.first_url = attachment_prefix Scenario.clean_github ++ target
    /\ target <> "" /\ occurs ")" target = false
    /\ (occurs ")" (getServerUrl Scenario.clean_github) = false ->
        occurs ")" Scenario.first_url = false).
Proof.
  apply (matched_urls_are_attachments Scenario.clean_github
           (body Scenario.first_comment) Scenario.first_url).
  assert (image_urls Scenario.clean_github (body Scenario.first_comment)
          = [Scenario.first_url]) as -> by (vm_compute; reflexivity).
  left.
Defined.

(** X10. Every entry of the map the function returns has as key a URL
    matched in one of the comments, and as value a file of the scratch
    directory named [image-<clock>-<index><extension>] with a recognized
    image extension, that was written, successfully, with the bytes of a
    successful fetch, before the function returned. *)
Theorem entries_name_written_files (w : World) (owner repo : string)
    (comments : list CommentWithImages) (t : trace)
    (urlToPathMap : gmap string string) (url path : string) :
  (run (downloadCommentImages w owner repo comments) t).2
  = Ret urlToPathMap ->
  urlToPathMap !! url = Some path ->
  (exists c, c ∈ comments /\ url ∈ image_urls w (body c))
  /\ (exists now i ext,
        path = downloadsDir ++ "/image-" ++ show_N now ++ "-"
               ++ show_N (N.of_nat i) ++ ext
        /\ is_image_extension ext = true)
  /\ written w (run (downloadCommentImages w owner repo comments) t).1 path.
Proof.
  unfold run. rewrite downloadCommentImages_cases.
  destruct (fs_mkdir w t downloadsDir) as [[]|e]; [|done].
  cbn [fst snd]. intros [= <-] Hlook.
  exact (after_loop_entries w owner repo comments t url path Hlook).
Qed.

(** X10 at work: the image of the first comment. *)
Lemma entries_witness :
  written Scenario.ticking_clock
    (run (downloadCommentImages Scenario.ticking_clock "o" "r"
            [Scenario.first_comment]) []).1
    "/tmp/github-images/image-1700000000002-0.png".
Proof.
  eapply (entries_name_written_files Scenario.ticking_clock "o" "r"
            [Scenario.first_comment] [] _ Scenario.first_url).
  - reflexivity.
  - vm_compute. reflexivity.
Defined.



(** X12. One image failing does not stop the others: for pairwise
    distinct URLs, none of them mapped yet, the inner loop never throws
    and sends one fetch per pair, as many as the shorter of the two lists
    has, whatever the fetches and writes answer. *)
Theorem every_pair_is_attempted (w : World) (signedUrls urls : list string)
    (t : trace) (urlToPathMap : gmap string string) :
  NoDup urls ->
  Forall (fun s => truthy s = true) signedUrls ->
  (forall u, u ∈ urls -> exists ext, getImageExtension u = Ret ext) ->
  (forall u, u ∈ urls -> urlToPathMap !! u = None) ->
  exists new urlToPathMap',
    for_each (seq 0 (Nat.min (length signedUrls) (length urls)))
      (download_pair w signedUrls urls) t urlToPathMap
    = ((new ++ t)%list, urlToPathMap', Ret tt)
    /\ length (filter is_fetch new)
       = Nat.min (length signedUrls) (length urls).
Proof.
  intros Hnodup Hsigned Hext Hfree.
  apply (inner_loop_attempts w signedUrls urls Hnodup Hsigned Hext);
    [lia|].
  intros j u _ Hu. apply Hfree. apply list_elem_of_lookup. eauto.
Qed.

(** X12 at work: two images, every fetch refused. *)
Lemma every_pair_witness :
  exists new urlToPathMap',
    for_each (seq 0 2)
      (download_pair Scenario2.refusing
         ["https://private-user-images.githubusercontent.com/1/a?jwt=A";
          "https://private-user-images.githubusercontent.com/2/b?jwt=B"]
         [Scenario.first_url; Scenario.second_url]) [] ∅
    = ((new ++ [])%list, urlToPathMap', Ret tt)
    /\ length (filter is_fetch new) = 2%nat.
Proof.
  apply (every_pair_is_attempted Scenario2.refusing
           ["https://private-user-images.githubusercontent.com/1/a?jwt=A";
            "https://private-user-images.githubusercontent.com/2/b?jwt=B"]
           [Scenario.first_url; Scenario.second_url] [] ∅).
  - apply (bool_decide_unpack _). vm_compute. exact I.
  - by repeat constructor.
  - intros u Hu. exists ".png".
    apply elem_of_cons in Hu as [->|Hu]; [reflexivity|].
    apply list_elem_of_singleton in Hu as ->. reflexivity.
  - intros u _. apply lookup_empty.
Defined.


(** X14. When no comment has a match (in particular when there is no
    comment) the function only makes the scratch directory: it returns the
    empty map, or throws what [fs.mkdir] threw. *)
Theorem no_images_only_mkdir (w : World) (owner repo : string)
    (comments : list CommentWithImages) (t : trace) :
  Forall (fun c => image_urls w (body c) = []) comments ->
  run (downloadCommentImages w owner repo comments) t
  = (EFsMkdir downloadsDir :: t,
     match fs_mkdir w t downloadsDir with
     | Ret _ => Ret ∅
     | Throw e => Throw e
     end).
Proof.
  intros Hnone.
  assert (commentsWithImages w comments = []) as Hempty.
  { induction Hnone as [|c cs Hc _ IH]; [done|]. simpl. by rewrite Hc. }
  unfold run. rewrite downloadCommentImages_cases. unfold after_loop.
  rewrite Hempty. by destruct (fs_mkdir w t downloadsDir) as [[]|e].
Qed.

(** X14 at work. *)
Lemma no_images_witness :
  run (downloadCommentImages Scenario.frozen_clock "o" "r"
         [Scenario.plain_comment]) []
  = ([EFsMkdir downloadsDir], Ret ∅).
Proof.
  apply (no_images_only_mkdir Scenario.frozen_clock "o" "r"
           [Scenario.plain_comment] []).
  by repeat constructor.
Defined.

(** X15. Attachment resolution sends nothing but the request for the
    scratch directory, rendering requests of comments of the set it was
    given, clock readings, fetches and file writes. *)
Theorem resolution_sends_only_these (w : World) (owner repo : string)
    (comments : list CommentWithImages) (t : trace) :
  exists new,
    (run (downloadCommentImages w owner repo comments) t).1
    = (new ++ t)%list
    /\ Forall (resolver_request owner repo comments) new.
Proof.
  destruct (downloadCommentImages_requests w owner repo comments t tt)
    as (new & Hnew & Hall).
  exists new. split; [|done]. unfold run.
  by destruct (downloadCommentImages w owner repo comments t ())
    as [[t' l'] o].
Qed.

End ResolverExtras.

(** ** Context acquisition: requests, results, failures *)

Module IdFacts.
Import Spec NameFacts.

Local Arguments String.append : simpl nomatch.

Lemma digit_of_pretty_N_char d :
  (d < 10)%N -> digit_of 10 (pretty_N_char d) = Some (Z.of_N d).
Proof.
  intros Hd.
  destruct d as [|p]; [done|].
  do 4 (destruct p as [p|p|]; try done; try lia).
Qed.

Lemma digits_go_pretty_N_go x s :
  (0 < x)%N ->
  digits_go 10 None (pretty_N_go x s) = digits_go 10 (Some (Z.of_N x)) s.
Proof.
  revert s. induction (N.lt_wf_0 x) as [x _ IH]; intros s Hpos.
  rewrite pretty_N_go_step by done.
  pose proof (N.mod_lt x 10 ltac:(lia)) as Hmod.
  pose proof (N.div_mod x 10 ltac:(lia)) as Hdiv.
  assert (x `div` 10 = 0 \/ 0 < x `div` 10)%N as [Hz|Hq] by lia.
  - rewrite Hz, pretty_N_go_0. cbn [digits_go].
    rewrite digit_of_pretty_N_char by done. do 2 f_equal. lia.
  - rewrite IH; [|by apply N.div_lt|done]. cbn [digits_go].
    rewrite digit_of_pretty_N_char by done. do 2 f_equal. lia.
Qed.

(** On a string of digits [parseInt] reads base ten from the first
    unit on. *)
Lemma parseInt_digits s :
  all_digits s = true -> parseInt s = digits_go 10 None s.
Proof.
  destruct s as [|c s]; [done|].
  destruct c as [[] [] [] [] [] [] [] []]; try done;
    intros Hs; cbn [all_digits Ascii.is_nat] in Hs;
    try (unfold parseInt; cbn [trimStart is_white];
         by destruct (digits_go 10 None _)).
  unfold parseInt. cbn [trimStart is_white].
  destruct s as [|c s]; [done|].
  destruct c as [[] [] [] [] [] [] [] []]; try done;
    by destruct (digits_go 10 None _).
Qed.

Lemma parseInt_minus_digits s :
  all_digits s = true ->
  parseInt (String "-" s) = Z.opp <$> digits_go 10 None s.
Proof.
  intros Hs. unfold parseInt. cbn [trimStart is_white].
  destruct s as [|c s]; [done|].
  destruct c as [[] [] [] [] [] [] [] []]; try done;
    cbn [all_digits Ascii.is_nat] in Hs;
    try by destruct (digits_go 10 None _).
  destruct s as [|c s]; [done|].
  destruct c as [[] [] [] [] [] [] [] []]; try done;
    by destruct (digits_go 10 None _).
Qed.

Lemma pretty_Npos p :
  pretty (N.pos p) = pretty_N_go (N.pos p) "".
Proof. unfold pretty, pretty_N. by case_decide. Qed.

(** [parseInt] reads back the integer that [toString] has printed. *)
Lemma parseInt_show_Z z : parseInt (show_Z z) = Some z.
Proof.
  destruct z as [|p|p].
  - done.
  - change (show_Z (Z.pos p)) with (show_N (N.pos p)).
    rewrite parseInt_digits by apply show_N_digits.
    unfold show_N. rewrite pretty_Npos, digits_go_pretty_N_go by lia. done.
  - change (show_Z (Z.neg p)) with (String "-" (show_N (N.pos p))).
    rewrite parseInt_minus_digits by apply show_N_digits.
    unfold show_N. rewrite pretty_Npos, digits_go_pretty_N_go by lia. done.
Qed.

(** For a safe integer the printed number reads back as itself. *)
Lemma parseInt_number_toString beyond z :
  safe_integer z = true -> parseInt (number_toString beyond z) = Some z.
Proof.
  intros Hsafe. unfold number_toString. rewrite Hsafe.
  apply parseInt_show_Z.
Qed.

End IdFacts.

Module FetchRuns.
Import Rel ImageDownloader Downloader Fetcher EffFacts DownloaderFacts
  ResolutionFacts RunFacts Spec FetchSpec FetcherFacts AssembleFacts
  FetchRunFacts StringFacts ResolverVocab ResolverFacts FetchVocab IdFacts.

Local Arguments String.append : simpl nomatch.

Lemma split_at_first_separator sep front rest :
  occurs sep front = false ->
  split sep (front ++ String sep rest) = front :: split sep rest.
Proof.
  induction front as [|c front IH]; simpl.
  - intros _. by rewrite Ascii.eqb_refl.
  - intros [Hc Hfront]%orb_false_iff. by rewrite Hc, (IH Hfront).
Qed.

Lemma hash_requests_spec fs e :
  e ∈ hash_requests fs ->
  exists f, f ∈ fs /\ changeType f <> "DELETED"
            /\ e = EGitHashObject (path f).
Proof.
  induction fs as [|f fs IH]; [by intros ?%elem_of_nil|].
  cbn [hash_requests]. intros [Hin|Hin]%elem_of_app.
  - destruct (IH Hin) as (f' & Hf' & Hnd & ->).
    exists f'. split; [by right|done].
  - destruct (String.eqb_spec (changeType f) "DELETED") as [Hd|Hd];
      [by apply elem_of_nil in Hin|].
    apply list_elem_of_singleton in Hin as ->.
    exists f. split; [left|done].
Qed.

Section Facts.
Variable w : World.
Variable toUpperCase : string -> string.
Variable toStringBeyond : Z -> string.
Variables owner repo prNumber : string.

(** Each comment handed to attachment resolution is a comment that was
    listed, with a body, and is rendered under the number read from its
    printed identifier. *)
Lemma issueComments_spec cs c :
  c ∈ issueComments (map (to_comment toStringBeyond) cs) ->
  exists pc,
    pc ∈ cs /\ Payload.cm_body pc = Some (ImageDownloader.body c)
    /\ ImageDownloader.body c <> ""
    /\ render_request owner repo c
       = EIssuesGetCommentHtml owner repo
           (parseInt (number_toString toStringBeyond (Payload.cm_id pc))).
Proof.
  unfold issueComments.
  intros (gc & -> & Hgc)%list_elem_of_fmap.
  apply list_elem_of_filter in Hgc as [Htruthy Hgc].
  apply list_elem_of_fmap in Hgc as (pc & -> & Hpc).
  exists pc. split; [done|]. cbn [ImageDownloader.body render_request
    to_comment databaseId comment_body] in *.
  unfold or_default in *.
  destruct (Payload.cm_body pc) as [b|]; [|done].
  destruct (truthy b) eqn:Hb; [|done].
  repeat split. by destruct b.
Qed.

Lemma comment_set_requests isPR triggerUsername t c :
  c ∈ comment_set w toStringBeyond owner repo prNumber isPR t ->
  fetch_request w toUpperCase owner repo (parseInt prNumber)
    isPR triggerUsername t (render_request owner repo c).
Proof.
  unfold comment_set. intros [Hc|Hc]%elem_of_app.
  - do 5 right; left. unfold entity_comment in Hc.
    destruct (truthy _); [|by apply elem_of_nil in Hc].
    apply list_elem_of_singleton in Hc as ->. by destruct isPR.
  - rewrite <- issueComments_listed in Hc. unfold listed_comments in Hc.
    destruct (issues_listComments w _ owner repo (parseInt prNumber))
      as [cs|e] eqn:Hlist; [|by apply elem_of_nil in Hc].
    apply issueComments_spec in Hc as (pc & Hpc & _ & _ & ->).
    do 6 right; left. eexists cs, pc, _.
    split; [exact Hlist|]. split; [exact Hpc|].
    split; [apply parseInt_number_toString|done].
Qed.

(** One run on a repository name that yields an owner and a name. *)
Lemma run_spec repository isPR triggerUsername more t :
  split "/" repository = owner :: repo :: more ->
  truthy owner = true ->
  truthy repo = true ->
  let r := run (fetchGitHubData w toUpperCase toStringBeyond repository
                  prNumber isPR triggerUsername) t in
  (exists new,
      r.1 = (new ++ t)%list
      /\ Forall (fetch_request w toUpperCase owner repo
                   (parseInt prNumber) isPR triggerUsername t) new)
  /\ match r.2 with
     | Ret res =>
         map file (changedFilesWithSHA res) = changedFiles res
         /\ Forall (sha_ok w) (changedFilesWithSHA res)
         /\ reviewData res = (if isPR then Some [] else None)
         /\ (isPR = false -> changedFiles res = [])
         /\ (truthy_opt triggerUsername = false ->
             triggerDisplayName res = Undefined)
         /\ (truthy_opt triggerUsername = true ->
             exists t',
               r.1 = EUsersGetByUsername (default "" triggerUsername) :: t'
               /\ triggerDisplayName res
                  = match users_getByUsername w t'
                            (default "" triggerUsername) with
                    | Ret name => name
                    | Throw _ => Null
                    end)
     | Throw e =>
         e = failed_to_fetch isPR
         \/ exists t', fs_mkdir w t' downloadsDir = Throw e
     end.
Proof.
  intros Hsplit Howner Hrepo.
  set (P := fetch_request w toUpperCase owner repo (parseInt prNumber)
              isPR triggerUsername t).
  destruct (entity_fails_or_succeeds w owner repo prNumber isPR t)
    as [Hfails|Hentity].
  { rewrite (run_entity_fails w toUpperCase toStringBeyond owner repo
               prNumber repository isPR triggerUsername more t)
      by done.
    cbn [fst snd]. split; [|by left].
    exists [entity_request owner repo (parseInt prNumber) isPR].
    split; [done|]. constructor; [by left|constructor]. }
  destruct (run_entity_succeeds w toUpperCase toStringBeyond owner repo
              prNumber repository isPR triggerUsername more t
              Hsplit Howner Hrepo Hentity)
    as (c & out & Hout & Hsha & Hrun).
  cbv zeta in Hrun. rewrite Hrun. clear Hrun.
  assert (exists front,
            before_resolution w toUpperCase owner repo prNumber isPR t
            = (front ++ t)%list /\ Forall P front)
    as (front & Hfront & Hfrontall).
  { exists (hash_requests
              (listed_files w toUpperCase owner repo prNumber isPR t)
            ++ (if isPR
                then [EPullsListFiles owner repo (parseInt prNumber)]
                else [])
            ++ [EIssuesListComments owner repo (parseInt prNumber);
                entity_request owner repo (parseInt prNumber) isPR])%list.
    split.
    { unfold before_resolution, after_fetches, after_comments,
        after_entity. by rewrite <- !app_assoc. }
    apply Forall_app. split; [|apply Forall_app; split].
    - apply Forall_forall. intros e He.
      apply hash_requests_spec in He as (f & Hf & Hnd & ->).
      unfold listed_files in Hf.
      destruct isPR; [|by apply elem_of_nil in Hf].
      destruct (pulls_listFiles w _ owner repo (parseInt prNumber))
        as [fs|e] eqn:Hlist; [|by apply elem_of_nil in Hf].
      apply list_elem_of_fmap in Hf as (pf & -> & Hpf).
      do 3 right; left. split; [done|]. by exists fs, pf.
    - destruct isPR; [|constructor].
      constructor; [|constructor]. do 2 right; left. done.
    - constructor; [right; by left|].
      constructor; [by left|constructor]. }
  destruct (fs_mkdir w _ downloadsDir) as [[]|e] eqn:Hmk.
  2:{ cbn [fst snd]. split; [|right; eauto].
      exists (EFsMkdir downloadsDir :: front). rewrite Hfront.
      split; [done|]. constructor; [|done]. do 4 right; by left. }
  destruct (after_loop_requests w owner repo
              (comment_set w toStringBeyond owner repo prNumber isPR t)
              (before_resolution w toUpperCase owner repo prNumber isPR t)
              ∅) as (new & Hnew & Hnewall).
  cbn [fst snd changedFilesWithSHA changedFiles reviewData
         triggerDisplayName]. split.
  - exists (user_lookup triggerUsername ++ new
            ++ EFsMkdir downloadsDir :: front)%list.
    split.
    { rewrite Hnew, Hfront. rewrite <- !app_assoc. done. }
    apply Forall_app. split; [|apply Forall_app; split].
    + unfold user_lookup.
      destruct (truthy_opt triggerUsername) eqn:Htrig; [|constructor].
      constructor; [|constructor]. do 8 right. done.
    + eapply Forall_impl; [exact Hnewall|].
      intros e0 [(cm & Hcm & ->)|Hd]; [|do 7 right; by left].
      by apply comment_set_requests.
    + constructor; [|done]. do 4 right; by left.
  - split; [exact Hout|]. split; [exact Hsha|]. split; [done|].
    split; [intros ->; done|].
    unfold display_name, user_lookup.
    destruct (truthy_opt triggerUsername); split; try done.
    intros _. eexists. split; reflexivity.
Qed.

End Facts.
End FetchRuns.

Module FetchExtras.
Import Rel ImageDownloader Downloader Fetcher Spec FetchSpec StringFacts
  ResolverVocab FetchVocab IdFacts FetchRuns.

Local Arguments String.append : simpl nomatch.

Lemma repository_cases (w : World) (toUpperCase : string -> string)
    (toStringBeyond : Z -> string) (repository prNumber : string)
    (isPR : bool) (triggerUsername : option string) (t : trace) :
  run (fetchGitHubData w toUpperCase toStringBeyond repository prNumber
         isPR triggerUsername) t
  = (t, Throw invalid_repository)
  \/ exists owner repo more,
       split "/" repository = owner :: repo :: more
       /\ truthy owner = true /\ truthy repo = true.
Proof.
  unfold run, fetchGitHubData, call, Fetcher.body.
  destruct (split "/" repository) as [|owner [|repo more]];
    [by left..|].
  simpl. destruct (truthy owner) eqn:Howner; [|by left].
  destruct (truthy repo) eqn:Hrepo; [|by left].
  right. by exists owner, repo, more.
Qed.

(** X16. A repository name without a slash, with nothing before its
    first slash, or with nothing between the first slash and the next one
    (or the end) is refused before any request is sent. *)
Theorem malformed_repository_is_refused (w : World)
    (toUpperCase : string -> string) (toStringBeyond : Z -> string)
    (repository prNumber : string)
    (isPR : bool) (triggerUsername : option string) (t : trace) :
  malformed repository ->
  run (fetchGitHubData w toUpperCase toStringBeyond repository prNumber
         isPR triggerUsername) t
  = (t, Throw (JsError "Invalid repository format. Expected 'owner/repo'.")).
Proof.
  intros Hbad.
  destruct (repository_cases w toUpperCase toStringBeyond repository
              prNumber isPR triggerUsername t)
    as [H|(owner & repo & more & Hsplit & Howner & Hrepo)]; [exact H|].
  exfalso. destruct Hbad as [Hno|(o & rest & -> & Hno & Hcase)].
  - by rewrite (split_without_separator "/" repository Hno) in Hsplit.
  - change (o ++ "/" ++ rest) with (o ++ String "/" rest) in Hsplit.
    rewrite (split_at_first_separator "/" o rest Hno) in Hsplit.
    injection Hsplit as -> Hrest.
    destruct Hcase as [->|[->|[rest' ->]]]; [done| |].
    + by injection Hrest as <- _.
    + simpl in Hrest. by injection Hrest as <- _.
Qed.

(** X16 at work: a name that ends in its first slash. *)
Lemma malformed_repository_witness :
  run (fetchGitHubData Scenario2.reviewed_pull Scenario.upper_str
         Scenario.exponent_form "owner/" "7" true None) []
  = ([], Throw (JsError "Invalid repository format. Expected 'owner/repo'.")).
Proof.
  apply (malformed_repository_is_refused Scenario2.reviewed_pull
           Scenario.upper_str Scenario.exponent_form "owner/" "7" true
           None []).
  right. exists "owner", "". split; [reflexivity|]. split; [reflexivity|].
  right. by left.
Defined.

(** X17. The requests of one fetch: the entity, its comments, for a pull
    request its files and a hash for each listed file that is not
    deleted, the scratch directory, the rendering of the entity's body
    and of listed comments, image downloads, and the display name when a
    trigger user is given.  A listed comment is rendered under its
    identifier when that is a safe integer; beyond the safe integers the
    number it is rendered under is left open (from 1e21 on the identifier
    prints in exponent form and reads back as its first digits).  No
    review is ever requested or rendered. *)
Theorem requests_of_a_fetch (w : World) (toUpperCase : string -> string)
    (toStringBeyond : Z -> string)
    (repository prNumber : string) (isPR : bool)
    (triggerUsername : option string) (owner repo : string)
    (more : list string) (t : trace) :
  split "/" repository = owner :: repo :: more ->
  truthy owner = true ->
  truthy repo = true ->
  exists new,
    (run (fetchGitHubData w toUpperCase toStringBeyond repository prNumber
            isPR triggerUsername) t).1
    = (new ++ t)%list
    /\ Forall (fetch_request w toUpperCase owner repo (parseInt prNumber)
                 isPR triggerUsername t) new.
Proof.
  intros Hsplit Howner Hrepo.
  exact (proj1 (run_spec w toUpperCase toStringBeyond owner repo prNumber
                  repository isPR triggerUsername more t
                  Hsplit Howner Hrepo)).
Qed.

(** X17 at work. *)
Lemma requests_witness :
  exists new,
    (run (fetchGitHubData Scenario2.reviewed_pull Scenario.upper_str
            Scenario.exponent_form "o/r" "7" true (Some "dev")) []).1
    = (new ++ [])%list
    /\ Forall (fetch_request Scenario2.reviewed_pull Scenario.upper_str
                 "o" "r" (parseInt "7") true (Some "dev") []) new.
Proof.
  apply (requests_of_a_fetch Scenario2.reviewed_pull Scenario.upper_str
           Scenario.exponent_form "o/r" "7" true (Some "dev") "o" "r"
           [] []); reflexivity.
Defined.

(** X18. What a fetch returns: one hash entry per changed file, in
    order, saying [deleted] for a deleted file and otherwise [unknown] or
    the trimmed output of a run of [git hash-object]; no reviews, for a
    pull request the empty list; no changed files for an issue.  Without
    a trigger user the display name stays undefined.  With one, the user
    lookup is the last request of the run and the display name is what it
    answered, be it a string, [null] or nothing at all when the payload
    has no name, and [null] when the lookup failed. *)
Theorem result_of_a_fetch (w : World) (toUpperCase : string -> string)
    (toStringBeyond : Z -> string)
    (repository prNumber : string) (isPR : bool)
    (triggerUsername : option string) (t : trace) (res : FetchDataResult) :
  (run (fetchGitHubData w toUpperCase toStringBeyond repository prNumber
          isPR triggerUsername) t).2 = Ret res ->
  map file (changedFilesWithSHA res) = changedFiles res
  /\ Forall (sha_ok w) (changedFilesWithSHA res)
  /\ reviewData res = (if isPR then Some [] else None)
  /\ (isPR = false -> changedFiles res = [])
  /\ (truthy_opt triggerUsername = false ->
      triggerDisplayName res = Undefined)
  /\ (truthy_opt triggerUsername = true ->
      exists t',
        (run (fetchGitHubData w toUpperCase toStringBeyond repository
                prNumber isPR triggerUsername) t).1
        = EUsersGetByUsername (default "" triggerUsername) :: t'
        /\ triggerDisplayName res
           = match users_getByUsername w t' (default "" triggerUsername)
             with
             | Ret name => name
             | Throw _ => Null
             end).
Proof.
  intros Hres.
  destruct (repository_cases w toUpperCase toStringBeyond repository
              prNumber isPR triggerUsername t)
    as [H|(owner & repo & more & Hsplit & Howner & Hrepo)];
    [by rewrite H in Hres|].
  pose proof (proj2 (run_spec w toUpperCase toStringBeyond owner repo
                       prNumber repository isPR triggerUsername more t
                       Hsplit Howner Hrepo))
    as H.
  cbv zeta in H. by rewrite Hres in H.
Qed.

(** X18 at work: the changed file is hashed, the removed one is not, and
    the trigger user has no name in the payload. *)
Lemma result_witness :
  exists res,
    (run (fetchGitHubData Scenario2.nameless_users Scenario.upper_str
            Scenario.exponent_form "o/r" "7" true (Some "dev")) []).2
    = Ret res
    /\ map sha (changedFilesWithSHA res) = ["3b18e512"; "deleted"]
    /\ triggerDisplayName res = Undefined.
Proof.
  eexists. split; [vm_compute; reflexivity|].
  split; [reflexivity|].
  edestruct (result_of_a_fetch Scenario2.nameless_users Scenario.upper_str
               Scenario.exponent_form "o/r" "7" true (Some "dev") [])
    as (_ & _ & _ & _ & _ & Hname).
  - vm_compute. reflexivity.
  - destruct (Hname eq_refl) as (t' & Ht' & Hres).
    vm_compute in Ht'. injection Ht' as <-. exact Hres.
Defined.

(** X19. A fetch fails in three ways only: on the repository name, on
    the entity, with the fixed message for each, or with the exception of
    [fs.mkdir].  In particular the entity is never missing when the
    result is put together, and no exception of a sub-fetch, of a hash
    run, of a rendering, of a download or of the user lookup reaches the
    caller. *)
Theorem fetch_fails_in_three_ways (w : World)
    (toUpperCase : string -> string) (toStringBeyond : Z -> string)
    (repository prNumber : string)
    (isPR : bool) (triggerUsername : option string) (t : trace) (e : exn) :
  (run (fetchGitHubData w toUpperCase toStringBeyond repository prNumber
          isPR triggerUsername) t).2 = Throw e ->
  e = JsError "Invalid repository format. Expected 'owner/repo'."
  \/ e = JsError ("Failed to fetch " ++ (if isPR then "PR" else "issue")
                  ++ " data")
  \/ exists t', fs_mkdir w t' downloadsDir = Throw e.
Proof.
  intros Hres.
  destruct (repository_cases w toUpperCase toStringBeyond repository
              prNumber isPR triggerUsername t)
    as [H|(owner & repo & more & Hsplit & Howner & Hrepo)].
  { rewrite H in Hres. left. by injection Hres as <-. }
  pose proof (proj2 (run_spec w toUpperCase toStringBeyond owner repo
                       prNumber repository isPR triggerUsername more t
                       Hsplit Howner Hrepo))
    as H.
  cbv zeta in H. rewrite Hres in H. right. exact H.
Qed.

(** X19 at work: the pull request is not found. *)
Lemma fetch_failure_witness :
  JsError "Failed to fetch PR data"
  = JsError "Invalid repository format. Expected 'owner/repo'."
  \/ JsError "Failed to fetch PR data" = JsError "Failed to fetch PR data"
  \/ exists t',
       fs_mkdir Scenario.clean_github t' downloadsDir
       = Throw (JsError "Failed to fetch PR data").
Proof.
  apply (fetch_fails_in_three_ways Scenario.clean_github Scenario.upper_str
           Scenario.exponent_form "o/r" "7" true (Some "dev") []).
  reflexivity.
Defined.

(** X20. Every comment the fetcher hands to attachment resolution was
    listed with that body, which is not empty, and its rendering is
    requested under one number whatever the history.  For an identifier
    that is a safe integer, printing and parsing give it back, and that
    number is the identifier the comment was listed with; nothing is
    said of the number beyond the safe integers. *)
Theorem listed_comments_are_rendered_by_id (w : World)
    (toStringBeyond : Z -> string)
    (owner repo : string) (cs : list Payload.Comment)
    (c : CommentWithImages) :
  c ∈ issueComments (map (to_comment toStringBeyond) cs) ->
  exists pc n,
    pc ∈ cs
    /\ Payload.cm_body pc = Some (ImageDownloader.body c)
    /\ ImageDownloader.body c <> ""
    /\ (forall t m,
          (fetch_body_html w owner repo c t m).1.1
          = EIssuesGetCommentHtml owner repo n :: t)
    /\ (safe_integer (Payload.cm_id pc) = true ->
        n = Some (Payload.cm_id pc)).
Proof.
  intros Hc.
  destruct (issueComments_spec toStringBeyond owner repo cs c Hc)
    as (pc & Hpc & Hbody & Hne & Hreq).
  exists pc,
    (parseInt (number_toString toStringBeyond (Payload.cm_id pc))).
  repeat split; try done.
  - intros t m.
    by rewrite ResolutionFacts.fetch_body_html_state, Hreq.
  - apply parseInt_number_toString.
Qed.

(** X20 at work. *)
Lemma listed_comment_witness :
  exists pc n,
    pc ∈ [Scenario2.a_comment]
    /\ Payload.cm_body pc
       = Some (ImageDownloader.body Scenario.first_comment)
    /\ ImageDownloader.body Scenario.first_comment <> ""
    /\ (forall t m,
          (fetch_body_html Scenario2.reviewed_pull "o" "r"
             Scenario.first_comment t m).1.1
          = EIssuesGetCommentHtml "o" "r" n :: t)
    /\ (safe_integer (Payload.cm_id pc) = true ->
        n = Some (Payload.cm_id pc)).
Proof.
  apply (listed_comments_are_rendered_by_id Scenario2.reviewed_pull
           Scenario.exponent_form "o" "r"
           [Scenario2.a_comment] Scenario.first_comment).
  assert (issueComments (map (to_comment Scenario.exponent_form)
                           [Scenario2.a_comment])
          = [Scenario.first_comment]) as -> by (vm_compute; reflexivity).
  left.
Defined.

End FetchExtras.

(** ** The branch name in the deletion URL *)

Module UriFacts.
Import Spec ResolverVocab UriVocab.

Local Arguments String.append : simpl nomatch.

Lemma string_forall_app f a b :
  string_forall f (a ++ b) = string_forall f a && string_forall f b.
Proof.
  induction a as [|c a IH]; [done|]. simpl. by rewrite IH, andb_assoc.
Qed.

Lemma escape_plain c : string_forall plain (Uri.escape c) = true.
Proof. by destruct c as [[] [] [] [] [] [] [] []]. Qed.

Lemma encodeURIComponent_plain s :
  string_forall plain (Uri.encodeURIComponent s) = true.
Proof.
  induction s as [|c s IH]; [done|]. cbn [Uri.encodeURIComponent].
  by rewrite string_forall_app, escape_plain, IH.
Qed.

Lemma plain_excludes c s :
  plain c = false -> string_forall plain s = true -> occurs c s = false.
Proof.
  intros Hc. induction s as [|x s IH]; [done|]. simpl.
  intros [Hx Hs]%andb_true_iff. rewrite (IH Hs), orb_false_r.
  destruct (Ascii.eqb_spec x c) as [->|]; [congruence|done].
Qed.

End UriFacts.

Module UriExtras.
Import BranchReconciler BranchSpec BranchFacts BranchVocab BranchPaths Spec
  UriVocab UriFacts.

(** X21. On Gitea every deletion the function requests goes to
    [<api>/repos/<owner>/<repo>/branches/<segment>], where the segment is
    the encoded name of the working branch and holds no slash, question
    mark or hash sign, whatever the name: the name cannot reach another
    path or add a query. *)
Theorem gitea_deletion_names_one_segment (w : World) (owner repo : string)
    (claudeBranch : option string) (baseBranch : string)
    (useCommitSigning : bool) (t : trace) :
  isGiteaInstance w = true ->
  exists new r,
    run (checkAndCommitOrDeleteBranch w owner repo claudeBranch baseBranch
           useCommitSigning) t
    = ((new ++ t)%list, Ret r)
    /\ forall url authorization,
         EFetchDelete url authorization ∈ new ->
         exists b segment,
           claudeBranch = Some b
           /\ segment = Uri.encodeURIComponent b
           /\ url = show_env (GITEA_API_URL w) ++ "/repos/" ++ owner
                    ++ "/" ++ repo ++ "/branches/" ++ segment
           /\ occurs "/" segment = false
           /\ occurs "?" segment = false
           /\ occurs "#" segment = false.
Proof.
  intros Hgitea.
  assert (forall (new : list event) url authorization,
            Forall (fun e => is_deletion e = false) new ->
            EFetchDelete url authorization ∈ new -> False) as Hnone.
  { intros new url authorization Hall Hin.
    by apply (proj1 (Forall_forall _ _) Hall) in Hin. }
  destruct (truthy_opt claudeBranch) eqn:Hb.
  2:{ exists [], initial. rewrite run_unrequested by done.
      split; [reflexivity|]. by intros url authorization ?%elem_of_nil. }
  destruct claudeBranch as [b|]; [simpl in Hb|discriminate Hb].
  destruct (repos_getBranch w t owner repo b) as [existing|e] eqn:H0.
  2:{ exists [EReposGetBranch owner repo b], initial.
      rewrite (run_missing w owner repo b baseBranch useCommitSigning t e
                 Hb H0).
      split; [reflexivity|]. intros url authorization Hin.
      exfalso. eapply Hnone; [|exact Hin]. by repeat constructor. }
  destruct (run_existing w owner repo b baseBranch useCommitSigning t
              existing Hb H0) as (gits & l' & Hgits & _ & ->).
  pose proof (not_deletion_git gits Hgits) as Hnd.
  assert (Forall (fun e => is_deletion e = false)
            (gits ++ [EReposGetBranch owner repo b;
                      EReposGetBranch owner repo baseBranch;
                      EReposGetBranch owner repo b])) as Hearlier.
  { apply Forall_app. split; [done|]. by repeat constructor. }
  exists ((if shouldDeleteBranch l'
           then [deletion_request w owner repo b] else [])
          ++ gits ++ [EReposGetBranch owner repo b;
                      EReposGetBranch owner repo baseBranch;
                      EReposGetBranch owner repo b])%list, l'.
  split; [unfold heads_read; by rewrite <- !app_assoc|].
  intros url authorization [Hin|Hin]%elem_of_app;
    [|exfalso; eapply Hnone; [exact Hearlier|exact Hin]].
  destruct (shouldDeleteBranch l'); [|by apply elem_of_nil in Hin].
  apply list_elem_of_singleton in Hin. unfold deletion_request in Hin.
  rewrite Hgitea in Hin. injection Hin as -> _.
  exists b, (Uri.encodeURIComponent b).
  pose proof (encodeURIComponent_plain b) as H.
  repeat split; by apply plain_excludes.
Qed.

(** X21 at work: an empty branch with slashes in its name. *)
Lemma gitea_deletion_witness :
  exists new r,
    run (checkAndCommitOrDeleteBranch Scenario2.gitea "o" "r"
           (Some "claude/issue-7") "main" true) []
    = ((new ++ [])%list, Ret r)
    /\ forall url authorization,
         EFetchDelete url authorization ∈ new ->
         exists b segment,
           Some "claude/issue-7" = Some b
           /\ segment = Uri.encodeURIComponent b
           /\ url = show_env (GITEA_API_URL Scenario2.gitea) ++ "/repos/"
                    ++ "o" ++ "/" ++ "r" ++ "/branches/" ++ segment
           /\ occurs "/" segment = false
           /\ occurs "?" segment = false
           /\ occurs "#" segment = false.
Proof.
  apply (gitea_deletion_names_one_segment Scenario2.gitea "o" "r"
           (Some "claude/issue-7") "main" true []).
  reflexivity.
Defined.

End UriExtras.

(** ** The two checks on the actor *)

Module ActorExtras.
Import Actor.

(** X22. The actor check sends one request and lets pass exactly the
    accounts whose type is [User] and those that come without a type, as
    Gitea's do; a failed lookup is not caught. *)
Theorem only_users_and_untyped_pass
    (users_type : trace -> string -> outcome (option string))
    (actor : string) (t : trace) :
  (run (checkHumanActor users_type actor) t).1
  = EUsersGetByUsername actor :: t
  /\ ((run (checkHumanActor users_type actor) t).2 = Ret tt
      <-> users_type t actor = Ret None
          \/ users_type t actor = Ret (Some "User"))
  /\ (forall e, users_type t actor = Throw e ->
                (run (checkHumanActor users_type actor) t).2 = Throw e).
Proof.
  unfold run, checkHumanActor. unfold_eff.
  destruct (users_type t actor) as [[type_|]|e]; cbn [fst snd].
  - destruct (String.eqb_spec type_ "User") as [->|Hne]; cbn [negb fst snd].
    + split; [done|]. split; [|done]. split; [by right|done].
    + split; [done|]. split; [|done].
      split; [done|]. intros [[=]|[= ->]]. done.
  - split; [done|]. split; [|done]. split; [by left|done].
  - split; [done|]. split; [|by intros ? [= ->]].
    split; [done|]. by intros [[=]|[=]].
Qed.

End ActorExtras.

Module PermissionExtras.
Import Permissions.

(** X23. The permission check never throws, and it denies access in one
    case only: the permission endpoint has answered, with a level other
    than [admin] and [write]. *)
Theorem access_is_denied_only_on_an_answer (a : Access)
    (owner repo actor : string) (t : list call) :
  (exists granted,
      (checkWritePermissions a owner repo actor t).2 = Ret granted)
  /\ ((checkWritePermissions a owner repo actor t).2 = Ret false
      <-> exists level,
            getCollaboratorPermissionLevel a t owner repo actor = Ret level
            /\ level <> "admin" /\ level <> "write").
Proof.
  unfold checkWritePermissions.
  destruct (getCollaboratorPermissionLevel a t owner repo actor)
    as [level|e].
  - destruct (String.eqb_spec level "admin") as [->|Hadmin]; cbn [orb snd].
    { split; [eauto|]. split; [done|]. by intros (? & [= <-] & ? & ?). }
    destruct (String.eqb_spec level "write") as [->|Hwrite]; cbn [snd].
    { split; [eauto|]. split; [done|]. by intros (? & [= <-] & ? & ?). }
    split; [eauto|]. split; [|done]. intros _. by exists level.
  - destruct (checkCollaborator a _ owner repo actor); cbn [snd];
      (split; [eauto|]); (split; [done|]); by intros (? & [=] & _).
Qed.

(** X24. The answer of the collaborator check has no bearing on the
    outcome: two platforms that agree on the permission endpoint get the
    same calls and the same verdict, and when that endpoint fails the
    verdict is to grant access, after the one collaborator call. *)
Theorem collaborator_answer_is_ignored (a a' : Access)
    (owner repo actor : string) (t : list call) :
  getCollaboratorPermissionLevel a t owner repo actor
  = getCollaboratorPermissionLevel a' t owner repo actor ->
  checkWritePermissions a owner repo actor t
  = checkWritePermissions a' owner repo actor t
  /\ (forall e,
        getCollaboratorPermissionLevel a t owner repo actor = Throw e ->
        checkWritePermissions a owner repo actor t
        = (CheckCollaborator owner repo actor
           :: GetCollaboratorPermissionLevel owner repo actor :: t,
           Ret true)).
Proof.
  intros Hsame. unfold checkWritePermissions. rewrite <- Hsame.
  destruct (getCollaboratorPermissionLevel a t owner repo actor)
    as [level|e].
  - split; [done|]. by intros.
  - destruct (checkCollaborator a _ owner repo actor),
      (checkCollaborator a' _ owner repo actor); by split.
Qed.

(** X24 at work: the permission endpoint is missing; one platform
    confirms the collaborator, the other does not. *)
Lemma collaborator_witness :
  checkWritePermissions Scenario2.no_permission_endpoint "o" "r" "dev" []
  = checkWritePermissions Scenario2.nobody_collaborates "o" "r" "dev" []
  /\ (forall e,
        getCollaboratorPermissionLevel Scenario2.no_permission_endpoint []
          "o" "r" "dev" = Throw e ->
        checkWritePermissions Scenario2.no_permission_endpoint "o" "r"
          "dev" []
        = ([CheckCollaborator "o" "r" "dev";
            GetCollaboratorPermissionLevel "o" "r" "dev"], Ret true)).
Proof.
  apply (collaborator_answer_is_ignored Scenario2.no_permission_endpoint
           Scenario2.nobody_collaborates "o" "r" "dev" []).
  reflexivity.
Defined.

End PermissionExtras.
